(** * The chat transport and the message reconciliation of the agents repository

    A shallow embedding of [packages/ai-chat/src/ws-chat-transport.ts]
    (class [WebSocketChatTransport]) together with the pieces of the
    platform it runs on (JSON values, [String.prototype.trim], the default
    controller of a [ReadableStream], event listeners bound to an
    [AbortSignal], timers), and a model of the reconciliation and
    persistence step of the chat agent, whose implementation is not among
    the sources and is therefore taken from the specification.

    The file has two parts: all definitions first, then the lemmas and
    theorems about them. *)

From Stdlib Require Import ZArith Ascii String List Bool Lia.
From stdpp Require Import base option list gmap strings.

Import ListNotations.
#[local] Set Warnings "-register-all,-abstract-large-number".
Local Open Scope string_scope.
Local Open Scope list_scope.

(* ===================================================================== *)
(** * Part I: definitions                                                 *)
(* ===================================================================== *)

(** ** JavaScript values that travel as JSON *)

Module JS.

(** A value produced by [JSON.parse] (or handed to [JSON.stringify]).
    Objects keep their properties as an association list; [JSON.parse]
    yields objects with distinct keys, and the first binding is the one a
    property access reads. Numbers only matter through their truthiness
    here, so integers stand for them. *)
Inductive JSON : Type :=
| JNull
| JBool (b : bool)
| JNumber (z : Z)
| JString (s : string)
| JArray (l : list JSON)
| JObject (l : list (string * JSON)).

(** An [Error] object: its [name] and its [message]. *)
Record JsError : Type := mkError { err_name : string; err_message : string }.

Definition TypeError (msg : string) : JsError := mkError "TypeError" msg.
(** [new Error(msg)] *)
Definition Error (msg : string) : JsError := mkError "Error" msg.

(** The result of evaluating an expression: a value, or a thrown error. *)
Inductive Outcome (A : Type) : Type :=
| Normal (a : A)
| Throw (e : JsError).
Arguments Normal {A} a.
Arguments Throw {A} e.

(** ToBoolean *)
Definition truthy (v : JSON) : bool :=
  match v with
  | JNull => false
  | JBool b => b
  | JNumber z => negb (Z.eqb z 0)
  | JString s => negb (String.eqb s "")
  | JArray _ => true
  | JObject _ => true
  end.

(** ToBoolean of a property that may be absent ([undefined] is falsy). *)
Definition truthy_prop (v : option JSON) : bool :=
  match v with
  | Some x => truthy x
  | None => false
  end.

Fixpoint assoc (k : string) (l : list (string * JSON)) : option JSON :=
  match l with
  | [] => None
  | (k', v) :: r => if String.eqb k k' then Some v else assoc k r
  end.

(** [v.k] for one of the property names the transport reads ([type], [id],
    [error], [body], [done]): reading a property of [null] throws, an
    object yields the property or [undefined] ([None]), and no other JSON
    value has a property of these names. *)
Definition get_prop (v : JSON) (k : string) : Outcome (option JSON) :=
  match v with
  | JNull => Throw (TypeError "Cannot read properties of null")
  | JObject l => Normal (assoc k l)
  | _ => Normal None
  end.

(** *** String.prototype.trim

    Strings are UTF-8 text. [trim] removes the code points of WhiteSpace
    and LineTerminator from both ends: U+0009..U+000D, U+0020, U+00A0,
    U+1680, U+2000..U+200A, U+2028, U+2029, U+202F, U+205F, U+3000 and
    U+FEFF. *)

Definition byte_is (c : ascii) (n : nat) : bool := Nat.eqb (nat_of_ascii c) n.

Definition ws1 (c : ascii) : bool :=
  let n := nat_of_ascii c in
  (Nat.leb 9 n && Nat.leb n 13) || Nat.eqb n 32.

Definition ws2 (c1 c2 : ascii) : bool :=
  byte_is c1 194 && byte_is c2 160.

Definition ws3 (c1 c2 c3 : ascii) : bool :=
  let n3 := nat_of_ascii c3 in
  (byte_is c1 225 && byte_is c2 154 && byte_is c3 128)
  || (byte_is c1 226 && byte_is c2 128
      && ((Nat.leb 128 n3 && Nat.leb n3 138)
          || Nat.eqb n3 168 || Nat.eqb n3 169 || Nat.eqb n3 175))
  || (byte_is c1 226 && byte_is c2 129 && byte_is c3 159)
  || (byte_is c1 227 && byte_is c2 128 && byte_is c3 128)
  || (byte_is c1 239 && byte_is c2 187 && byte_is c3 191).

(** Drop the white space at the front. *)
Fixpoint trimStart_bytes (s : list ascii) : list ascii :=
  match s with
  | [] => []
  | c1 :: r1 =>
      if ws1 c1 then trimStart_bytes r1
      else match r1 with
           | [] => s
           | c2 :: r2 =>
               if ws2 c1 c2 then trimStart_bytes r2
               else match r2 with
                    | [] => s
                    | c3 :: r3 =>
                        if ws3 c1 c2 c3 then trimStart_bytes r3 else s
                    end
           end
  end.

(** The same on the reversed text, whose code points arrive last byte
    first. *)
Fixpoint trimStart_rev_bytes (s : list ascii) : list ascii :=
  match s with
  | [] => []
  | c1 :: r1 =>
      if ws1 c1 then trimStart_rev_bytes r1
      else match r1 with
           | [] => s
           | c2 :: r2 =>
               if ws2 c2 c1 then trimStart_rev_bytes r2
               else match r2 with
                    | [] => s
                    | c3 :: r3 =>
                        if ws3 c3 c2 c1 then trimStart_rev_bytes r3 else s
                    end
           end
  end.

Definition trim (s : string) : string :=
  string_of_list_ascii
    (rev (trimStart_rev_bytes (rev (trimStart_bytes (list_ascii_of_string s))))).

(** One white-space code point, as its UTF-8 bytes. *)
Definition ws_codepoint (w : list ascii) : bool :=
  match w with
  | [c1] => ws1 c1
  | [c1; c2] => ws2 c1 c2
  | [c1; c2; c3] => ws3 c1 c2 c3
  | _ => false
  end.

(** A text made of white space only (the empty text included). *)
Inductive whitespace_only : list ascii -> Prop :=
| ws_nil : whitespace_only []
| ws_app w s :
    ws_codepoint w = true -> whitespace_only s -> whitespace_only (w ++ s).

End JS.

(** ** Reconciliation and persistence of the chat agent *)

Module Reconcile.

Inductive Role : Type := user | assistant | system | tool.

Definition role_eqb (a b : Role) : bool :=
  match a, b with
  | user, user | assistant, assistant | system, system | tool, tool => true
  | _, _ => false
  end.

(** A chat message: its identifier, its role, and its content in
    serialized form (content is compared byte for byte). *)
Record Message : Type := mkMessage {
  msg_id : string;
  role : Role;
  content : string
}.

Definition claimed_at (claimed : list nat) (i : nat) : bool :=
  existsb (Nat.eqb i) claimed.

(** Modelled from the spec: the scan of a reconciliation pass, which is
    part of [_reconcileAssistantIdsWithServerState] (not among the
    sources). It visits the server indices in ascending order starting at
    index [i] and returns the first one that is still unclaimed and whose
    message satisfies [P]. *)
Fixpoint first_unclaimed (P : Message -> bool) (claimed : list nat)
    (i : nat) (server : list Message) : option nat :=
  match server with
  | [] => None
  | s :: rest =>
      if negb (claimed_at claimed i) && P s then Some i
      else first_unclaimed P claimed (S i) rest
  end.

Definition same_id (c s : Message) : bool := String.eqb (msg_id s) (msg_id c).

Definition same_content (c s : Message) : bool :=
  role_eqb (role s) (role c) && String.eqb (content s) (content c).

(** The state of a pass: the server indices claimed so far, and for the
    client messages already visited, in order, the server index each one
    was matched with. *)
Definition PassState : Type := (list nat * list (option nat))%type.

(** Modelled from the spec: pass 1 of
    [_reconcileAssistantIdsWithServerState] (not among the sources), one
    client message. An identifier equal to that of an unclaimed server
    message claims that server index. *)
Definition exact_id_step (server : list Message) (st : PassState)
    (c : Message) : PassState :=
  match first_unclaimed (same_id c) (fst st) 0 server with
  | Some i => (i :: fst st, snd st ++ [Some i])
  | None => (fst st, snd st ++ [None])
  end.

Definition exact_id_pass (server client : list Message) : PassState :=
  fold_left (exact_id_step server) client ([], []).

(** Modelled from the spec: the choice pass 2 makes for one client message
    that pass 1 left unmatched. Only assistant messages are matched by
    content; the scan covers all unclaimed server indices. *)
Definition content_choice (server : list Message) (claimed : list nat)
    (c : Message) : option nat :=
  match role c with
  | assistant => first_unclaimed (same_content c) claimed 0 server
  | _ => None
  end.

(** Modelled from the spec: pass 2 of
    [_reconcileAssistantIdsWithServerState] (not among the sources), one
    client message paired with the outcome of pass 1. *)
Definition content_step (server : list Message) (st : PassState)
    (cm : Message * option nat) : PassState :=
  match snd cm with
  | Some i => (fst st, snd st ++ [Some i])
  | None =>
      match content_choice server (fst st) (fst cm) with
      | Some i => (i :: fst st, snd st ++ [Some i])
      | None => (fst st, snd st ++ [None])
      end
  end.

Definition content_pass (server client : list Message) (p1 : PassState)
    : PassState :=
  fold_left (content_step server) (combine client (snd p1)) (fst p1, []).

(** The identifier a client message ends up with. *)
Definition final_id (server : list Message) (cm : Message * option nat)
    : string :=
  match snd cm with
  | Some i =>
      match nth_error server i with
      | Some s => msg_id s
      | None => msg_id (fst cm)
      end
  | None => msg_id (fst cm)
  end.

Definition with_id (m : Message) (i : string) : Message :=
  mkMessage i (role m) (content m).

Definition mem_id (i : string) (ids : list string) : bool :=
  existsb (String.eqb i) ids.

Definition subset_ids (a b : list string) : bool :=
  forallb (fun i => mem_id i b) a.

Record ReconciliationResult : Type := mkResult {
  mapping : list (string * string);
  final : list Message;
  toDelete : list string
}.

Definition serverIds (server : list Message) : list string :=
  map msg_id server.

Definition finalIds (r : ReconciliationResult) : list string :=
  map msg_id (final r).

(** Modelled from the spec: [_reconcileAssistantIdsWithServerState] with
    the computation of the stale identifiers (not among the sources). The
    final list has one message per client message, in the client's order,
    and [toDelete] is [serverIds - finalIds]. *)
Definition reconcile (server client : list Message) : ReconciliationResult :=
  let p1 := exact_id_pass server client in
  let p2 := content_pass server client p1 in
  let cms := combine client (snd p2) in
  let fin := map (fun cm => with_id (fst cm) (final_id server cm)) cms in
  mkResult
    (map (fun cm => (msg_id (fst cm), final_id server cm)) cms)
    fin
    (List.filter (fun i => negb (mem_id i (map msg_id fin)))
                 (serverIds server)).

(** Insert a row, or replace the row of the same identifier in place. *)
Fixpoint upsert (rows : list Message) (m : Message) : list Message :=
  match rows with
  | [] => [m]
  | r :: rest =>
      if String.eqb (msg_id r) (msg_id m) then m :: rest
      else r :: upsert rest m
  end.

(** Modelled from the spec: the batched [apply(finalMessages, deleteIds)]
    of the persistence store (not among the sources). *)
Definition apply (rows final_messages : list Message)
    (deleteIds : list string) : list Message :=
  List.filter (fun r => negb (mem_id (msg_id r) deleteIds))
              (fold_left upsert final_messages rows).

(** The identifiers that persisting really deletes: [toDelete] when the
    final identifiers all exist on the server, nothing otherwise. *)
Definition deleted (server : list Message) (r : ReconciliationResult)
    : list string :=
  if subset_ids (finalIds r) (serverIds server) then toDelete r else [].

(** Modelled from the spec: [persistMessages] called with
    [_deleteStaleRows] (not among the sources; the changeset
    fix-preserve-server-messages describes the gate). [server] is the
    stored transcript, [client] the incoming one. *)
Definition persistMessages (server client : list Message) : list Message :=
  let r := reconcile server client in
  apply server (final r) (deleted server r).

(** The transcripts of the reconciliation tests. *)
Definition U1 : Message := mkMessage "u1" user "Can you help?".
Definition U2 : Message := mkMessage "u2" user "One more thing".
Definition S1 : Message := mkMessage "assistant_s1" assistant "Sure".

End Reconcile.

(** ** The WebSocket chat transport *)

(** The class [WebSocketChatTransport] of [ws-chat-transport.ts]. One
    [World] holds the transport, the connections it has been given, the
    streams it has created and the calls of [reconnectToStream] that are
    under way; the methods and closures of the class are computations on
    that world, written statement for statement. The event loop is single
    threaded: each method, listener, timer callback and consumer call runs
    to its end before the next one starts, so each is one [Event].

    From the platform the model takes what the Streams standard says of a
    default controller ([enqueue] and [close] throw unless the stream is
    readable and no close was requested; [error] does nothing unless the
    stream is readable; [stream.cancel()] closes a readable stream and
    then calls the source's [cancel]), what the DOM standard says of a
    listener added with a [signal] (it is removed when the signal is
    aborted), and timers driven by a clock in milliseconds. A connection's
    [send] either records the text or throws; it does not call back into
    the transport. *)

Module Transport.
Import JS.

(** The frame kinds of the wire protocol ([MessageType] of [./types]). *)
Inductive MessageType : Type :=
| CF_AGENT_USE_CHAT_REQUEST
| CF_AGENT_USE_CHAT_RESPONSE
| CF_AGENT_CHAT_REQUEST_CANCEL
| CF_AGENT_STREAM_RESUME_REQUEST
| CF_AGENT_STREAM_RESUMING
| CF_AGENT_STREAM_RESUME_ACK.

(** What the transport takes from its surroundings: the JSON codec of the
    platform ([JSON_parse] gives [None] where [JSON.parse] throws), the
    conversion of a value to a string, and the string each member of the
    [MessageType] enumeration stands for (the module [./types] is not among
    the sources). *)
Class Externals : Type := {
  JSON_parse : string -> option JSON;
  JSON_stringify : JSON -> string;
  js_ToString : JSON -> string;
  wire : MessageType -> string
}.

(** *** The default controller of a ReadableStream *)

Inductive StreamState : Type :=
| Readable
| Closed
| Errored (e : JsError).

(** The calls the transport makes on a controller, kept as a history. *)
Inductive CtlCall : Type :=
| CallEnqueue (chunk : JSON)
| CallClose
| CallError (e : JsError).

Record Controller : Type := mkController {
  ctl_state : StreamState;
  ctl_queue : list JSON;
  ctl_closeRequested : bool;
  ctl_calls : list CtlCall
}.

Definition fresh_controller : Controller := mkController Readable [] false [].

Definition is_readable (st : StreamState) : bool :=
  match st with Readable => true | _ => false end.

(** ReadableStreamDefaultControllerCanCloseOrEnqueue *)
Definition canCloseOrEnqueue (c : Controller) : bool :=
  negb (ctl_closeRequested c) && is_readable (ctl_state c).

(** [controller.enqueue(chunk)] *)
Definition ctl_enqueue (chunk : JSON) (c : Controller)
    : Outcome unit * Controller :=
  let calls := ctl_calls c ++ [CallEnqueue chunk] in
  if canCloseOrEnqueue c then
    (Normal tt,
     mkController (ctl_state c) (ctl_queue c ++ [chunk])
                  (ctl_closeRequested c) calls)
  else
    (Throw (TypeError "Invalid state: Controller is already closed"),
     mkController (ctl_state c) (ctl_queue c) (ctl_closeRequested c) calls).

(** [controller.close()]: the stream closes at once when nothing is queued,
    and after the queue has been read otherwise. *)
Definition ctl_close (c : Controller) : Outcome unit * Controller :=
  let calls := ctl_calls c ++ [CallClose] in
  if canCloseOrEnqueue c then
    (Normal tt,
     mkController (match ctl_queue c with [] => Closed | _ => Readable end)
                  (ctl_queue c) true calls)
  else
    (Throw (TypeError "Invalid state: Controller is already closed"),
     mkController (ctl_state c) (ctl_queue c) (ctl_closeRequested c) calls).

(** [controller.error(e)], ReadableStreamDefaultControllerError: no effect
    unless the stream is readable (it never throws); otherwise the queue
    is dropped and the stream is errored. *)
Definition ctl_error (e : JsError) (c : Controller)
    : Outcome unit * Controller :=
  let calls := ctl_calls c ++ [CallError e] in
  match ctl_state c with
  | Readable => (Normal tt, mkController (Errored e) [] (ctl_closeRequested c) calls)
  | _ => (Normal tt,
          mkController (ctl_state c) (ctl_queue c) (ctl_closeRequested c) calls)
  end.

(** What one [read()] of the consumer yields. *)
Inductive ReadResult : Type :=
| Value (chunk : JSON)
| Done
| Rejected (e : JsError)
| Pending.

(** One [reader.read()]: the head of the queue if there is one (closing the
    stream when a requested close becomes due), else what the state says. *)
Definition ctl_read (c : Controller) : ReadResult * Controller :=
  match ctl_state c with
  | Closed => (Done, c)
  | Errored e => (Rejected e, c)
  | Readable =>
      match ctl_queue c with
      | chunk :: rest =>
          (Value chunk,
           mkController
             (match rest with
              | [] => if ctl_closeRequested c then Closed else Readable
              | _ => Readable
              end)
             rest (ctl_closeRequested c) (ctl_calls c))
      | [] => (Pending, c)
      end
  end.

(** The consumer reads until the stream ends or has nothing more for now;
    [fuel] bounds the number of reads. *)
Fixpoint ctl_drain (fuel : nat) (c : Controller) : list ReadResult :=
  match fuel with
  | 0 => []
  | S n =>
      match ctl_read c with
      | (Value chunk, c') => Value chunk :: ctl_drain n c'
      | (Pending, _) => []
      | (r, _) => [r]
      end
  end.

(** All the consumer can read from now on. *)
Definition consumer_view (c : Controller) : list ReadResult :=
  ctl_drain (S (length (ctl_queue c))) c.

(** *** The state of the transport and of what it has created *)

(** A connection ([AgentConnection]): the texts sent on it so far, whether
    its [send] throws, and the message listeners added to it, each the
    [onMessage] closure of a stream, in the order they were added. *)
Record Agent : Type := mkAgent {
  sent : list string;
  send_error : option JsError;
  listeners : list nat
}.

Inductive StreamKind : Type := SendStream | ResumeStream.

(** The variables a stream's closures share: [requestId], [completed], the
    stream controller, the AbortController whose signal guards the message
    listener, the connection captured as [agent], and for a stream of
    [sendMessages] the caller's [abortSignal] ([None] when absent, else
    whether it has been aborted). *)
Record Stream : Type := mkStream {
  kind : StreamKind;
  requestId : string;
  completed : bool;
  controller : Controller;
  signal_aborted : bool;
  bound_agent : nat;
  abortSignal : option bool
}.

(** One call of [reconnectToStream]: its [resolved] flag, its pending
    timer (the time it is due), and what its promise was resolved with
    ([Some None] is [null], [Some (Some sid)] a stream). *)
Record ResumeCall : Type := mkCall {
  resolved : bool;
  timeout : option nat;
  settled : option (option nat)
}.

Record World : Type := mkWorld {
  agents : list Agent;
  agent : nat;
  activeRequestIds : option (gset string);
  _resumeResolver : option nat;
  streams : list Stream;
  calls : list ResumeCall;
  now : nat
}.

Definition set_agents (f : list Agent -> list Agent) (w : World) : World :=
  mkWorld (f (agents w)) (agent w) (activeRequestIds w) (_resumeResolver w)
          (streams w) (calls w) (now w).
Definition set_agent (a : nat) (w : World) : World :=
  mkWorld (agents w) a (activeRequestIds w) (_resumeResolver w)
          (streams w) (calls w) (now w).
Definition set_activeRequestIds (f : gset string -> gset string) (w : World)
    : World :=
  mkWorld (agents w) (agent w) (f <$> activeRequestIds w) (_resumeResolver w)
          (streams w) (calls w) (now w).
Definition set_resumeResolver (r : option nat) (w : World) : World :=
  mkWorld (agents w) (agent w) (activeRequestIds w) r
          (streams w) (calls w) (now w).
Definition set_streams (f : list Stream -> list Stream) (w : World) : World :=
  mkWorld (agents w) (agent w) (activeRequestIds w) (_resumeResolver w)
          (f (streams w)) (calls w) (now w).
Definition set_calls (f : list ResumeCall -> list ResumeCall) (w : World)
    : World :=
  mkWorld (agents w) (agent w) (activeRequestIds w) (_resumeResolver w)
          (streams w) (f (calls w)) (now w).
Definition set_now (t : nat) (w : World) : World :=
  mkWorld (agents w) (agent w) (activeRequestIds w) (_resumeResolver w)
          (streams w) (calls w) t.

Definition set_completed (b : bool) (s : Stream) : Stream :=
  mkStream (kind s) (requestId s) b (controller s) (signal_aborted s)
           (bound_agent s) (abortSignal s).
Definition set_controller (c : Controller) (s : Stream) : Stream :=
  mkStream (kind s) (requestId s) (completed s) c (signal_aborted s)
           (bound_agent s) (abortSignal s).
Definition set_signal_aborted (b : bool) (s : Stream) : Stream :=
  mkStream (kind s) (requestId s) (completed s) (controller s) b
           (bound_agent s) (abortSignal s).
Definition set_abortSignal (o : option bool) (s : Stream) : Stream :=
  mkStream (kind s) (requestId s) (completed s) (controller s)
           (signal_aborted s) (bound_agent s) o.

(** *** Computations that change the world and may throw *)

Definition M (A : Type) : Type := World -> Outcome A * World.

Definition ret {A : Type} (a : A) : M A := fun w => (Normal a, w).

Definition throw {A : Type} (e : JsError) : M A := fun w => (Throw e, w).

Definition bind {A B : Type} (m : M A) (f : A -> M B) : M B :=
  fun w =>
    match m w with
    | (Normal a, w') => f a w'
    | (Throw e, w') => (Throw e, w')
    end.

(** [try { m } catch { h }]: what [m] did before it threw stays done. *)
Definition try_catch {A : Type} (m : M A) (h : M A) : M A :=
  fun w =>
    match m w with
    | (Throw _, w') => h w'
    | r => r
    end.

Definition gets {A : Type} (f : World -> A) : M A := fun w => (Normal (f w), w).

Definition modify (f : World -> World) : M unit := fun w => (Normal tt, f w).

Definition lift {A : Type} (o : Outcome A) : M A := fun w => (o, w).

Declare Scope js_scope.
Delimit Scope js_scope with js.
Notation "'let*' x := m 'in' k" := (bind m (fun x => k))
  (at level 10, x name, m at level 100, k at level 200) : js_scope.
Notation "m ;; k" := (bind m (fun _ => k))
  (at level 100, k at level 200, right associativity) : js_scope.
Local Open Scope js_scope.

(** *** Connections, streams and calls as objects of the world *)

Definition add_sent (data : string) (ag : Agent) : Agent :=
  mkAgent (sent ag ++ [data]) (send_error ag) (listeners ag).

Definition add_listener (sid : nat) (ag : Agent) : Agent :=
  mkAgent (sent ag) (send_error ag) (listeners ag ++ [sid]).

(** [a.send(data)]: throws what the connection throws when it cannot send,
    else the text joins what was sent on [a]. A handle that names no
    connection cannot be called. *)
Definition agent_send (a : nat) (data : string) : M unit :=
  fun w =>
    match agents w !! a with
    | Some ag =>
        match send_error ag with
        | Some e => (Throw e, w)
        | None => (Normal tt, set_agents (alter (add_sent data) a) w)
        end
    | None => (Throw (TypeError "agent.send is not a function"), w)
    end.

(** [a.addEventListener("message", onMessage, { signal })] for the
    [onMessage] of stream [sid]: nothing is added if the signal is already
    aborted. *)
Definition addEventListener (a sid : nat) : M unit :=
  fun w =>
    match streams w !! sid with
    | Some s =>
        if signal_aborted s then (Normal tt, w)
        else (Normal tt, set_agents (alter (add_listener sid) a) w)
    | None => (Normal tt, w)
    end.

(** [activeIds?.add(requestId)] and [activeIds?.delete(requestId)] *)
Definition activeIds_add (rid : string) : M unit :=
  modify (set_activeRequestIds (fun ids => {[rid]} ∪ ids)).

Definition activeIds_delete (rid : string) : M unit :=
  modify (set_activeRequestIds (fun ids => ids ∖ {[rid]})).

(** A new stream object; its index is its identity. *)
Definition new_stream (s : Stream) : M nat :=
  fun w => (Normal (length (streams w)), set_streams (fun l => l ++ [s]) w).

Definition new_call (c : ResumeCall) : M nat :=
  fun w => (Normal (length (calls w)), set_calls (fun l => l ++ [c]) w).

Definition update_stream (sid : nat) (f : Stream -> Stream) : M unit :=
  modify (set_streams (alter f sid)).

Definition update_call (cid : nat) (f : ResumeCall -> ResumeCall) : M unit :=
  modify (set_calls (alter f cid)).

(** Run a controller method on the controller of stream [sid]. *)
Definition on_controller (sid : nat)
    (action : Controller -> Outcome unit * Controller) : M unit :=
  fun w =>
    match streams w !! sid with
    | Some s =>
        let r := action (controller s) in
        (fst r, set_streams (alter (set_controller (snd r)) sid) w)
    | None => (Normal tt, w)
    end.

(** *** The closures of a stream *)

(** [finish(action)], the cleanup helper of both kinds of stream. *)
Definition finish (sid : nat)
    (action : Controller -> Outcome unit * Controller) : M unit :=
  let* s := gets (fun w => streams w !! sid) in
  match s with
  | None => ret tt
  | Some s =>
      if completed s then ret tt
      else
        update_stream sid (set_completed true) ;;
        try_catch (on_controller sid action) (ret tt) ;;
        activeIds_delete (requestId s) ;;
        update_stream sid (set_signal_aborted true)
  end.

Definition abortError : JsError := mkError "AbortError" "Aborted".

Section WithExternals.
Context `{Externals}.

Definition type_of (t : MessageType) : JSON := JString (wire t).

Definition cancel_frame (rid : string) : string :=
  JSON_stringify
    (JObject [("id", JString rid);
              ("type", type_of CF_AGENT_CHAT_REQUEST_CANCEL)]).

(** [onAbort] of [sendMessages]. *)
Definition onAbort (sid : nat) : M unit :=
  let* s := gets (fun w => streams w !! sid) in
  match s with
  | None => ret tt
  | Some s =>
      if completed s then ret tt
      else
        try_catch (agent_send (bound_agent s) (cancel_frame (requestId s)))
                  (ret tt) ;;
        finish sid (ctl_error abortError)
  end.

(** [v !== s] for a property [v] and a string [s], negated. *)
Definition is_string (v : option JSON) (s : string) : bool :=
  match v with
  | Some (JString s') => String.eqb s' s
  | _ => false
  end.

(** [data.body || "Stream error"], as the message of an [Error]. *)
Definition error_message (body : option JSON) : string :=
  match body with
  | Some v =>
      if truthy v then
        match v with JString s => s | _ => js_ToString v end
      else "Stream error"
  | None => "Stream error"
  end.

(** [data.body?.trim()], by its truthiness; calling [trim] on a value that
    is neither absent nor a string throws. *)
Definition body_trim (body : option JSON) : Outcome bool :=
  match body with
  | None | Some JNull => Normal false
  | Some (JString s) => Normal (negb (String.eqb (trim s) ""))
  | Some _ => Throw (TypeError "data.body?.trim is not a function")
  end.

(** [JSON.parse(data.body)] followed by [controller.enqueue(chunk)]. *)
Definition parse_and_enqueue (sid : nat) (body : option JSON) : M unit :=
  match body with
  | Some (JString s) =>
      match JSON_parse s with
      | Some chunk => on_controller sid (ctl_enqueue chunk)
      | None => throw (mkError "SyntaxError" "Unexpected token")
      end
  | _ => throw (mkError "SyntaxError" "Unexpected token")
  end.

(** [onMessage], the message listener of a stream; the two kinds of stream
    have the same listener, statement for statement. [text] is
    [event.data]. *)
Definition onMessage (sid : nat) (text : string) : M unit :=
  let* s := gets (fun w => streams w !! sid) in
  match s with
  | None => ret tt
  | Some s =>
      try_catch
        (match JSON_parse text with
         | None => throw (mkError "SyntaxError" "Unexpected token")
         | Some data =>
             let* ty := lift (get_prop data "type") in
             if negb (is_string ty (wire CF_AGENT_USE_CHAT_RESPONSE)) then ret tt
             else
               let* id := lift (get_prop data "id") in
               if negb (is_string id (requestId s)) then ret tt
               else
                 let* err := lift (get_prop data "error") in
                 if truthy_prop err then
                   let* body := lift (get_prop data "body") in
                   finish sid (ctl_error (Error (error_message body)))
                 else
                   let* body := lift (get_prop data "body") in
                   let* nonblank := lift (body_trim body) in
                   (if nonblank
                    then try_catch (parse_and_enqueue sid body) (ret tt)
                    else ret tt) ;;
                   let* dn := lift (get_prop data "done") in
                   if truthy_prop dn then finish sid ctl_close else ret tt
         end)
        (ret tt)
  end.

(** The [cancel()] of the underlying source, by kind of stream. *)
Definition source_cancel (sid : nat) (k : StreamKind) : M unit :=
  match k with
  | SendStream => onAbort sid
  | ResumeStream => finish sid (fun c => (Normal tt, c))
  end.

(** *** The consumer's side of a stream *)

(** [stream.cancel()], ReadableStreamCancel: nothing happens on a closed
    stream, an errored one rejects with the stored error; a readable one
    is first closed (ReadableStreamClose) and emptied, and only then is
    the [cancel()] of its source called, so that [cancel()] finds the
    stream closed already. *)
Definition stream_cancel (sid : nat) : M unit :=
  let* s := gets (fun w => streams w !! sid) in
  match s with
  | None => ret tt
  | Some s =>
      let c := controller s in
      match ctl_state c with
      | Closed => ret tt
      | Errored e => throw e
      | Readable =>
          update_stream sid
            (set_controller
               (mkController Closed [] (ctl_closeRequested c) (ctl_calls c))) ;;
          source_cancel sid (kind s)
      end
  end.

(** [reader.read()] on stream [sid]. *)
Definition stream_read (sid : nat) : M ReadResult :=
  fun w =>
    match streams w !! sid with
    | Some s =>
        let r := ctl_read (controller s) in
        (Normal (fst r), set_streams (alter (set_controller (snd r)) sid) w)
    | None => (Normal Pending, w)
    end.

(** The caller's [abortSignal] of stream [sid] fires: its listener, added
    with [once], runs [onAbort]. *)
Definition abort_signal (sid : nat) : M unit :=
  let* s := gets (fun w => streams w !! sid) in
  match s with
  | Some s =>
      match abortSignal s with
      | Some false =>
          update_stream sid (set_abortSignal (Some true)) ;;
          onAbort sid
      | _ => ret tt
      end
  | None => ret tt
  end.

(** The listener of stream [sid] at a message event: it runs unless its
    signal has been aborted, which removed it. *)
Definition listener_run (sid : nat) (text : string) : M unit :=
  let* s := gets (fun w => streams w !! sid) in
  match s with
  | Some s => if signal_aborted s then ret tt else onMessage sid text
  | None => ret tt
  end.

(** A message event with [event.data = text] on connection [a]: the
    listeners run in the order they were added. *)
Fixpoint run_listeners (ls : list nat) (text : string) : M unit :=
  match ls with
  | [] => ret tt
  | sid :: rest => listener_run sid text ;; run_listeners rest text
  end.

Definition dispatch (a : nat) (text : string) : M unit :=
  let* ag := gets (fun w => agents w !! a) in
  match ag with
  | Some ag => run_listeners (listeners ag) text
  | None => ret tt
  end.

(** *** The methods of the transport *)

(** [{ ...o, k: v }]: a property that exists keeps its place and takes the
    new value, a new one goes last. *)
Fixpoint obj_set (o : list (string * JSON)) (k : string) (v : JSON)
    : list (string * JSON) :=
  match o with
  | [] => [(k, v)]
  | (k', v') :: rest =>
      if String.eqb k' k then (k', v) :: rest else (k', v') :: obj_set rest k v
  end.

Definition spread (o extra : list (string * JSON)) : list (string * JSON) :=
  fold_left (fun acc kv => obj_set acc (fst kv) (snd kv)) extra o.

(** The options of [sendMessages] that reach the wire or the stream:
    [messages], [trigger], what [prepareBody] returned (nothing when there
    is no [prepareBody]), [body], and [abortSignal] ([None] when there is
    none, else whether it is aborted already). *)
Record SendOptions : Type := mkSendOptions {
  opt_messages : JSON;
  opt_trigger : string;
  opt_prepared : list (string * JSON);
  opt_body : list (string * JSON);
  opt_abortSignal : option bool
}.

Definition bodyPayload (options : SendOptions) : string :=
  JSON_stringify
    (JObject
       (spread [("messages", opt_messages options);
                ("trigger", JString (opt_trigger options))]
               (spread (opt_prepared options) (opt_body options)))).

Definition request_frame (rid : string) (options : SendOptions) : string :=
  JSON_stringify
    (JObject [("id", JString rid);
              ("init", JObject [("method", JString "POST");
                                ("body", JString (bodyPayload options))]);
              ("type", type_of CF_AGENT_USE_CHAT_REQUEST)]).

(** [sendMessages(options)], from the point where [prepareBody] has
    returned; [rid] is the identifier [nanoid(8)] produced. The result is
    the stream; a throw is the rejection of the promise. *)
Definition sendMessages (rid : string) (options : SendOptions) : M nat :=
  activeIds_add rid ;;
  let* a := gets agent in
  let* sid :=
    new_stream (mkStream SendStream rid false fresh_controller false a
                         (opt_abortSignal options)) in
  addEventListener a sid ;;
  match opt_abortSignal options with
  | Some true => onAbort sid
  | _ => ret tt
  end ;;
  agent_send a (request_frame rid options) ;;
  ret sid.

(** [done(value)] of the call [cid] of [reconnectToStream]. *)
Definition done (cid : nat) (value : option nat) : M unit :=
  let* c := gets (fun w => calls w !! cid) in
  match c with
  | None => ret tt
  | Some c =>
      if resolved c then ret tt
      else
        update_call cid (fun c => mkCall true (timeout c) (settled c)) ;;
        modify (set_resumeResolver None) ;;
        update_call cid (fun c => mkCall (resolved c) None (settled c)) ;;
        update_call cid (fun c => mkCall (resolved c) (timeout c) (Some value))
  end.

(** [_createResumeStream(requestId)] *)
Definition _createResumeStream (rid : string) : M nat :=
  let* a := gets agent in
  let* sid :=
    new_stream (mkStream ResumeStream rid false fresh_controller false a None) in
  addEventListener a sid ;;
  ret sid.

Definition resume_ack_frame (rid : string) : string :=
  JSON_stringify
    (JObject [("type", type_of CF_AGENT_STREAM_RESUME_ACK);
              ("id", JString rid)]).

Definition resume_request_frame : string :=
  JSON_stringify (JObject [("type", type_of CF_AGENT_STREAM_RESUME_REQUEST)]).

(** The resolver that the call [cid] of [reconnectToStream] stores in
    [_resumeResolver]; [rid] is [data.id]. *)
Definition resumeResolver (cid : nat) (rid : string) : M unit :=
  activeIds_add rid ;;
  let* a := gets agent in
  agent_send a (resume_ack_frame rid) ;;
  let* sid := _createResumeStream rid in
  done cid (Some sid).

(** [handleStreamResuming(data)], [rid] being [data.id]. *)
Definition handleStreamResuming (rid : string) : M bool :=
  let* r := gets _resumeResolver in
  match r with
  | None => ret false
  | Some cid => resumeResolver cid rid ;; ret true
  end.

(** The delay [reconnectToStream] gives its timer, in milliseconds. *)
Definition RESUME_TIMEOUT : nat := 5000.

(** [reconnectToStream(_options)], up to the point where it returns its
    promise; the result names the call, whose [settled] field is what the
    promise has been resolved with. *)
Definition reconnectToStream : M nat :=
  let* cid := new_call (mkCall false None None) in
  modify (set_resumeResolver (Some cid)) ;;
  let* a := gets agent in
  try_catch (agent_send a resume_request_frame) (ret tt) ;;
  let* t := gets now in
  update_call cid
    (fun c => mkCall (resolved c) (Some (t + RESUME_TIMEOUT)) (settled c)) ;;
  ret cid.

(** *** Timers *)

(** Among the calls from index [i] on, the pending timer that is due first
    and not after [target]; of two due at the same time the one set
    first. *)
Fixpoint next_timer (target : nat) (i : nat) (cs : list ResumeCall)
    : option (nat * nat) :=
  match cs with
  | [] => None
  | c :: rest =>
      let later := next_timer target (S i) rest in
      match timeout c with
      | Some due =>
          if Nat.leb due target then
            match later with
            | Some (due', j) =>
                if Nat.leb due due' then Some (due, i) else Some (due', j)
            | None => Some (due, i)
            end
          else later
      | None => later
      end
  end.

(** The timer of call [cid] fires: [() => done(null)]. *)
Definition fire_timer (cid : nat) : M unit :=
  update_call cid (fun c => mkCall (resolved c) None (settled c)) ;;
  done cid None.

Fixpoint run_timers (fuel : nat) (target : nat) : M unit :=
  match fuel with
  | 0 => ret tt
  | S n =>
      let* next := gets (fun w => next_timer target 0 (calls w)) in
      match next with
      | None => ret tt
      | Some (due, cid) =>
          modify (fun w => set_now (Nat.max (now w) due) w) ;;
          fire_timer cid ;;
          run_timers n target
      end
  end.

(** Time passes by [dt] milliseconds: the timers due by then fire in
    order, and the clock ends [dt] later. No timer callback sets a timer,
    so one round per call is enough. *)
Definition advance (dt : nat) : M unit :=
  let* t := gets now in
  let* n := gets (fun w => length (calls w)) in
  run_timers n (t + dt) ;;
  modify (set_now (t + dt)).

(** *** What can happen to a transport *)

Inductive Event : Type :=
| EvSendMessages (rid : string) (options : SendOptions)
| EvReconnectToStream
| EvHandleStreamResuming (rid : string)
| EvMessage (a : nat) (text : string)
| EvAbortSignal (sid : nat)
| EvStreamCancel (sid : nat)
| EvStreamRead (sid : nat)
| EvAdvance (dt : nat)
| EvSetAgent (a : nat)
| EvNewAgent (e : option JsError)
| EvSendError (a : nat) (e : option JsError).

Definition set_send_error (e : option JsError) (ag : Agent) : Agent :=
  mkAgent (sent ag) e (listeners ag).

(** The world after a computation, whatever it returned or threw. *)
Definition exec {A : Type} (m : M A) (w : World) : World := snd (m w).

Definition result {A : Type} (m : M A) (w : World) : Outcome A := fst (m w).

(** One event. The host assigns [transport.agent] only connections that
    exist. *)
Definition step (w : World) (ev : Event) : World :=
  match ev with
  | EvSendMessages rid options => exec (sendMessages rid options) w
  | EvReconnectToStream => exec reconnectToStream w
  | EvHandleStreamResuming rid => exec (handleStreamResuming rid) w
  | EvMessage a text => exec (dispatch a text) w
  | EvAbortSignal sid => exec (abort_signal sid) w
  | EvStreamCancel sid => exec (stream_cancel sid) w
  | EvStreamRead sid => exec (stream_read sid) w
  | EvAdvance dt => exec (advance dt) w
  | EvSetAgent a => if bool_decide (a < length (agents w)) then set_agent a w else w
  | EvNewAgent e => set_agents (fun l => l ++ [mkAgent [] e []]) w
  | EvSendError a e => set_agents (alter (set_send_error e) a) w
  end.

Definition run (w : World) (evs : list Event) : World := fold_left step evs w.

(** [new WebSocketChatTransport({ agent, activeRequestIds })] on a first
    connection: nothing sent, no resolver pending. *)
Definition init (e : option JsError) (ids : option (gset string)) : World :=
  mkWorld [mkAgent [] e []] 0 ids None [] [] 0.

(** *** Frames as the server sends them, and well-formed worlds *)

(** Modelled from the spec: the RESPONSE_CHUNK frame (the type
    [OutgoingMessage] of [./types] is not among the sources), with its
    fields [id], [body], [done], and the optional [error] and [replay]. *)
Record ResponseChunk : Type := mkChunk {
  rc_id : string;
  rc_body : string;
  rc_done : bool;
  rc_error : option bool;
  rc_replay : option bool
}.

Definition optional_prop (k : string) (o : option bool)
    : list (string * JSON) :=
  match o with
  | Some b => [(k, JBool b)]
  | None => []
  end.

(** The value [JSON.parse] gives for the text of a RESPONSE_CHUNK frame. *)
Definition chunk_json (fr : ResponseChunk) : JSON :=
  JObject
    ([("type", type_of CF_AGENT_USE_CHAT_RESPONSE);
      ("id", JString (rc_id fr));
      ("body", JString (rc_body fr));
      ("done", JBool (rc_done fr))]
     ++ optional_prop "error" (rc_error fr)
     ++ optional_prop "replay" (rc_replay fr)).

Definition marked_error (fr : ResponseChunk) : bool :=
  match rc_error fr with
  | Some b => b
  | None => false
  end.

(** The chunk a frame carries: the value its body parses to, if the body
    is not blank and parses. *)
Definition carried (fr : ResponseChunk) : option JSON :=
  if String.eqb (trim (rc_body fr)) "" then None else JSON_parse (rc_body fr).

(** The stream after [finish(action)] has run its action. *)
Definition finished (s : Stream)
    (action : Controller -> Outcome unit * Controller) : Stream :=
  mkStream (kind s) (requestId s) true (snd (action (controller s))) true
           (bound_agent s) (abortSignal s).

Definition finish_stream (action : Controller -> Outcome unit * Controller)
    (s : Stream) : Stream :=
  if completed s then s else finished s action.

(** What a stream does with the chunk a frame carries, and with its
    [done] flag: the part of [onMessage] after the error check. *)
Definition deliver (sid : nat) (fr : ResponseChunk) : M unit :=
  match carried fr with
  | Some chunk => try_catch (on_controller sid (ctl_enqueue chunk)) (ret tt)
  | None => ret tt
  end ;;
  if rc_done fr then finish sid ctl_close else ret tt.

(** The same, as a function on the variables of the stream. *)
Definition deliver_stream (fr : ResponseChunk) (s : Stream) : Stream :=
  let s1 :=
    match carried fr with
    | Some chunk => set_controller (snd (ctl_enqueue chunk (controller s))) s
    | None => s
    end in
  if rc_done fr then finish_stream ctl_close s1 else s1.

Definition stream_error_of (fr : ResponseChunk) : JsError :=
  Error (if String.eqb (rc_body fr) "" then "Stream error" else rc_body fr).

(** The stream after its [onMessage] has seen the frame. *)
Definition receive (fr : ResponseChunk) (s : Stream) : Stream :=
  if String.eqb (rc_id fr) (requestId s) then
    if marked_error fr then finish_stream (ctl_error (stream_error_of fr)) s
    else deliver_stream fr s
  else s.

(** The stream [sid] after a message event whose listeners are [ls]: its
    listener runs once for each time it was added, unless its signal has
    been aborted by then. *)
Fixpoint receive_all (ls : list nat) (sid : nat) (fr : ResponseChunk)
    (s : Stream) : Stream :=
  match ls with
  | [] => s
  | x :: rest =>
      receive_all rest sid fr
        (if Nat.eqb x sid then
           if signal_aborted s then s else receive fr s
         else s)
  end.

(** The world after a [sendMessages] that sent its request, for a signal
    that was not aborted beforehand. *)
Definition sent_world (w : World) (rid : string) (options : SendOptions)
    (ag : Agent) : World :=
  mkWorld
    (<[agent w := mkAgent (sent ag ++ [request_frame rid options])
                          (send_error ag)
                          (listeners ag ++ [length (streams w)])]> (agents w))
    (agent w)
    ((fun ids => {[rid]} ∪ ids) <$> activeRequestIds w)
    (_resumeResolver w)
    (streams w ++ [mkStream SendStream rid false fresh_controller false
                            (agent w) (opt_abortSignal options)])
    (calls w) (now w).

(** [text] is a RESPONSE_CHUNK frame with the fields of [fr]: it parses to
    a value with that [type], [id] and [body], whose [done] and [error] are
    truthy or not as [fr] says, whatever the order of its properties and
    whatever else it holds. *)
Definition frame_text (text : string) (fr : ResponseChunk) : Prop :=
  exists data,
    JSON_parse text = Some data
    /\ get_prop data "type"
       = Normal (Some (JString (wire CF_AGENT_USE_CHAT_RESPONSE)))
    /\ get_prop data "id" = Normal (Some (JString (rc_id fr)))
    /\ get_prop data "body" = Normal (Some (JString (rc_body fr)))
    /\ (exists dn, get_prop data "done" = Normal dn
                   /\ truthy_prop dn = rc_done fr)
    /\ (exists err, get_prop data "error" = Normal err
                    /\ truthy_prop err = marked_error fr).

(** A text that is a RESPONSE_CHUNK frame addressed to request [rid] and
    not marked as an error. *)
Definition chunk_frame_for (rid : string) (tf : string * ResponseChunk)
    : Prop :=
  frame_text (fst tf) (snd tf)
  /\ rc_id (snd tf) = rid
  /\ marked_error (snd tf) = false.

(** The chunks a sequence of frames carries, in order. *)
Definition chunks_of (frames : list (string * ResponseChunk)) : list JSON :=
  omap (fun tf => carried (snd tf)) frames.

(** The message events that deliver the texts on connection [a]. *)
Definition inbound (a : nat) (frames : list (string * ResponseChunk))
    : list Event :=
  map (fun tf => EvMessage a (fst tf)) frames.

(** A stream of [sendMessages] that has seen only frames that did not end
    it: its queue holds [chunks], and the controller has been called once
    for each of them. *)
Definition streaming (rid : string) (a : nat) (sig : option bool)
    (chunks : list JSON) : Stream :=
  mkStream SendStream rid false
           (mkController Readable chunks false (map CallEnqueue chunks))
           false a sig.

(** A body that is empty, made of white space only, or not JSON. *)
Definition blank_body (fr : ResponseChunk) : Prop :=
  whitespace_only (list_ascii_of_string (rc_body fr))
  \/ JSON_parse (rc_body fr) = None.

(** The connections after [a.send(data)] inside a [try] whose [catch]
    ignores the throw. *)
Definition try_send (a : nat) (data : string) (ags : list Agent) : list Agent :=
  match ags !! a with
  | Some ag =>
      match send_error ag with
      | None => <[a := add_sent data ag]> ags
      | Some _ => ags
      end
  | None => ags
  end.

(** The world after [reconnectToStream]. *)
Definition reconnecting_world (w : World) : World :=
  mkWorld (try_send (agent w) resume_request_frame (agents w))
          (agent w) (activeRequestIds w)
          (Some (length (calls w)))
          (streams w)
          (calls w ++ [mkCall false (Some (now w + RESUME_TIMEOUT)) None])
          (now w).

(** The stream [_createResumeStream] creates on connection [a]. *)
Definition resumed_stream (rid : string) (a : nat) : Stream :=
  mkStream ResumeStream rid false fresh_controller false a None.

(** The world after the resolver of call [cid] has sent its
    acknowledgement on the current connection [ag] and resolved the
    call. *)
Definition resumed_world (w : World) (cid : nat) (rid : string) (ag : Agent)
    : World :=
  mkWorld
    (<[agent w := mkAgent (sent ag ++ [resume_ack_frame rid]) (send_error ag)
                          (listeners ag ++ [length (streams w)])]> (agents w))
    (agent w)
    ((fun ids => {[rid]} ∪ ids) <$> activeRequestIds w)
    None
    (streams w ++ [resumed_stream rid (agent w)])
    (<[cid := mkCall true None (Some (Some (length (streams w))))]> (calls w))
    (now w).

(** A call after its timer has fired: resolved with [null], unless it was
    resolved already. *)
Definition fired (c : ResumeCall) : ResumeCall :=
  mkCall true None (if resolved c then settled c else Some None).

(** The world after the timer of call [k], which is [c], has fired. *)
Definition fire_world (k : nat) (c : ResumeCall) (w : World) : World :=
  mkWorld (agents w) (agent w) (activeRequestIds w)
          (if resolved c then _resumeResolver w else None)
          (streams w) (<[k := fired c]> (calls w)) (now w).

(** The number of timers that have been set and have neither fired nor
    been cleared. *)
Definition pending_timers (cs : list ResumeCall) : nat :=
  length (List.filter (fun c => match timeout c with
                                | Some _ => true
                                | None => false
                                end) cs).

(** The two ways a stream of [sendMessages] is cancelled: the caller's
    [abortSignal] fires, or the consumer calls [stream.cancel()]. *)
Definition cancel_trigger (sid : nat) (ev : Event) : bool :=
  match ev with
  | EvAbortSignal sid' => Nat.eqb sid' sid
  | EvStreamCancel sid' => Nat.eqb sid' sid
  | _ => false
  end.

(** The resolver slot, if set, names a call that is not resolved yet. *)
Definition valid_resolver (w : World) : bool :=
  match _resumeResolver w with
  | None => true
  | Some cid =>
      match calls w !! cid with
      | Some c => negb (resolved c)
      | None => false
      end
  end.

(** Every listener is the closure of a stream that exists. *)
Definition valid_listeners (w : World) : bool :=
  forallb (fun ag => forallb (fun sid => Nat.ltb sid (length (streams w)))
                             (listeners ag))
          (agents w).

(** What holds of every world the transport can be in: its connection
    exists, and the two conditions above. *)
Definition well_formed (w : World) : bool :=
  Nat.ltb (agent w) (length (agents w))
  && valid_resolver w && valid_listeners w.

(** The time that passes during a sequence of events. *)
Definition elapsed (evs : list Event) : nat :=
  fold_right (fun ev acc => match ev with EvAdvance dt => dt + acc | _ => acc end)
             0 evs.

(** The events that are neither a resume call, nor a hand-off, nor the
    passing of time. *)
Definition sending_side (ev : Event) : bool :=
  match ev with
  | EvReconnectToStream | EvHandleStreamResuming _ | EvAdvance _ => false
  | _ => true
  end.

Definition is_handoff (ev : Event) : bool :=
  match ev with EvHandleStreamResuming _ => true | _ => false end.

Definition is_reconnect (ev : Event) : bool :=
  match ev with EvReconnectToStream => true | _ => false end.

(** An event other than a resume call or a hand-off. *)
Definition no_resume_event (ev : Event) : bool :=
  negb (is_handoff ev) && negb (is_reconnect ev).

(** The call [cid] of [reconnectToStream] awaits the hand-off, its timer
    due at [due]. *)
Definition awaiting (cid due : nat) (w : World) : Prop :=
  calls w !! cid = Some (mkCall false (Some due) None) /\ now w < due.

(** The promise of call [cid] has been resolved with [null], its timer
    having been due at [due]. *)
Definition resolved_null (cid due : nat) (w : World) : Prop :=
  calls w !! cid = Some (mkCall true None (Some None)) /\ due <= now w.

Definition no_handoff (ev : Event) : bool := negb (is_handoff ev).

Definition no_reconnect (ev : Event) : bool := negb (is_reconnect ev).

(** The call [cid] has timed out: its promise is resolved with [null], and
    the resolver slot is empty. *)
Definition timed_out (cid due : nat) (w : World) : Prop :=
  calls w !! cid = Some (mkCall true None (Some None))
  /\ _resumeResolver w = None /\ due <= now w.

End WithExternals.

(** *** Relations between the world before and after a computation *)

(** [m] takes every world to one related to it by [R], whether it returns
    or throws. *)
Definition preserves {A : Type} (R : World -> World -> Prop) (m : M A) : Prop :=
  forall w, R w (snd (m w)).

(** A computation that never throws. *)
Definition total {A : Type} (m : M A) : Prop :=
  forall w, exists a, fst (m w) = Normal a.

(** What the closures of stream [sid] leave alone: the resume calls, the
    resolver slot, the current connection, the clock, the other streams,
    the number of streams, and of every connection its listeners and its
    ability to send. *)
Record stream_op (sid : nat) (w w' : World) : Prop := {
  so_calls : calls w' = calls w;
  so_resolver : _resumeResolver w' = _resumeResolver w;
  so_agent : agent w' = agent w;
  so_now : now w' = now w;
  so_streams_length : length (streams w') = length (streams w);
  so_others : forall sid', sid' <> sid -> streams w' !! sid' = streams w !! sid';
  so_agents_length : length (agents w') = length (agents w);
  so_agents : forall a ag, agents w !! a = Some ag ->
      exists ag', agents w' !! a = Some ag'
                  /\ listeners ag' = listeners ag
                  /\ send_error ag' = send_error ag
}.

(** The same, with the connections untouched altogether. *)
Definition msg_op (sid : nat) (w w' : World) : Prop :=
  stream_op sid w w' /\ agents w' = agents w.

(** What the listeners of a message event leave alone. *)
Record inbound_op (w w' : World) : Prop := {
  io_agents : agents w' = agents w;
  io_calls : calls w' = calls w;
  io_resolver : _resumeResolver w' = _resumeResolver w;
  io_agent : agent w' = agent w;
  io_now : now w' = now w;
  io_streams_length : length (streams w') = length (streams w)
}.

(** What the timers leave alone, and what they do to the slot and the
    clock. *)
Record timer_op (target : nat) (w w' : World) : Prop := {
  to_agents : agents w' = agents w;
  to_agent : agent w' = agent w;
  to_ids : activeRequestIds w' = activeRequestIds w;
  to_streams : streams w' = streams w;
  to_calls_length : length (calls w') = length (calls w);
  to_resolver : _resumeResolver w' = _resumeResolver w \/ _resumeResolver w' = None;
  to_now : now w <= target -> now w <= now w' <= target
}.

(** What the closures and methods on the sending side leave alone. *)
Record control_op (w w' : World) : Prop := {
  co_calls : calls w' = calls w;
  co_resolver : _resumeResolver w' = _resumeResolver w;
  co_now : now w' = now w;
  co_agent : agent w' = agent w;
  co_agents_length : length (agents w') = length (agents w);
  co_listeners : valid_listeners w = true -> valid_listeners w' = true
}.

End Transport.

(** ** A mock connection and its codec, as in the transport's tests *)

Module Fixture.
Import JS Transport.
Local Open Scope string_scope.

Definition quote (s : string) : string :=
  String (ascii_of_nat 34) (s ++ String (ascii_of_nat 34) EmptyString).

Fixpoint join (sep : string) (l : list string) : string :=
  match l with
  | [] => ""
  | [x] => x
  | x :: rest => x ++ sep ++ join sep rest
  end.

(** A serializer for the values of the tests: strings hold no character
    that needs escaping, and the only number is zero. *)
Fixpoint stringify (v : JSON) : string :=
  match v with
  | JNull => "null"
  | JBool true => "true"
  | JBool false => "false"
  | JNumber _ => "0"
  | JString s => quote s
  | JArray l => "[" ++ join "," (map stringify l) ++ "]"
  | JObject l =>
      "{" ++ join "," (map (fun kv => match kv with
                                      | (k, x) => quote k ++ ":" ++ stringify x
                                      end) l) ++ "}"
  end.

(** The member names of [MessageType], in lower case (the tests dispatch
    [cf_agent_use_chat_response]). *)
Definition wire_name (t : MessageType) : string :=
  match t with
  | CF_AGENT_USE_CHAT_REQUEST => "cf_agent_use_chat_request"
  | CF_AGENT_USE_CHAT_RESPONSE => "cf_agent_use_chat_response"
  | CF_AGENT_CHAT_REQUEST_CANCEL => "cf_agent_chat_request_cancel"
  | CF_AGENT_STREAM_RESUME_REQUEST => "cf_agent_stream_resume_request"
  | CF_AGENT_STREAM_RESUMING => "cf_agent_stream_resuming"
  | CF_AGENT_STREAM_RESUME_ACK => "cf_agent_stream_resume_ack"
  end.

(** The chunks of the tests. *)
Definition text_start : JSON :=
  JObject [("type", JString "text-start"); ("id", JString "t1")].

Definition text_delta : JSON :=
  JObject [("type", JString "text-delta"); ("id", JString "t1");
           ("delta", JString "Hello")].

Definition response (rid body : string) (dn : bool) : JSON :=
  JObject [("type", JString (wire_name CF_AGENT_USE_CHAT_RESPONSE));
           ("id", JString rid); ("body", JString body); ("done", JBool dn)].

(** The values whose texts the mock connection delivers. *)
Definition known : list JSON :=
  [text_start; text_delta;
   response "req-done" (stringify text_start) false;
   response "req-done" (stringify text_delta) false;
   response "req-done" "" true;
   response "req-done" "   " false;
   response "req-done" "{not json" false].

(** A parser for the texts of the values above; every other text is
    rejected. *)
Definition parse (text : string) : option JSON :=
  List.find (fun v => String.eqb (stringify v) text) known.

Definition to_string (v : JSON) : string :=
  match v with
  | JString s => s
  | _ => stringify v
  end.

#[export] Instance mock : Externals := {|
  JSON_parse := parse;
  JSON_stringify := stringify;
  js_ToString := to_string;
  wire := wire_name
|}.

(** [{ done: false }], [{ done: true }] frames for request [req-done]. *)
Definition frame (body : string) (dn : bool) : string * ResponseChunk :=
  (stringify (response "req-done" body dn),
   mkChunk "req-done" body dn None None).

Definition submit : SendOptions :=
  mkSendOptions (JArray []) "submit-message" [] [] None.

Definition submit_with_signal : SendOptions :=
  mkSendOptions (JArray []) "submit-message" [] [] (Some false).

(** A transport on an open connection, and one on a closed connection,
    each with an empty set of active identifiers. *)
Definition fresh : World := init None (Some ∅).

Definition closed_error : JsError := Error "WebSocket closed".

Definition fresh_closed : World := init (Some closed_error) (Some ∅).

End Fixture.

(** ** The life of a stream and of a resume call *)

Module Lifecycle.
Import JS Transport.

(** The calls on a controller are in order when every [enqueue] comes
    before the one [close] or [error], if there is one, and a stream that
    has not finished has seen neither. *)
Fixpoint calls_in_order (ended : bool) (l : list CtlCall) : bool :=
  match l with
  | [] => true
  | CallEnqueue _ :: rest => calls_in_order ended rest
  | _ :: rest => ended && match rest with [] => true | _ => false end
  end.

(** The variables of a stream agree: the listener has been removed exactly
    when [completed] is set, the controller takes chunks exactly when it
    is not, and the calls on the controller are in order. *)
Definition stream_consistent (s : Stream) : bool :=
  Bool.eqb (signal_aborted s) (completed s)
  && Bool.eqb (canCloseOrEnqueue (controller s)) (negb (completed s))
  && calls_in_order (completed s) (ctl_calls (controller s)).

(** Every stream the transport has created is consistent. *)
Definition streams_consistent (w : World) : bool :=
  forallb stream_consistent (streams w).

(** A step that keeps the streams consistent, and one that leaves them
    alone. *)
Definition keeps_consistent (w w' : World) : Prop :=
  streams_consistent w = true -> streams_consistent w' = true.

Definition same_streams (w w' : World) : Prop := streams w' = streams w.

(** The variables of a call of [reconnectToStream] agree: its promise has
    a value exactly when [resolved] is set, and then no timer is pending. *)
Definition call_consistent (c : ResumeCall) : bool :=
  if resolved c then
    match timeout c, settled c with
    | None, Some _ => true
    | _, _ => false
    end
  else
    match settled c with
    | None => true
    | Some _ => false
    end.

Definition calls_consistent (w : World) : bool :=
  forallb call_consistent (calls w).

(** A step after which the calls are consistent if they were, and every
    call that was resolved is as it was. *)
Definition settles_once (w w' : World) : Prop :=
  calls_consistent w = true ->
  calls_consistent w' = true
  /\ forall cid c, calls w !! cid = Some c -> resolved c = true ->
       calls w' !! cid = Some c.

(** What the [cancel()] of the underlying source hands to [finish]:
    [() => streamController.error(abortError)] in [sendMessages],
    [() => {}] in [_createResumeStream]. *)
Definition cancel_action (k : StreamKind)
    : Controller -> Outcome unit * Controller :=
  match k with
  | SendStream => ctl_error abortError
  | ResumeStream => fun c => (Normal tt, c)
  end.

(** The stream after the consumer's [stream.cancel()]. *)
Definition cancelled (s : Stream) : Stream :=
  match ctl_state (controller s) with
  | Readable =>
      finish_stream (cancel_action (kind s))
        (set_controller
           (mkController Closed [] (ctl_closeRequested (controller s))
                         (ctl_calls (controller s))) s)
  | _ => s
  end.

(** The stream after the caller's [abortSignal] has fired. *)
Definition signalled (s : Stream) : Stream :=
  match abortSignal s with
  | Some false =>
      finish_stream (ctl_error abortError) (set_abortSignal (Some true) s)
  | _ => s
  end.

(** A stream of either kind that has seen only frames that did not end
    it, its queue holding [chunks]. *)
Definition receiving (k : StreamKind) (rid : string) (a : nat)
    (sig : option bool) (chunks : list JSON) : Stream :=
  mkStream k rid false
           (mkController Readable chunks false (map CallEnqueue chunks))
           false a sig.

(** A stream that an error frame or an abort has ended after [chunks] had
    been enqueued. *)
Definition errored (k : StreamKind) (rid : string) (a : nat)
    (sig : option bool) (chunks : list JSON) (e : JsError) : Stream :=
  mkStream k rid true
           (mkController (Errored e) [] false
                         (map CallEnqueue chunks ++ [CallError e]))
           true a sig.

(** A stream that [done] has ended after [chunks] had been enqueued. *)
Definition closing (k : StreamKind) (rid : string) (a : nat)
    (sig : option bool) (chunks : list JSON) : Stream :=
  mkStream k rid true
           (mkController (match chunks with [] => Closed | _ => Readable end)
                         chunks true (map CallEnqueue chunks ++ [CallClose]))
           true a sig.

(** Whether the identifier is in the set of active request identifiers
    the transport shares with its host; never, when the host gave no
    set. *)
Definition tracked (rid : string) (w : World) : bool :=
  match activeRequestIds w with
  | Some ids => bool_decide (rid ∈ ids)
  | None => false
  end.

(** A step that marks no identifier active. *)
Definition untracks (w w' : World) : Prop :=
  forall rid, tracked rid w = false -> tracked rid w' = false.

(** The object [sendMessages] serializes as the body of its request:
    [{ messages, trigger, ...extraBody }], where [extraBody] is what
    [prepareBody] returned, overlaid with [options.body]. *)
Definition payload (options : SendOptions) : list (string * JSON) :=
  spread [("messages", opt_messages options);
          ("trigger", JString (opt_trigger options))]
         (spread (opt_prepared options) (opt_body options)).

(** The property names of an object, in order. *)
Definition keys (o : list (string * JSON)) : list string := map fst o.

(** The caller's [abortSignal] fires. *)
Definition is_abort (ev : Event) : bool :=
  match ev with
  | EvAbortSignal _ => true
  | _ => false
  end.

(** The message events with the given texts on the given connections. *)
Definition messages (l : list (nat * string)) : list Event :=
  map (fun at_ => EvMessage (fst at_) (snd at_)) l.

Section WithExternals.
Context `{Externals}.

(** Whether [text] parses to a value whose [type] is that of a
    RESPONSE_CHUNK frame: the first test of [onMessage]. *)
Definition is_response (text : string) : bool :=
  match JSON_parse text with
  | Some data =>
      match get_prop data "type" with
      | Normal ty => is_string ty (wire CF_AGENT_USE_CHAT_RESPONSE)
      | Throw _ => false
      end
  | None => false
  end.

End WithExternals.

(** Whether a [body] is one [data.body?.trim()] can be evaluated on: a
    string, or [null]. *)
Definition textual (v : JSON) : bool :=
  match v with
  | JString _ | JNull => true
  | _ => false
  end.

End Lifecycle.

(** ** More messages for the mock connection *)

Module Scenario.
Import JS Transport.

Definition error_response (rid body : string) : JSON :=
  JObject [("type", JString (Fixture.wire_name CF_AGENT_USE_CHAT_RESPONSE));
           ("id", JString rid); ("body", JString body);
           ("done", JBool false); ("error", JBool true)].

(** A replayed chunk, as the server sends it after the acknowledgement. *)
Definition replayed (rid body : string) (dn : bool) : JSON :=
  JObject [("type", JString (Fixture.wire_name CF_AGENT_USE_CHAT_RESPONSE));
           ("id", JString rid); ("body", JString body);
           ("done", JBool dn); ("replay", JBool true)].

(** The notification of the server that a stream can be resumed. *)
Definition resuming (rid : string) : JSON :=
  JObject [("type", JString (Fixture.wire_name CF_AGENT_STREAM_RESUMING));
           ("id", JString rid)].

(** A frame whose body is a number. *)
Definition numeric_body (rid : string) : JSON :=
  JObject [("type", JString (Fixture.wire_name CF_AGENT_USE_CHAT_RESPONSE));
           ("id", JString rid); ("body", JNumber 0); ("done", JBool true)].

Definition known_messages : list JSON :=
  Fixture.known
  ++ [error_response "req-done" "boom";
      error_response "req-done" "";
      Fixture.response "req-other" (Fixture.stringify Fixture.text_start) false;
      Fixture.response "req-other" "" true;
      replayed "req-resume" (Fixture.stringify Fixture.text_start) false;
      replayed "req-resume" (Fixture.stringify Fixture.text_delta) true;
      resuming "req-resume";
      numeric_body "req-done"].

Definition parse_message (text : string) : option JSON :=
  List.find (fun v => String.eqb (Fixture.stringify v) text) known_messages.

(** The codec of the mock connection with these messages. *)
Definition codec : Externals := {|
  JSON_parse := parse_message;
  JSON_stringify := Fixture.stringify;
  js_ToString := Fixture.to_string;
  wire := Fixture.wire_name
|}.

(** The texts of the frames above, with the fields the transport reads. *)
Definition chunk_frame (rid body : string) (dn : bool)
    : string * ResponseChunk :=
  (Fixture.stringify (Fixture.response rid body dn),
   mkChunk rid body dn None None).

Definition error_frame (rid body : string) : string * ResponseChunk :=
  (Fixture.stringify (error_response rid body),
   mkChunk rid body false (Some true) None).

Definition replay_frame (rid body : string) (dn : bool)
    : string * ResponseChunk :=
  (Fixture.stringify (replayed rid body dn),
   mkChunk rid body dn None (Some true)).

(** The body of a request with a [prepareBody] and an [options.body] that
    share a property. *)
Definition submit_with_body : SendOptions :=
  mkSendOptions (JArray []) "submit-message"
                [("model", JString "gpt-4"); ("temperature", JNumber 0)]
                [("model", JString "other"); ("trigger", JString "custom")]
                None.

Definition submit_aborted : SendOptions :=
  mkSendOptions (JArray []) "submit-message" [] [] (Some true).

End Scenario.

(* ===================================================================== *)
(** * Part II: lemmas and theorems                                        *)
(* ===================================================================== *)

(** ** White space and [trim] *)

Module JSFacts.
Import JS.

Lemma trimStart_bytes_codepoint (w s : list ascii) :
  ws_codepoint w = true -> trimStart_bytes (w ++ s) = trimStart_bytes s.
Proof.
  destruct w as [|c1 [|c2 [|c3 [|c4 w]]]]; simpl; try discriminate.
  - intros ->. reflexivity.
  - intros H2. destruct (ws1 c1) eqn:H1.
    + exfalso. unfold ws2, ws1, byte_is in *.
      apply andb_prop in H2 as [Ha%Nat.eqb_eq _]. rewrite Ha in H1.
      discriminate.
    + rewrite H2. reflexivity.
  - intros H3. destruct (ws1 c1) eqn:H1.
    + exfalso. unfold ws3, ws1, byte_is in *.
      destruct (nat_of_ascii c1 =? 225)%nat eqn:E1;
        [apply Nat.eqb_eq in E1; rewrite E1 in H1; discriminate|].
      destruct (nat_of_ascii c1 =? 226)%nat eqn:E2;
        [apply Nat.eqb_eq in E2; rewrite E2 in H1; discriminate|].
      destruct (nat_of_ascii c1 =? 227)%nat eqn:E3;
        [apply Nat.eqb_eq in E3; rewrite E3 in H1; discriminate|].
      destruct (nat_of_ascii c1 =? 239)%nat eqn:E4;
        [apply Nat.eqb_eq in E4; rewrite E4 in H1; discriminate|].
      simpl in H3. discriminate.
    + destruct (ws2 c1 c2) eqn:H2.
      * exfalso. unfold ws3, ws2, byte_is in *.
        apply andb_prop in H2 as [Ha%Nat.eqb_eq _]. rewrite Ha in H3.
        simpl in H3. discriminate.
      * rewrite H3. reflexivity.
Qed.

Lemma trimStart_bytes_whitespace (s : list ascii) :
  whitespace_only s -> trimStart_bytes s = [].
Proof.
  induction 1 as [|w s Hw _ IH]; [reflexivity|].
  rewrite trimStart_bytes_codepoint by assumption. exact IH.
Qed.

(** A text of white space only trims to the empty text. *)
Lemma trim_whitespace_only (s : string) :
  whitespace_only (list_ascii_of_string s) -> trim s = "".
Proof.
  intros Hs. unfold trim. rewrite trimStart_bytes_whitespace by assumption.
  reflexivity.
Qed.

Lemma trim_empty : trim "" = "".
Proof. reflexivity. Qed.

End JSFacts.

(** ** Reconciliation *)

Module ReconcileFacts.
Import Reconcile.



Lemma mem_id_In i ids : mem_id i ids = true <-> In i ids.
Proof.
  unfold mem_id. rewrite existsb_exists. split.
  - intros (x & Hx & He). apply String.eqb_eq in He. subst. exact Hx.
  - intros Hi. exists i. split; [exact Hi | apply String.eqb_refl].
Qed.

Lemma subset_ids_incl a b : subset_ids a b = true <-> incl a b.
Proof.
  unfold subset_ids, incl. rewrite forallb_forall.
  split; intros Hs x Hx; apply mem_id_In; apply Hs; exact Hx.
Qed.

Lemma upsert_ids rows m i :
  In i (map msg_id (upsert rows m)) <-> In i (map msg_id rows) \/ i = msg_id m.
Proof.
  induction rows as [|r rest IH]; simpl.
  - intuition.
  - destruct (String.eqb (msg_id r) (msg_id m)) eqn:E; simpl.
    + apply String.eqb_eq in E. rewrite E. intuition.
    + rewrite IH. intuition.
Qed.

Lemma fold_upsert_ids fin : forall rows i,
  In i (map msg_id (fold_left upsert fin rows))
  <-> In i (map msg_id rows) \/ In i (map msg_id fin).
Proof.
  induction fin as [|m fin IH]; intros rows i; simpl.
  - intuition.
  - rewrite IH, upsert_ids. intuition.
Qed.

Lemma toDelete_In server client i :
  In i (toDelete (reconcile server client))
  <-> In i (serverIds server) /\ ~ In i (finalIds (reconcile server client)).
Proof.
  unfold reconcile, finalIds. simpl. rewrite filter_In, negb_true_iff.
  rewrite <- not_true_iff_false, mem_id_In. reflexivity.
Qed.

(** The rows left after persisting: those of the server and of the final
    list, minus the deleted ones. *)
Lemma persistMessages_ids server client i :
  In i (map msg_id (persistMessages server client))
  <-> (In i (serverIds server) \/ In i (finalIds (reconcile server client)))
      /\ ~ In i (deleted server (reconcile server client)).
Proof.
  unfold persistMessages, apply.
  set (r := reconcile server client). set (d := deleted server r).
  rewrite in_map_iff. split.
  - intros (m & <- & Hm). apply filter_In in Hm as [Hm Hd].
    apply negb_true_iff in Hd. rewrite <- not_true_iff_false, mem_id_In in Hd.
    split; [|exact Hd]. apply fold_upsert_ids. apply in_map. exact Hm.
  - intros [Hi Hd]. apply fold_upsert_ids in Hi. apply in_map_iff in Hi.
    destruct Hi as (m & <- & Hm). exists m. split; [reflexivity|].
    apply filter_In. split; [exact Hm|]. apply negb_true_iff.
    rewrite <- not_true_iff_false, mem_id_In. exact Hd.
Qed.

(** A stored row disappears exactly when the final identifiers are a
    subset of the server's and its own identifier is not among them. *)
Lemma server_row_deleted_iff server client i :
  In i (serverIds server) ->
  (~ In i (map msg_id (persistMessages server client))
   <-> incl (finalIds (reconcile server client)) (serverIds server)
       /\ ~ In i (finalIds (reconcile server client))).
Proof.
  intros Hs. rewrite persistMessages_ids. unfold deleted.
  destruct (subset_ids _ _) eqn:E.
  - apply subset_ids_incl in E. rewrite toDelete_In. split.
    + intros Hn. split; [exact E|]. intros Hf. apply Hn. split; [auto|].
      intros [_ Hd]. exact (Hd Hf).
    + intros [_ Hf] [_ Hd]. apply Hd. split; assumption.
  - split.
    + intros Hn. exfalso. apply Hn. split; [auto | intros []].
    + intros [Hi _]. apply subset_ids_incl in Hi. congruence.
Qed.


(** C2. Persisting deletes [serverIds - finalIds] if and only if the final
    identifiers are a subset of the server's: a stored row disappears
    exactly when that holds and its identifier is not a final one. With
    three stored messages, a client that sends the first two has the third
    deleted; a client that sends those two and one brand-new identifier has
    nothing deleted, although the third identifier is absent from what it
    sent. *)
Theorem deletion_gated_by_subset :
  (forall server client,
     deleted server (reconcile server client)
     = if subset_ids (finalIds (reconcile server client)) (serverIds server)
       then toDelete (reconcile server client) else [])
  /\ (forall server client i,
        In i (toDelete (reconcile server client))
        <-> In i (serverIds server)
            /\ ~ In i (finalIds (reconcile server client)))
  /\ (forall server client i,
        In i (serverIds server) ->
        (~ In i (map msg_id (persistMessages server client))
         <-> incl (finalIds (reconcile server client)) (serverIds server)
             /\ ~ In i (finalIds (reconcile server client))))
  /\ (let server := [U1; S1; U2] in
      let client := [U1; S1] in
      deleted server (reconcile server client) = ["u2"]
      /\ persistMessages server client = [U1; S1])
  /\ (let server := [U1; S1; U2] in
      let client := [U1; S1; mkMessage "u3" user "Brand new"] in
      subset_ids (finalIds (reconcile server client)) (serverIds server) = false
      /\ toDelete (reconcile server client) = ["u2"]
      /\ deleted server (reconcile server client) = []
      /\ persistMessages server client
         = [U1; S1; U2; mkMessage "u3" user "Brand new"]).
Proof.
  split; [|split; [|split; [|split]]].
  - reflexivity.
  - exact toDelete_In.
  - exact server_row_deleted_iff.
  - vm_compute. split; reflexivity.
  - vm_compute. repeat split.
Qed.

End ReconcileFacts.

(** ** The transport *)

Module TransportFacts.
Import JS Transport.
Local Open Scope js_scope.

(** *** The controller *)

Lemma consumer_view_closing (q : list JSON) (log : list CtlCall) :
  consumer_view
    (mkController (match q with [] => Closed | _ => Readable end) q true log)
  = map Value q ++ [Done].
Proof.
  unfold consumer_view. simpl ctl_queue.
  destruct q as [|c q]; [reflexivity|].
  revert c. induction q as [|c' q IH]; intros c; [reflexivity|].
  specialize (IH c'). simpl in *. f_equal. exact IH.
Qed.

Lemma consumer_view_errored (e : JsError) (b : bool) (log : list CtlCall) :
  consumer_view (mkController (Errored e) [] b log) = [Rejected e].
Proof. reflexivity. Qed.

Lemma consumer_view_closed (b : bool) (log : list CtlCall) :
  consumer_view (mkController Closed [] b log) = [Done].
Proof. reflexivity. Qed.

(** *** Lists updated in place *)

Lemma alter_insert {A : Type} (f : A -> A) (l : list A) (i : nat) (x : A) :
  l !! i = Some x -> alter f i l = <[i := f x]> l.
Proof.
  revert i. induction l as [|y l IH]; intros [|i] Hi; simpl in *;
    try discriminate.
  - injection Hi as ->. reflexivity.
  - f_equal. apply IH. exact Hi.
Qed.

Lemma alter_none {A : Type} (f : A -> A) (l : list A) (i : nat) :
  l !! i = None -> alter f i l = l.
Proof.
  revert i. induction l as [|y l IH]; intros [|i] Hi; simpl in *;
    try discriminate; try reflexivity.
  f_equal. apply IH. exact Hi.
Qed.

Lemma insert_snoc {A : Type} (l : list A) (x y : A) :
  <[length l := y]> (l ++ [x]) = l ++ [y].
Proof. induction l as [|z l IH]; simpl; [reflexivity | f_equal; exact IH]. Qed.

Lemma lookup_snoc {A : Type} (l : list A) (x : A) :
  (l ++ [x]) !! length l = Some x.
Proof. induction l as [|z l IH]; simpl; [reflexivity | exact IH]. Qed.

(** *** What a computation leaves as it is *)

Section Preserves.
Context (R : World -> World -> Prop).
Hypothesis R_refl : forall w, R w w.
Hypothesis R_trans : forall w1 w2 w3, R w1 w2 -> R w2 w3 -> R w1 w3.

Lemma preserves_ret {A : Type} (a : A) : preserves R (ret a).
Proof. intros w. apply R_refl. Qed.

Lemma preserves_throw {A : Type} (e : JsError) : preserves R (@throw A e).
Proof. intros w. apply R_refl. Qed.

Lemma preserves_gets {A : Type} (f : World -> A) : preserves R (gets f).
Proof. intros w. apply R_refl. Qed.

Lemma preserves_lift {A : Type} (o : Outcome A) : preserves R (lift o).
Proof. intros w. apply R_refl. Qed.

Lemma preserves_bind {A B : Type} (m : M A) (f : A -> M B) :
  preserves R m -> (forall a, preserves R (f a)) -> preserves R (bind m f).
Proof.
  intros Hm Hf w. unfold bind. specialize (Hm w).
  destruct (m w) as [[a|e] w']; simpl in *; [|exact Hm].
  eapply R_trans; [exact Hm | apply Hf].
Qed.

Lemma preserves_try_catch {A : Type} (m h : M A) :
  preserves R m -> preserves R h -> preserves R (try_catch m h).
Proof.
  intros Hm Hh w. unfold try_catch. specialize (Hm w).
  destruct (m w) as [[a|e] w']; simpl in *; [exact Hm|].
  eapply R_trans; [exact Hm | apply Hh].
Qed.

End Preserves.

Lemma total_ret {A : Type} (a : A) : total (ret a).
Proof. intros w. exists a. reflexivity. Qed.

Lemma total_bind {A B : Type} (m : M A) (f : A -> M B) :
  total m -> (forall a, total (f a)) -> total (bind m f).
Proof.
  intros Hm Hf w. unfold bind. destruct (Hm w) as [a Ha].
  destruct (m w) as [[a'|e] w']; simpl in Ha; [|discriminate].
  apply Hf.
Qed.

Lemma total_try_catch {A : Type} (m h : M A) : total h -> total (try_catch m h).
Proof.
  intros Hh w. unfold try_catch.
  destruct (m w) as [[a|e] w']; [exists a; reflexivity | apply Hh].
Qed.

Lemma total_unit (m : M unit) (w : World) :
  total m -> m w = (Normal tt, snd (m w)).
Proof.
  intros Hm. destruct (Hm w) as [[] Ha].
  destruct (m w) as [o w']; simpl in *. subst. reflexivity.
Qed.

Lemma stream_op_refl sid w : stream_op sid w w.
Proof. split; eauto. Qed.

Lemma stream_op_trans sid w1 w2 w3 :
  stream_op sid w1 w2 -> stream_op sid w2 w3 -> stream_op sid w1 w3.
Proof.
  intros [] []. split; try congruence.
  - intros sid' Hs. rewrite so_others1, so_others0; auto.
  - intros a ag Ha. destruct (so_agents0 a ag Ha) as (ag' & Ha' & Hl & He).
    destruct (so_agents1 a ag' Ha') as (ag'' & Ha'' & Hl' & He').
    exists ag''. repeat split; congruence.
Qed.

Lemma msg_op_refl sid w : msg_op sid w w.
Proof. split; [apply stream_op_refl | reflexivity]. Qed.

Lemma msg_op_trans sid w1 w2 w3 :
  msg_op sid w1 w2 -> msg_op sid w2 w3 -> msg_op sid w1 w3.
Proof.
  intros [H1 E1] [H2 E2]. split; [eapply stream_op_trans; eauto | congruence].
Qed.

Lemma msg_op_update_stream sid f : preserves (msg_op sid) (update_stream sid f).
Proof.
  intros w. split; [|reflexivity]. split; simpl; eauto.
  - apply length_alter.
  - intros sid' Hs. apply list_lookup_alter_ne. congruence.
Qed.

Lemma msg_op_on_controller sid action :
  preserves (msg_op sid) (on_controller sid action).
Proof.
  intros w. unfold on_controller.
  destruct (streams w !! sid) as [s|]; [|apply msg_op_refl].
  split; [|reflexivity]. split; simpl; eauto.
  - apply length_alter.
  - intros sid' Hs. apply list_lookup_alter_ne. congruence.
Qed.

Lemma msg_op_activeIds_delete sid rid :
  preserves (msg_op sid) (activeIds_delete rid).
Proof. intros w. split; [|reflexivity]. split; simpl; eauto. Qed.

Lemma msg_op_finish sid action : preserves (msg_op sid) (finish sid action).
Proof.
  unfold finish.
  apply preserves_bind;
    [apply msg_op_trans | apply preserves_gets, msg_op_refl |].
  intros [s|]; [|apply preserves_ret, msg_op_refl].
  destruct (completed s); [apply preserves_ret, msg_op_refl|].
  repeat (apply preserves_bind; [apply msg_op_trans | | intros _]).
  - apply msg_op_update_stream.
  - apply preserves_try_catch;
      [apply msg_op_trans | apply msg_op_on_controller
      | apply preserves_ret, msg_op_refl].
  - apply msg_op_activeIds_delete.
  - apply msg_op_update_stream.
Qed.

Lemma finish_total sid action : total (finish sid action).
Proof.
  unfold finish. apply total_bind; [intros w; eexists; reflexivity|].
  intros [s|]; [|apply total_ret].
  destruct (completed s); [apply total_ret|].
  apply total_bind; [intros w; eexists; reflexivity|]. intros _.
  apply total_bind; [apply total_try_catch, total_ret|]. intros _.
  apply total_bind; intros; eexists; reflexivity.
Qed.

(** Read the fields of a world that is given by its updates. *)
Tactic Notation "wsimpl" :=
  cbn [agents agent activeRequestIds _resumeResolver streams calls now
       set_agents set_agent set_activeRequestIds set_resumeResolver
       set_streams set_calls set_now ret fst snd].
Tactic Notation "wsimpl" "in" hyp(H) :=
  cbn [agents agent activeRequestIds _resumeResolver streams calls now
       set_agents set_agent set_activeRequestIds set_resumeResolver
       set_streams set_calls set_now ret fst snd] in H.

(** Write a world that is given by its updates field by field. *)
Ltac wexpand :=
  unfold ret, set_agents, set_agent, set_activeRequestIds,
    set_resumeResolver, set_streams, set_calls, set_now;
  cbn [agents agent activeRequestIds _resumeResolver streams calls now
       fst snd].

Lemma try_catch_total {A : Type} (m h : M A) (w : World) :
  total m -> try_catch m h w = m w.
Proof.
  intros Hm. unfold try_catch. destruct (Hm w) as [a Ha].
  destruct (m w) as [[a'|e] w']; simpl in Ha; [reflexivity | discriminate].
Qed.

Lemma on_controller_total sid action :
  (forall c, fst (action c) = Normal tt) -> total (on_controller sid action).
Proof.
  intros Ha w. exists tt. unfold on_controller.
  destruct (streams w !! sid); simpl; auto.
Qed.

(** [finish] with nothing left to do. *)
Lemma finish_completed sid action w s :
  streams w !! sid = Some s -> completed s = true ->
  finish sid action w = (Normal tt, w).
Proof.
  intros Hs Hc. unfold finish, bind, gets. rewrite Hs, Hc. reflexivity.
Qed.

Lemma finish_active sid action w s :
  streams w !! sid = Some s -> completed s = false ->
  finish sid action w
  = (Normal tt,
     mkWorld (agents w) (agent w)
             ((fun ids => ids ∖ {[requestId s]}) <$> activeRequestIds w)
             (_resumeResolver w)
             (<[sid := finished s action]> (streams w))
             (calls w) (now w)).
Proof.
  intros Hs Hc. unfold finish, bind, gets. rewrite Hs, Hc.
  unfold update_stream, modify, try_catch, on_controller, activeIds_delete.
  cbn [streams set_streams].
  rewrite list_lookup_alter_eq, Hs. cbn [fmap option_fmap option_map].
  change (controller (set_completed true s)) with (controller s).
  assert (Hfin : alter (set_signal_aborted true) sid
            (alter (set_controller (snd (action (controller s)))) sid
               (alter (set_completed true) sid (streams w)))
          = <[sid := finished s action]> (streams w)).
  { rewrite !list_alter_alter_eq. erewrite alter_insert by exact Hs.
    reflexivity. }
  destruct (fst (action (controller s))) as [[]|e];
    unfold ret, set_streams, set_activeRequestIds; cbn;
    rewrite Hfin; reflexivity.
Qed.

Section FactsWithExternals.
Context `{Externals}.

Lemma onAbort_completed sid w s :
  streams w !! sid = Some s -> completed s = true ->
  onAbort sid w = (Normal tt, w).
Proof.
  intros Hs Hc. unfold onAbort, bind, gets. rewrite Hs, Hc. reflexivity.
Qed.

Lemma onAbort_total sid : total (onAbort sid).
Proof.
  unfold onAbort. apply total_bind; [intros w; eexists; reflexivity|].
  intros [s|]; [|apply total_ret].
  destruct (completed s); [apply total_ret|].
  apply total_bind; [apply total_try_catch, total_ret|]. intros _.
  apply finish_total.
Qed.

(** The value the server's serializer produces for a frame is such a
    text. *)
Lemma chunk_json_frame_text text fr :
  JSON_parse text = Some (chunk_json fr) -> frame_text text fr.
Proof.
  intros Hp. exists (chunk_json fr). split; [exact Hp|].
  split; [reflexivity|]. split; [reflexivity|]. split; [reflexivity|].
  split.
  - exists (Some (JBool (rc_done fr))). split; reflexivity.
  - exists (JBool <$> rc_error fr). unfold marked_error.
    destruct fr as [i b d [e|] [r|]]; split; reflexivity.
Qed.

Lemma deliver_total sid fr : total (deliver sid fr).
Proof.
  unfold deliver. apply total_bind.
  - destruct (carried fr); [apply total_try_catch|]; apply total_ret.
  - intros _. destruct (rc_done fr); [apply finish_total | apply total_ret].
Qed.

(** [onMessage] on the text of a RESPONSE_CHUNK frame: a frame for another
    request is ignored, an error frame errors the stream through [finish],
    any other frame is delivered. *)
Lemma onMessage_frame sid text fr w s :
  streams w !! sid = Some s ->
  frame_text text fr ->
  onMessage sid text w
  = (if String.eqb (rc_id fr) (requestId s) then
       if marked_error fr then
         finish sid (ctl_error (stream_error_of fr))
       else deliver sid fr
     else ret tt) w.
Proof.
  intros Hs (data & Hp & Hty & Hidp & Hbody & (dn & Hdn & Htd)
             & (err & Herr & Hte)).
  assert (Hcatch : forall m r : M unit, total r -> m w = r w ->
            try_catch m (ret tt) w = r w).
  { intros m r Hr Hm. unfold try_catch. rewrite Hm.
    destruct (Hr w) as [[] Ha]. destruct (r w) as [[[]|e] w']; simpl in Ha;
      [reflexivity | discriminate]. }
  unfold onMessage, bind at 1, gets. rewrite Hs, Hp.
  destruct (String.eqb (rc_id fr) (requestId s)) eqn:Eid.
  - destruct (marked_error fr) eqn:Eerr.
    + apply Hcatch; [apply finish_total|].
      unfold bind, lift. rewrite Hty, Hidp, Herr, Hbody.
      cbn [is_string]. rewrite String.eqb_refl, Eid, Hte. cbn [negb].
      cbn [truthy error_message]. unfold stream_error_of.
      destruct (String.eqb (rc_body fr) ""); reflexivity.
    + apply Hcatch; [apply deliver_total|].
      unfold bind at 1 2 3 4, lift. rewrite Hty, Hidp, Herr.
      cbn [is_string]. rewrite String.eqb_refl, Eid, Hte. cbn [negb].
      unfold bind at 1. rewrite Hbody.
      unfold bind at 1. cbn [body_trim].
      unfold deliver, carried, bind at 1 3.
      destruct (String.eqb (trim (rc_body fr)) "") eqn:Et; cbn [negb].
      * unfold ret at 1 3. unfold bind at 1. rewrite Hdn, Htd. reflexivity.
      * unfold parse_and_enqueue.
        destruct (JSON_parse (rc_body fr)) as [chunk|]; unfold try_catch.
        -- destruct (on_controller sid (ctl_enqueue chunk) w) as [[[]|e] w'];
             unfold ret at 1; unfold bind at 1; rewrite Hdn, Htd;
             reflexivity.
        -- unfold throw, ret at 1. unfold bind at 1. rewrite Hdn, Htd.
           reflexivity.
  - apply Hcatch; [apply total_ret|].
    unfold bind, lift. rewrite Hty, Hidp.
    cbn [is_string]. rewrite String.eqb_refl, Eid. reflexivity.
Qed.

Ltac msg_op_steps :=
  repeat first
    [ apply (preserves_ret _ (msg_op_refl _))
    | apply (preserves_throw _ (msg_op_refl _))
    | apply (preserves_gets _ (msg_op_refl _))
    | apply (preserves_lift _ (msg_op_refl _))
    | apply msg_op_finish
    | apply msg_op_on_controller
    | apply msg_op_update_stream
    | apply msg_op_activeIds_delete
    | apply (preserves_bind _ (msg_op_trans _)); [|intros ?]
    | apply (preserves_try_catch _ (msg_op_trans _))
    | match goal with
      | |- preserves _ (match ?x with _ => _ end) => destruct x
      end ].

Lemma msg_op_onMessage sid text : preserves (msg_op sid) (onMessage sid text).
Proof. unfold onMessage, parse_and_enqueue. msg_op_steps. Qed.

Lemma onMessage_total sid text : total (onMessage sid text).
Proof.
  unfold onMessage. apply total_bind; [intros w; eexists; reflexivity|].
  intros [s|]; [apply total_try_catch|]; apply total_ret.
Qed.

(** [finish] and [deliver], seen from the stream they act on. *)
Lemma finish_stream_at sid action w s :
  streams w !! sid = Some s ->
  streams (exec (finish sid action) w) !! sid = Some (finish_stream action s).
Proof.
  intros Hs. unfold exec, finish_stream. destruct (completed s) eqn:Hc.
  - rewrite (finish_completed _ _ _ _ Hs Hc). exact Hs.
  - rewrite (finish_active _ _ _ _ Hs Hc). cbn [snd streams].
    apply list_lookup_insert_eq. apply lookup_lt_Some in Hs. exact Hs.
Qed.

Lemma deliver_stream_at sid fr w s :
  streams w !! sid = Some s ->
  streams (exec (deliver sid fr) w) !! sid = Some (deliver_stream fr s).
Proof.
  intros Hs. unfold exec, deliver, deliver_stream, bind.
  assert (Hfin : forall w1 s1, streams w1 !! sid = Some s1 ->
            streams (snd ((if rc_done fr then finish sid ctl_close else ret tt) w1))
              !! sid
            = Some (if rc_done fr then finish_stream ctl_close s1 else s1)).
  { intros w1 s1 Hs1. destruct (rc_done fr); [|exact Hs1].
    apply finish_stream_at. exact Hs1. }
  destruct (carried fr) as [chunk|].
  - unfold try_catch, on_controller. rewrite Hs.
    set (r := ctl_enqueue chunk (controller s)).
    assert (Hs1 : streams (set_streams (alter (set_controller (snd r)) sid) w)
                    !! sid = Some (set_controller (snd r) s)).
    { cbn [streams set_streams]. rewrite list_lookup_alter_eq, Hs. reflexivity. }
    destruct (fst r) as [[]|e]; cbn [ret]; apply Hfin; exact Hs1.
  - cbn [ret]. apply Hfin. exact Hs.
Qed.

(** [onMessage] on a frame, seen from the stream. *)
Lemma onMessage_stream_at sid text fr w s :
  streams w !! sid = Some s ->
  frame_text text fr ->
  streams (exec (onMessage sid text) w) !! sid = Some (receive fr s).
Proof.
  intros Hs Hp. unfold exec. rewrite (onMessage_frame _ _ _ _ _ Hs Hp).
  unfold receive. destruct (String.eqb (rc_id fr) (requestId s)); [|exact Hs].
  destruct (marked_error fr).
  - apply finish_stream_at. exact Hs.
  - apply deliver_stream_at. exact Hs.
Qed.

Lemma exec_bind {A B : Type} (m : M A) (f : A -> M B) (w : World) (a : A) :
  fst (m w) = Normal a -> exec (bind m f) w = exec (f a) (exec m w).
Proof.
  unfold exec, bind. destruct (m w) as [[a'|e] w']; simpl; [|discriminate].
  intros [= ->]. reflexivity.
Qed.

Lemma exec_seq (m k : M unit) (w : World) :
  total m -> exec (m ;; k) w = exec k (exec m w).
Proof.
  intros Hm. destruct (Hm w) as [[] Ha].
  apply (exec_bind m (fun _ => k) w tt Ha).
Qed.

Lemma listener_run_total sid text : total (listener_run sid text).
Proof.
  unfold listener_run. apply total_bind; [intros w; eexists; reflexivity|].
  intros [s|]; [destruct (signal_aborted s)|];
    auto using total_ret, onMessage_total.
Qed.

Lemma msg_op_listener_run sid text :
  preserves (msg_op sid) (listener_run sid text).
Proof.
  unfold listener_run.
  apply (preserves_bind _ (msg_op_trans _));
    [apply (preserves_gets _ (msg_op_refl _))|].
  intros [s|]; [destruct (signal_aborted s)|];
    first [apply msg_op_onMessage | apply (preserves_ret _ (msg_op_refl _))].
Qed.

Lemma run_listeners_cons x rest text w :
  exec (run_listeners (x :: rest) text) w
  = exec (run_listeners rest text) (exec (listener_run x text) w).
Proof.
  change (run_listeners (x :: rest) text)
    with (listener_run x text ;; run_listeners rest text).
  apply exec_seq, listener_run_total.
Qed.

Lemma run_listeners_total ls text : total (run_listeners ls text).
Proof.
  induction ls as [|x rest IH]; [apply total_ret|].
  change (run_listeners (x :: rest) text)
    with (listener_run x text ;; run_listeners rest text).
  apply total_bind; [apply listener_run_total | intros _; exact IH].
Qed.

Lemma msg_op_inbound sid w w' : msg_op sid w w' -> inbound_op w w'.
Proof. intros [[] Ha]. split; assumption. Qed.

Lemma inbound_op_refl w : inbound_op w w.
Proof. split; reflexivity. Qed.

Lemma inbound_op_trans w1 w2 w3 :
  inbound_op w1 w2 -> inbound_op w2 w3 -> inbound_op w1 w3.
Proof. intros [] []. split; congruence. Qed.

Lemma inbound_op_run_listeners ls text :
  preserves inbound_op (run_listeners ls text).
Proof.
  induction ls as [|x rest IH]; intros w; [apply inbound_op_refl|].
  change (snd (run_listeners (x :: rest) text w))
    with (exec (run_listeners (x :: rest) text) w).
  rewrite run_listeners_cons.
  eapply inbound_op_trans; [|apply IH].
  eapply msg_op_inbound. apply msg_op_listener_run.
Qed.

Lemma inbound_op_dispatch a text : preserves inbound_op (dispatch a text).
Proof.
  unfold dispatch.
  apply (preserves_bind _ inbound_op_trans);
    [apply (preserves_gets _ inbound_op_refl)|].
  intros [ag|]; [apply inbound_op_run_listeners
                | apply (preserves_ret _ inbound_op_refl)].
Qed.

Lemma dispatch_total a text : total (dispatch a text).
Proof.
  unfold dispatch. apply total_bind; [intros w; eexists; reflexivity|].
  intros [ag|]; [apply run_listeners_total | apply total_ret].
Qed.

(** A listener other than that of stream [sid] leaves stream [sid] as it
    is. *)
Lemma listener_run_other x sid text w :
  x <> sid ->
  streams (exec (listener_run x text) w) !! sid = streams w !! sid.
Proof.
  intros Hx. destruct (msg_op_listener_run x text w) as [Hop _].
  apply (so_others _ _ _ Hop). congruence.
Qed.

(** A stream whose signal has been aborted no longer hears anything. *)
Lemma run_listeners_aborted ls sid text : forall w s,
  streams w !! sid = Some s -> signal_aborted s = true ->
  streams (exec (run_listeners ls text) w) !! sid = Some s.
Proof.
  induction ls as [|x rest IH]; intros w s Hs Ha; [exact Hs|].
  rewrite run_listeners_cons. apply IH; [|exact Ha].
  destruct (Nat.eq_dec x sid) as [->|Hx].
  - unfold exec, listener_run, bind, gets. rewrite Hs, Ha. exact Hs.
  - rewrite listener_run_other by exact Hx. exact Hs.
Qed.

(** The listeners of a message event that carries a frame, seen from
    stream [sid]. *)
Lemma run_listeners_frame_at ls sid text fr :
  frame_text text fr ->
  forall w s, streams w !! sid = Some s ->
  streams (exec (run_listeners ls text) w) !! sid
  = Some (receive_all ls sid fr s).
Proof.
  intros Hp. induction ls as [|x rest IH]; intros w s Hs; [exact Hs|].
  rewrite run_listeners_cons. cbn [receive_all]. apply IH.
  destruct (Nat.eqb_spec x sid) as [->|Hx].
  - unfold exec, listener_run, bind, gets. rewrite Hs.
    destruct (signal_aborted s); [exact Hs|].
    apply onMessage_stream_at; assumption.
  - rewrite listener_run_other by exact Hx. exact Hs.
Qed.

Lemma receive_all_absent ls sid fr s :
  sid ∉ ls -> receive_all ls sid fr s = s.
Proof.
  induction ls as [|x rest IH]; intros Hn; [reflexivity|].
  cbn [receive_all]. apply not_elem_of_cons in Hn as [Hx Hn].
  destruct (Nat.eqb_spec x sid); [congruence|]. apply IH. exact Hn.
Qed.

Lemma receive_all_once l1 l2 sid fr s :
  sid ∉ l1 -> sid ∉ l2 -> signal_aborted s = false ->
  receive_all (l1 ++ sid :: l2) sid fr s = receive fr s.
Proof.
  intros H1 H2 Ha. induction l1 as [|x rest IH].
  - cbn [app receive_all]. rewrite Nat.eqb_refl, Ha.
    apply receive_all_absent. exact H2.
  - apply not_elem_of_cons in H1 as [Hx H1]. cbn [app receive_all].
    destruct (Nat.eqb_spec x sid); [congruence|]. apply IH. exact H1.
Qed.

(** *** The closures that may send *)

Lemma msg_op_stream_op {A : Type} sid (m : M A) :
  preserves (msg_op sid) m -> preserves (stream_op sid) m.
Proof. intros Hm w. apply Hm. Qed.

Lemma stream_op_agent_send sid a data : preserves (stream_op sid) (agent_send a data).
Proof.
  intros w. unfold agent_send.
  destruct (agents w !! a) as [ag|] eqn:Ha; [|apply stream_op_refl].
  destruct (send_error ag) eqn:He; [apply stream_op_refl|].
  split; wsimpl; eauto.
  - apply length_alter.
  - intros a' ag' Ha'. destruct (Nat.eq_dec a a') as [<-|Hne].
    + rewrite list_lookup_alter_eq, Ha'. eexists. split; [reflexivity|].
      split; reflexivity.
    + rewrite list_lookup_alter_ne by exact Hne. eauto.
Qed.

Ltac stream_op_steps :=
  repeat first
    [ apply (preserves_ret _ (stream_op_refl _))
    | apply (preserves_throw _ (stream_op_refl _))
    | apply (preserves_gets _ (stream_op_refl _))
    | apply (preserves_lift _ (stream_op_refl _))
    | apply msg_op_stream_op, msg_op_finish
    | apply msg_op_stream_op, msg_op_on_controller
    | apply msg_op_stream_op, msg_op_update_stream
    | apply stream_op_agent_send
    | apply (preserves_bind _ (stream_op_trans _)); [|intros ?]
    | apply (preserves_try_catch _ (stream_op_trans _))
    | match goal with
      | |- preserves _ (match ?x with _ => _ end) => destruct x
      end ].

Lemma stream_op_onAbort sid : preserves (stream_op sid) (onAbort sid).
Proof. unfold onAbort. stream_op_steps. Qed.

Lemma stream_op_source_cancel sid k :
  preserves (stream_op sid) (source_cancel sid k).
Proof.
  destruct k; cbn [source_cancel];
    [apply stream_op_onAbort | apply msg_op_stream_op, msg_op_finish].
Qed.

Lemma stream_op_stream_cancel sid : preserves (stream_op sid) (stream_cancel sid).
Proof.
  unfold stream_cancel. stream_op_steps; apply stream_op_source_cancel.
Qed.

Lemma stream_op_abort_signal sid : preserves (stream_op sid) (abort_signal sid).
Proof. unfold abort_signal. stream_op_steps; apply stream_op_onAbort. Qed.

Lemma stream_op_stream_read sid : preserves (stream_op sid) (stream_read sid).
Proof.
  intros w. unfold stream_read.
  destruct (streams w !! sid) as [s|]; [|apply stream_op_refl].
  split; wsimpl; eauto.
  - apply length_alter.
  - intros sid' Hs. apply list_lookup_alter_ne. congruence.
Qed.

(** *** [sendMessages] *)

Lemma sendMessages_ok w rid options ag :
  agents w !! agent w = Some ag -> send_error ag = None ->
  opt_abortSignal options <> Some true ->
  sendMessages rid options w
  = (Normal (length (streams w)), sent_world w rid options ag).
Proof.
  intros Ha He Hsig. unfold sendMessages, bind, activeIds_add, modify, gets,
    new_stream, addEventListener, agent_send.
  wsimpl. rewrite lookup_snoc. cbn [signal_aborted].
  assert (Hret : (match opt_abortSignal options with
                  | Some true => onAbort (length (streams w))
                  | _ => ret tt
                  end) = ret tt).
  { destruct (opt_abortSignal options) as [[]|]; congruence. }
  rewrite Hret. wsimpl.
  rewrite list_lookup_alter_eq, Ha.
  cbn [fmap option_fmap option_map add_listener send_error].
  rewrite He. unfold sent_world. wexpand.
  rewrite list_alter_alter_eq. erewrite alter_insert by exact Ha. reflexivity.
Qed.

(** A [sendMessages] that returned its stream did send its request. *)
Lemma sendMessages_returned w rid options sid w1 :
  opt_abortSignal options <> Some true ->
  sendMessages rid options w = (Normal sid, w1) ->
  exists ag, agents w !! agent w = Some ag /\ send_error ag = None
             /\ sid = length (streams w)
             /\ w1 = sent_world w rid options ag.
Proof.
  intros Hsig Hrun.
  assert (Hret : (match opt_abortSignal options with
                  | Some true => onAbort (length (streams w))
                  | _ => ret tt
                  end) = ret tt).
  { destruct (opt_abortSignal options) as [[]|]; congruence. }
  destruct (agents w !! agent w) as [ag|] eqn:Ha.
  - destruct (send_error ag) as [e|] eqn:He.
    + exfalso. revert Hrun. unfold sendMessages, bind, activeIds_add, modify,
        gets, new_stream, addEventListener, agent_send.
      wsimpl. rewrite lookup_snoc. cbn [signal_aborted]. rewrite Hret. wsimpl.
      rewrite list_lookup_alter_eq, Ha.
      cbn [fmap option_fmap option_map add_listener send_error].
      rewrite He. discriminate.
    + rewrite (sendMessages_ok _ _ _ _ Ha He Hsig) in Hrun.
      injection Hrun as <- <-. eauto.
  - exfalso. revert Hrun. unfold sendMessages, bind, activeIds_add, modify,
      gets, new_stream, addEventListener, agent_send.
    wsimpl. rewrite lookup_snoc. cbn [signal_aborted]. rewrite Hret. wsimpl.
    rewrite list_lookup_alter_eq, Ha. discriminate.
Qed.

(** *** Frames arriving at a stream *)

Lemma dispatch_frame_at a text fr w ag l1 l2 sid s :
  agents w !! a = Some ag -> listeners ag = l1 ++ sid :: l2 ->
  sid ∉ l1 -> sid ∉ l2 ->
  streams w !! sid = Some s -> signal_aborted s = false ->
  frame_text text fr ->
  streams (exec (dispatch a text) w) !! sid = Some (receive fr s).
Proof.
  intros Ha Hl H1 H2 Hs Hab Hp. unfold exec, dispatch, bind, gets.
  rewrite Ha. change (snd ?x) with (exec (run_listeners (listeners ag) text) w).
  rewrite (run_listeners_frame_at _ sid _ _ Hp _ _ Hs), Hl.
  rewrite receive_all_once by assumption. reflexivity.
Qed.

Lemma dispatch_aborted a text w sid s :
  streams w !! sid = Some s -> signal_aborted s = true ->
  streams (exec (dispatch a text) w) !! sid = Some s.
Proof.
  intros Hs Hab. unfold exec, dispatch, bind, gets.
  destruct (agents w !! a) as [ag|]; [|exact Hs].
  apply (run_listeners_aborted _ _ _ _ _ Hs Hab).
Qed.

Lemma run_messages_aborted (extra : list (nat * string)) sid s : forall w,
  streams w !! sid = Some s -> signal_aborted s = true ->
  streams (run w (map (fun at_ => EvMessage (fst at_) (snd at_)) extra)) !! sid
  = Some s.
Proof.
  induction extra as [|[a t] extra IH]; intros w Hs Hab; [exact Hs|].
  cbn [map run fold_left step fst snd]. apply IH; [|exact Hab].
  apply dispatch_aborted; assumption.
Qed.

Lemma receive_streaming rid a sig chunks fr :
  rc_id fr = rid -> marked_error fr = false -> rc_done fr = false ->
  receive fr (streaming rid a sig chunks)
  = streaming rid a sig (chunks ++ match carried fr with
                                   | Some chunk => [chunk]
                                   | None => []
                                   end).
Proof.
  intros Hid He Hd. unfold receive, deliver_stream.
  cbn [requestId streaming]. rewrite Hid, String.eqb_refl, He, Hd.
  destruct (carried fr) as [chunk|]; [|rewrite app_nil_r; reflexivity].
  unfold streaming, set_controller, ctl_enqueue. cbn. rewrite map_app.
  reflexivity.
Qed.

Lemma receive_streaming_done rid a sig chunks fr :
  rc_id fr = rid -> marked_error fr = false -> rc_done fr = true ->
  let all := chunks ++ match carried fr with
                       | Some chunk => [chunk]
                       | None => []
                       end in
  receive fr (streaming rid a sig chunks)
  = mkStream SendStream rid true
      (mkController (match all with [] => Closed | _ => Readable end) all true
                    (map CallEnqueue all ++ [CallClose]))
      true a sig.
Proof.
  intros Hid He Hd. unfold receive, deliver_stream.
  cbn [requestId streaming]. rewrite Hid, String.eqb_refl, He, Hd.
  destruct (carried fr) as [chunk|]; cbn zeta.
  - unfold finish_stream, finished, streaming, set_controller, ctl_enqueue,
      ctl_close. cbn. rewrite map_app. reflexivity.
  - rewrite app_nil_r. reflexivity.
Qed.

Lemma chunks_of_snoc frames tf :
  chunks_of (frames ++ [tf])
  = chunks_of frames ++ match carried (snd tf) with
                        | Some chunk => [chunk]
                        | None => []
                        end.
Proof.
  unfold chunks_of. rewrite omap_app. cbn [omap list_omap].
  destruct (carried (snd tf)); reflexivity.
Qed.

(** Frames that do not end the stream pile their chunks up in order. *)
Lemma run_inbound_streaming rid a sig ag l1 l2 sid
    (frames : list (string * ResponseChunk)) :
  listeners ag = l1 ++ sid :: l2 -> sid ∉ l1 -> sid ∉ l2 ->
  Forall (fun tf => chunk_frame_for rid tf /\ rc_done (snd tf) = false) frames ->
  forall w chunks,
    agents w !! a = Some ag ->
    streams w !! sid = Some (streaming rid a sig chunks) ->
    let w' := run w (inbound a frames) in
    agents w' = agents w
    /\ streams w' !! sid
       = Some (streaming rid a sig (chunks ++ chunks_of frames)).
Proof.
  intros Hl H1 H2 Hfs. induction Hfs as [|tf frames [(Hp & Hid & He) Hd] _ IH];
    intros w chunks Ha Hs; cbn zeta.
  - cbn. rewrite app_nil_r. auto.
  - cbn [inbound map run fold_left step].
    set (w1 := exec (dispatch a (fst tf)) w).
    assert (Hag : agents w1 = agents w)
      by apply (io_agents _ _ (inbound_op_dispatch a (fst tf) w)).
    assert (Hs1 : streams w1 !! sid
                  = Some (receive (snd tf) (streaming rid a sig chunks))).
    { eapply dispatch_frame_at; eauto. }
    rewrite receive_streaming in Hs1 by assumption.
    specialize (IH w1 _ ltac:(rewrite Hag; exact Ha) Hs1). cbn zeta in IH.
    destruct IH as [IHa IHs]. unfold run, inbound in IHa, IHs.
    split; [congruence|]. rewrite IHs. f_equal. f_equal.
    rewrite <- app_assoc. f_equal. unfold chunks_of. cbn [omap list_omap].
    destruct (carried (snd tf)); reflexivity.
Qed.

Lemma well_formed_agent w :
  well_formed w = true -> agent w < length (agents w).
Proof.
  unfold well_formed. intros Hw.
  apply andb_prop in Hw as [Hw _]. apply andb_prop in Hw as [Hw _].
  apply Nat.ltb_lt. exact Hw.
Qed.

Lemma well_formed_listeners w a ag sid :
  well_formed w = true -> agents w !! a = Some ag -> sid ∈ listeners ag ->
  sid < length (streams w).
Proof.
  unfold well_formed, valid_listeners. intros Hw Ha Hs.
  apply andb_prop in Hw as [_ Hw].
  rewrite forallb_forall in Hw.
  apply list_elem_of_lookup_2, list_elem_of_In in Ha. specialize (Hw _ Ha).
  rewrite forallb_forall in Hw. apply list_elem_of_In in Hs.
  apply Nat.ltb_lt. exact (Hw _ Hs).
Qed.

Lemma run_app w evs1 evs2 : run w (evs1 ++ evs2) = run (run w evs1) evs2.
Proof. apply fold_left_app. Qed.

(** C3. When [sendMessages] has returned a stream, and frames addressed
    to its request identifier arrive, none of them marked as an error and
    the last one, and only the last, with [done] set, then the consumer
    reads exactly the chunks these frames carry, in the order of arrival,
    and then the end of the stream; the controller was closed by exactly
    one call, and whatever arrives later on any connection changes
    nothing. *)
Theorem sendMessages_stream_delivers_in_order
    (w w1 : World) (rid : string) (options : SendOptions) (sid : nat)
    (frames : list (string * ResponseChunk)) (last : string * ResponseChunk)
    (extra : list (nat * string)) :
  well_formed w = true ->
  opt_abortSignal options <> Some true ->
  sendMessages rid options w = (Normal sid, w1) ->
  Forall (fun tf => chunk_frame_for rid tf /\ rc_done (snd tf) = false) frames ->
  chunk_frame_for rid last -> rc_done (snd last) = true ->
  let w2 := run w1 (inbound (agent w) (frames ++ [last])
                    ++ map (fun at_ => EvMessage (fst at_) (snd at_)) extra) in
  exists s,
    streams w2 !! sid = Some s
    /\ completed s = true
    /\ consumer_view (controller s)
       = map Value (chunks_of (frames ++ [last])) ++ [Done]
    /\ ctl_calls (controller s)
       = map CallEnqueue (chunks_of (frames ++ [last])) ++ [CallClose].
Proof.
  intros Hwf Hsig Hsend Hframes (Hp & Hid & He) Hd w2.
  destruct (sendMessages_returned _ _ _ _ _ Hsig Hsend)
    as (ag & Ha & Hse & -> & ->).
  set (sid := length (streams w)) in *.
  set (ag1 := mkAgent (sent ag ++ [request_frame rid options]) (send_error ag)
                      (listeners ag ++ [sid])).
  assert (Hfresh : sid ∉ listeners ag).
  { intros Hin. apply (well_formed_listeners _ _ _ _ Hwf Ha) in Hin.
    unfold sid in Hin. lia. }
  assert (Ha1 : agents (sent_world w rid options ag) !! agent w = Some ag1).
  { cbn [sent_world agents]. apply list_lookup_insert_eq.
    apply lookup_lt_Some in Ha. exact Ha. }
  assert (Hs1 : streams (sent_world w rid options ag) !! sid
                = Some (streaming rid (agent w) (opt_abortSignal options) [])).
  { cbn [sent_world streams]. apply lookup_snoc. }
  destruct (run_inbound_streaming rid (agent w) (opt_abortSignal options) ag1
              (listeners ag) [] sid frames eq_refl Hfresh
              ltac:(apply not_elem_of_nil) Hframes _ _ Ha1 Hs1)
    as [Hag Hst].
  cbn [app] in Hst.
  set (wk := run (sent_world w rid options ag) (inbound (agent w) frames)) in *.
  assert (Hlast : streams (exec (dispatch (agent w) (fst last)) wk) !! sid
                  = Some (receive (snd last)
                            (streaming rid (agent w) (opt_abortSignal options)
                                       (chunks_of frames)))).
  { eapply (dispatch_frame_at _ _ _ _ ag1 (listeners ag) []); eauto.
    - rewrite Hag. exact Ha1.
    - apply not_elem_of_nil. }
  rewrite (receive_streaming_done _ _ _ _ _ Hid He Hd) in Hlast.
  cbn zeta in Hlast. rewrite <- chunks_of_snoc in Hlast.
  eexists. split; [|split; [|split]].
  - unfold w2. unfold inbound. rewrite map_app, !run_app.
    apply run_messages_aborted; [exact Hlast | reflexivity].
  - reflexivity.
  - cbn [controller]. apply consumer_view_closing.
  - reflexivity.
Qed.

(** *** Frames without a chunk *)

Lemma carried_blank fr : blank_body fr -> carried fr = None.
Proof.
  unfold carried. intros [Hws|Hp].
  - rewrite (JSFacts.trim_whitespace_only _ Hws). reflexivity.
  - rewrite Hp. destruct (String.eqb _ _); reflexivity.
Qed.

Lemma onMessage_blank sid text fr w :
  frame_text text fr ->
  marked_error fr = false -> rc_done fr = false -> carried fr = None ->
  onMessage sid text w = (Normal tt, w).
Proof.
  intros Hp He Hd Hc. destruct (streams w !! sid) as [s|] eqn:Hs.
  - rewrite (onMessage_frame _ _ _ _ _ Hs Hp), He.
    destruct (String.eqb _ _); [|reflexivity].
    unfold deliver. rewrite Hc, Hd. reflexivity.
  - unfold onMessage, bind, gets. rewrite Hs. reflexivity.
Qed.

Lemma run_listeners_blank ls text fr w :
  frame_text text fr ->
  marked_error fr = false -> rc_done fr = false -> carried fr = None ->
  run_listeners ls text w = (Normal tt, w).
Proof.
  intros Hp He Hd Hc. induction ls as [|x rest IH]; [reflexivity|].
  cbn [run_listeners]. unfold bind at 1.
  assert (Hx : listener_run x text w = (Normal tt, w)).
  { unfold listener_run, bind, gets.
    destruct (streams w !! x) as [s|]; [|reflexivity].
    destruct (signal_aborted s); [reflexivity|].
    apply (onMessage_blank _ _ _ _ Hp He Hd Hc). }
  rewrite Hx. exact IH.
Qed.

Lemma dispatch_blank a text fr w :
  frame_text text fr ->
  marked_error fr = false -> rc_done fr = false -> carried fr = None ->
  dispatch a text w = (Normal tt, w).
Proof.
  intros Hp He Hd Hc. unfold dispatch, bind, gets.
  destruct (agents w !! a) as [ag|]; [|reflexivity].
  apply (run_listeners_blank _ _ _ _ Hp He Hd Hc).
Qed.

(** C10. A RESPONSE_CHUNK frame that is not marked as an error and whose
    body is empty, white space only, or not JSON carries no chunk. If it
    is not marked [done] either, every listener ignores it: the world
    after the message event is the world before it, so nothing was
    enqueued, no stream was closed or errored, and the events that follow
    run as if the frame had not come. If it is marked [done], a stream
    with its request identifier that has not finished is closed by
    [finish], with its queue as it was and the close as the only call on
    its controller. Streams of [sendMessages] and resumed streams have
    the same listener. *)
Theorem blank_chunk_is_skipped (text : string) (fr : ResponseChunk) :
  frame_text text fr ->
  marked_error fr = false ->
  blank_body fr ->
  carried fr = None
  /\ (rc_done fr = false ->
      forall w,
        (forall sid, onMessage sid text w = (Normal tt, w))
        /\ (forall a, dispatch a text w = (Normal tt, w))
        /\ (forall a evs, run w (EvMessage a text :: evs) = run w evs))
  /\ (rc_done fr = true ->
      forall w sid s,
        streams w !! sid = Some s -> requestId s = rc_id fr ->
        completed s = false ->
        onMessage sid text w
        = (Normal tt,
           mkWorld (agents w) (agent w)
                   ((fun ids => ids ∖ {[requestId s]}) <$> activeRequestIds w)
                   (_resumeResolver w)
                   (<[sid := finished s ctl_close]> (streams w))
                   (calls w) (now w))
        /\ ctl_queue (controller (finished s ctl_close))
           = ctl_queue (controller s)
        /\ ctl_calls (controller (finished s ctl_close))
           = ctl_calls (controller s) ++ [CallClose]
        /\ (controller s = fresh_controller ->
            consumer_view (controller (finished s ctl_close)) = [Done])).
Proof.
  intros Hp He Hb. pose proof (carried_blank _ Hb) as Hc.
  split; [exact Hc|]. split.
  - intros Hd w. split; [|split].
    + intros sid. apply (onMessage_blank _ _ _ _ Hp He Hd Hc).
    + intros a. apply (dispatch_blank _ _ _ _ Hp He Hd Hc).
    + intros a evs. cbn [run fold_left step]. unfold exec.
      rewrite (dispatch_blank _ _ _ _ Hp He Hd Hc). reflexivity.
  - intros Hd w sid s Hs Hid Hcomp. split; [|split; [|split]].
    + rewrite (onMessage_frame _ _ _ _ _ Hs Hp), He, <- Hid, String.eqb_refl.
      unfold deliver. rewrite Hc, Hd. unfold bind, ret.
      apply finish_active; assumption.
    + unfold finished, ctl_close. cbn [controller snd].
      destruct (canCloseOrEnqueue (controller s)); reflexivity.
    + unfold finished, ctl_close. cbn [controller snd].
      destruct (canCloseOrEnqueue (controller s)); reflexivity.
    + intros Hfresh. unfold finished. cbn [controller]. rewrite Hfresh.
      reflexivity.
Qed.

(** *** Resuming *)

Lemma done_resolved cid value w c :
  calls w !! cid = Some c -> resolved c = true ->
  done cid value w = (Normal tt, w).
Proof.
  intros Hc Hr. unfold done, bind, gets. rewrite Hc, Hr. reflexivity.
Qed.

Lemma done_pending cid value w c :
  calls w !! cid = Some c -> resolved c = false ->
  done cid value w
  = (Normal tt,
     mkWorld (agents w) (agent w) (activeRequestIds w) None (streams w)
             (<[cid := mkCall true None (Some value)]> (calls w)) (now w)).
Proof.
  intros Hc Hr. unfold done, bind, gets. rewrite Hc, Hr.
  unfold update_call, modify. wexpand.
  rewrite !list_alter_alter_eq. erewrite alter_insert by exact Hc.
  reflexivity.
Qed.

Lemma done_total cid value : total (done cid value).
Proof.
  intros w. exists tt. unfold done, bind, gets.
  destruct (calls w !! cid) as [c|]; [|reflexivity].
  destruct (resolved c); reflexivity.
Qed.

Lemma try_send_eq a data w :
  try_catch (agent_send a data) (ret tt) w
  = (Normal tt, set_agents (fun _ => try_send a data (agents w)) w).
Proof.
  unfold try_catch, agent_send, try_send.
  destruct (agents w !! a) as [ag|] eqn:Ha.
  - destruct (send_error ag); [destruct w; reflexivity|].
    unfold set_agents. erewrite alter_insert by exact Ha. reflexivity.
  - destruct w; reflexivity.
Qed.

Lemma try_send_length a data ags : length (try_send a data ags) = length ags.
Proof.
  unfold try_send. destruct (ags !! a) as [ag|]; [|reflexivity].
  destruct (send_error ag); [reflexivity | apply length_insert].
Qed.

Lemma reconnectToStream_eq w :
  reconnectToStream w = (Normal (length (calls w)), reconnecting_world w).
Proof.
  unfold reconnectToStream, bind, new_call, modify, gets. wsimpl.
  rewrite try_send_eq. unfold update_call, modify, reconnecting_world.
  wexpand. f_equal. f_equal.
  rewrite alter_app_r_alt by lia. rewrite Nat.sub_diag. reflexivity.
Qed.

Lemma resumeResolver_ok cid rid w ag c :
  agents w !! agent w = Some ag -> send_error ag = None ->
  calls w !! cid = Some c -> resolved c = false ->
  resumeResolver cid rid w = (Normal tt, resumed_world w cid rid ag).
Proof.
  intros Ha He Hc Hr.
  unfold resumeResolver, bind, activeIds_add, modify, gets, agent_send.
  wsimpl. rewrite Ha, He.
  unfold _createResumeStream, bind, gets, new_stream, addEventListener.
  wsimpl. rewrite lookup_snoc. cbn [signal_aborted].
  unfold ret at 1. cbv beta iota.
  erewrite done_pending; [|wsimpl; exact Hc | exact Hr].
  unfold resumed_world, resumed_stream. wexpand.
  rewrite list_alter_alter_eq. erewrite alter_insert by exact Ha. reflexivity.
Qed.

(** When the current connection cannot send, the resolver throws what
    [send] throws, after it has marked the identifier active and before it
    creates a stream or resolves the call. *)
Lemma resumeResolver_send_fails cid rid w ag e :
  agents w !! agent w = Some ag -> send_error ag = Some e ->
  resumeResolver cid rid w
  = (Throw e, set_activeRequestIds (fun ids => {[rid]} ∪ ids) w).
Proof.
  intros Ha He.
  unfold resumeResolver, bind, activeIds_add, modify, gets, agent_send.
  wsimpl. rewrite Ha, He. reflexivity.
Qed.

Lemma handleStreamResuming_idle rid w :
  _resumeResolver w = None -> handleStreamResuming rid w = (Normal false, w).
Proof.
  intros Hr. unfold handleStreamResuming, bind, gets. rewrite Hr. reflexivity.
Qed.

Lemma handleStreamResuming_ok cid rid w ag c :
  _resumeResolver w = Some cid ->
  agents w !! agent w = Some ag -> send_error ag = None ->
  calls w !! cid = Some c -> resolved c = false ->
  handleStreamResuming rid w = (Normal true, resumed_world w cid rid ag).
Proof.
  intros Hr Ha He Hc Hres. unfold handleStreamResuming, bind at 1, gets.
  rewrite Hr. unfold bind.
  rewrite (resumeResolver_ok _ _ _ _ _ Ha He Hc Hres). reflexivity.
Qed.

Lemma handleStreamResuming_send_fails cid rid w ag e :
  _resumeResolver w = Some cid ->
  agents w !! agent w = Some ag -> send_error ag = Some e ->
  handleStreamResuming rid w
  = (Throw e, set_activeRequestIds (fun ids => {[rid]} ∪ ids) w).
Proof.
  intros Hr Ha He. unfold handleStreamResuming, bind at 1, gets.
  rewrite Hr. unfold bind.
  rewrite (resumeResolver_send_fails _ _ _ _ _ Ha He). reflexivity.
Qed.

Lemma well_formed_resolver w cid :
  well_formed w = true -> _resumeResolver w = Some cid ->
  exists c, calls w !! cid = Some c /\ resolved c = false.
Proof.
  unfold well_formed, valid_resolver. intros Hw Hr.
  apply andb_prop in Hw as [Hw _]. apply andb_prop in Hw as [_ Hw].
  rewrite Hr in Hw. destruct (calls w !! cid) as [c|]; [|discriminate].
  exists c. split; [reflexivity|]. apply negb_true_iff. exact Hw.
Qed.

Lemma try_send_lookup_ne a a' data ags :
  a <> a' -> try_send a data ags !! a' = ags !! a'.
Proof.
  intros Hne. unfold try_send. destruct (ags !! a) as [ag|]; [|reflexivity].
  destruct (send_error ag); [reflexivity|].
  apply list_lookup_insert_ne. exact Hne.
Qed.

Lemma try_send_listeners a data ags a' ag' :
  try_send a data ags !! a' = Some ag' ->
  exists ag, ags !! a' = Some ag /\ listeners ag' = listeners ag
             /\ send_error ag' = send_error ag.
Proof.
  unfold try_send. destruct (ags !! a) as [ag|] eqn:Ha; [|eauto].
  destruct (send_error ag) eqn:He; [eauto|].
  destruct (Nat.eq_dec a a') as [<-|Hne].
  - rewrite list_lookup_insert_eq by (apply lookup_lt_Some in Ha; exact Ha).
    intros [= <-]. exists ag. auto.
  - rewrite list_lookup_insert_ne by exact Hne. eauto.
Qed.

(** A stream that is not among the listeners of a message event does not
    notice it. *)
Lemma run_listeners_absent ls sid text : forall w,
  sid ∉ ls ->
  streams (exec (run_listeners ls text) w) !! sid = streams w !! sid.
Proof.
  induction ls as [|x rest IH]; intros w Hn; [reflexivity|].
  apply not_elem_of_cons in Hn as [Hx Hn].
  rewrite run_listeners_cons, IH by exact Hn.
  apply listener_run_other. congruence.
Qed.

Lemma dispatch_absent a text w ag sid :
  agents w !! a = Some ag -> sid ∉ listeners ag ->
  streams (exec (dispatch a text) w) !! sid = streams w !! sid.
Proof.
  intros Ha Hn. unfold exec, dispatch, bind, gets. rewrite Ha.
  apply (run_listeners_absent _ _ _ _ Hn).
Qed.

(** C4. [handleStreamResuming] returns [false] and leaves the world as it
    is when no resolver is pending. When one is pending, in a well-formed
    world whose current connection can send, one call returns [true],
    empties the resolver slot, marks the identifier active in the shared
    set, sends exactly one frame on the current connection and nothing
    elsewhere, resolves the pending call with a new stream bound to that
    identifier, and every later call, with whatever identifier, returns
    [false] and changes nothing. The frame is the serialization of the
    object whose [type] is that of a RESUME_ACK and whose [id] is the
    identifier given; the stream is a resumed stream with that request
    identifier, not finished, nothing enqueued, listening on the current
    connection. *)
Theorem handleStreamResuming_hands_off_once :
  (forall w rid,
     _resumeResolver w = None ->
     handleStreamResuming rid w = (Normal false, w))
  /\ (forall w rid cid ag,
        well_formed w = true ->
        _resumeResolver w = Some cid ->
        agents w !! agent w = Some ag -> send_error ag = None ->
        let sid := length (streams w) in
        exists w',
          handleStreamResuming rid w = (Normal true, w')
          /\ _resumeResolver w' = None
          /\ activeRequestIds w'
             = (fun ids => {[rid]} ∪ ids) <$> activeRequestIds w
          /\ (forall ids, activeRequestIds w' = Some ids -> rid ∈ ids)
          /\ (exists ag',
                agents w' !! agent w = Some ag'
                /\ sent ag'
                   = sent ag
                     ++ [JSON_stringify
                           (JObject
                              [("type",
                                JString (wire CF_AGENT_STREAM_RESUME_ACK));
                               ("id", JString rid)])])
          /\ (forall a, a <> agent w -> agents w' !! a = agents w !! a)
          /\ (exists c c', calls w !! cid = Some c
                           /\ resolved c = false
                           /\ calls w' !! cid = Some c'
                           /\ resolved c' = true
                           /\ settled c' = Some (Some sid))
          /\ streams w' !! sid
             = Some (mkStream ResumeStream rid false fresh_controller false
                              (agent w) None)
          /\ length (streams w') = S (length (streams w))
          /\ (forall rid',
                handleStreamResuming rid' w' = (Normal false, w'))).
Proof.
  split; [exact (fun w rid => handleStreamResuming_idle rid w)|].
  intros w rid cid ag Hwf Hr Ha He sid.
  destruct (well_formed_resolver _ _ Hwf Hr) as (c & Hc & Hres).
  exists (resumed_world w cid rid ag).
  split; [apply (handleStreamResuming_ok _ _ _ _ _ Hr Ha He Hc Hres)|].
  unfold resumed_world. wsimpl.
  split; [reflexivity|]. split; [reflexivity|]. split.
  { destruct (activeRequestIds w) as [ids0|]; cbn; [|discriminate].
    intros ids [= <-]. set_solver. }
  split.
  { eexists. split; [apply list_lookup_insert_eq|reflexivity].
    apply lookup_lt_Some in Ha. exact Ha. }
  split.
  { intros a Hne. apply list_lookup_insert_ne. congruence. }
  split.
  { exists c, (mkCall true None (Some (Some sid))).
    split; [exact Hc|]. split; [exact Hres|]. split; [|split; reflexivity].
    apply list_lookup_insert_eq. apply lookup_lt_Some in Hc. exact Hc. }
  split; [exact (lookup_snoc _ _)|]. split.
  { rewrite length_app. cbn. lia. }
  intros rid'. apply handleStreamResuming_idle. reflexivity.
Qed.

(** C7. A resume is requested on one connection and the transport is then
    given another one, which can send. At the hand-off the RESUME_ACK goes
    out on the new connection, and the listener of the resumed stream is
    added to the new connection; on the old connection nothing is sent
    after the RESUME_REQUEST and no listener is added. A chunk that
    arrives on the new connection reaches the stream, and whatever arrives
    on the old one does not. *)
Theorem resume_binds_connection_at_hand_off
    (w : World) (rid : string) (a' : nat) (ag' : Agent) :
  well_formed w = true ->
  a' <> agent w ->
  agents w !! a' = Some ag' -> send_error ag' = None ->
  let cid := length (calls w) in
  let sid := length (streams w) in
  let w1 := exec reconnectToStream w in
  let w2 := step w1 (EvSetAgent a') in
  exists w3,
    handleStreamResuming rid w2 = (Normal true, w3)
    /\ agent w2 = a'
    /\ agents w3 !! a'
       = Some (mkAgent (sent ag' ++ [resume_ack_frame rid]) None
                       (listeners ag' ++ [sid]))
    /\ agents w3 !! agent w = agents w1 !! agent w
    /\ (forall old, agents w !! agent w = Some old ->
          exists old', agents w3 !! agent w = Some old'
                       /\ listeners old' = listeners old
                       /\ (sid ∉ listeners old')
                       /\ sent old'
                          = sent old ++ match send_error old with
                                        | None => [resume_request_frame]
                                        | Some _ => []
                                        end)
    /\ streams w3 !! sid = Some (resumed_stream rid a')
    /\ (exists c, calls w3 !! cid = Some c
                  /\ settled c = Some (Some sid))
    /\ (forall text fr,
          frame_text text fr ->
          streams (exec (dispatch a' text) w3) !! sid
          = Some (receive fr (resumed_stream rid a')))
    /\ (forall text,
          streams (exec (dispatch (agent w) text) w3) !! sid
          = Some (resumed_stream rid a')).
Proof.
  intros Hwf Hne Ha' He' cid sid w1 w2.
  assert (Hw1 : w1 = reconnecting_world w).
  { unfold w1, exec. rewrite reconnectToStream_eq. reflexivity. }
  assert (Hlen : length (agents w1) = length (agents w)).
  { rewrite Hw1. cbn [reconnecting_world agents]. apply try_send_length. }
  assert (Hw2 : w2 = set_agent a' w1).
  { unfold w2. cbn [step]. rewrite bool_decide_true; [reflexivity|].
    rewrite Hlen. apply lookup_lt_Some in Ha'. exact Ha'. }
  assert (Ha2 : agents w2 !! agent w2 = Some ag').
  { rewrite Hw2, Hw1. wsimpl. cbn [reconnecting_world agents].
    rewrite try_send_lookup_ne by congruence. exact Ha'. }
  assert (Hc2 : calls w2 !! cid = Some (mkCall false (Some (now w + RESUME_TIMEOUT)) None)).
  { rewrite Hw2, Hw1. wsimpl. cbn [reconnecting_world calls]. apply lookup_snoc. }
  assert (Hr2 : _resumeResolver w2 = Some cid).
  { rewrite Hw2, Hw1. reflexivity. }
  exists (resumed_world w2 cid rid ag').
  split; [apply (handleStreamResuming_ok _ _ _ _ _ Hr2 Ha2 He' Hc2 eq_refl)|].
  assert (Hag2 : agent w2 = a') by (rewrite Hw2; reflexivity).
  assert (Hst2 : streams w2 = streams w) by (rewrite Hw2, Hw1; reflexivity).
  assert (Hags2 : agents w2 = agents w1) by (rewrite Hw2; reflexivity).
  split; [exact Hag2|].
  unfold resumed_world. wsimpl. rewrite Hag2, Hst2, Hags2. fold sid.
  assert (Hlt : a' < length (agents w1)).
  { rewrite Hlen. apply lookup_lt_Some in Ha'. exact Ha'. }
  assert (Hold : forall old, agents w !! agent w = Some old ->
            exists old', agents w1 !! agent w = Some old'
                         /\ listeners old' = listeners old
                         /\ sent old'
                            = sent old ++ match send_error old with
                                          | None => [resume_request_frame]
                                          | Some _ => []
                                          end).
  { intros old Ho. rewrite Hw1. cbn [reconnecting_world agents].
    unfold try_send. rewrite Ho. destruct (send_error old).
    - exists old. rewrite app_nil_r. auto.
    - eexists. split; [apply list_lookup_insert_eq|split; reflexivity].
      apply lookup_lt_Some in Ho. exact Ho. }
  split.
  { rewrite list_lookup_insert_eq by exact Hlt. rewrite He'. reflexivity. }
  split.
  { apply list_lookup_insert_ne. exact Hne. }
  split.
  { intros old Ho. destruct (Hold old Ho) as (old' & Ho' & Hl & Hs).
    exists old'. rewrite list_lookup_insert_ne by exact Hne.
    split; [exact Ho'|]. split; [exact Hl|]. split; [|exact Hs].
    rewrite Hl. intros Hin.
    apply (well_formed_listeners _ _ _ _ Hwf Ho) in Hin. unfold sid in Hin.
    lia. }
  split; [apply lookup_snoc|]. split.
  { exists (mkCall true None (Some (Some sid))). split; [|reflexivity].
    apply list_lookup_insert_eq.
    apply lookup_lt_Some in Hc2. exact Hc2. }
  assert (Hfresh : sid ∉ listeners ag').
  { intros Hin. apply (well_formed_listeners _ _ _ _ Hwf Ha') in Hin.
    unfold sid in Hin. lia. }
  split.
  - intros text fr Hp.
    eapply (dispatch_frame_at _ _ _ _ _ (listeners ag') []); eauto.
    + wsimpl. apply list_lookup_insert_eq. exact Hlt.
    + reflexivity.
    + apply not_elem_of_nil.
    + wsimpl. apply lookup_snoc.
  - intros text.
    destruct (agents w !! agent w) as [old|] eqn:Ho.
    + destruct (Hold old eq_refl) as (old' & Ho' & Hl & _).
      erewrite dispatch_absent.
      * wsimpl. apply lookup_snoc.
      * wsimpl. rewrite list_lookup_insert_ne by exact Hne. exact Ho'.
      * rewrite Hl. intros Hin.
        apply (well_formed_listeners _ _ _ _ Hwf Ho) in Hin.
        unfold sid in Hin. lia.
    + exfalso. apply well_formed_agent in Hwf.
      apply lookup_ge_None in Ho. lia.
Qed.

Lemma sendMessages_send_fails w rid options ag e :
  agents w !! agent w = Some ag -> send_error ag = Some e ->
  fst (sendMessages rid options w) = Throw e.
Proof.
  intros Ha He. unfold sendMessages, bind at 1 2 3 4 5, activeIds_add, modify,
    gets, new_stream, addEventListener.
  wsimpl. rewrite lookup_snoc. cbn [signal_aborted].
  set (w0 := set_agents _ _).
  assert (Ha0 : agents w0 !! agent w
                = Some (add_listener (length (streams w)) ag)).
  { unfold w0. wsimpl. rewrite list_lookup_alter_eq, Ha. reflexivity. }
  set (pre := match opt_abortSignal options with
              | Some true => onAbort (length (streams w))
              | _ => ret tt
              end).
  assert (Hpre : exists w', pre w0 = (Normal tt, w')
                 /\ exists ag', agents w' !! agent w = Some ag'
                                /\ send_error ag' = Some e).
  { assert (Hag0 : exists ag', agents w0 !! agent w = Some ag'
                      /\ send_error ag' = Some e) by (eexists; split; eauto).
    unfold pre. destruct (opt_abortSignal options) as [[]|];
      try (exists w0; split; [reflexivity | exact Hag0]).
    exists (snd (onAbort (length (streams w)) w0)).
    split; [apply total_unit, onAbort_total|].
    destruct (stream_op_onAbort (length (streams w)) w0) as [_ _ _ _ _ _ _ Hags].
    destruct (Hags _ _ Ha0) as (ag' & Hag' & _ & Hse).
    exists ag'. split; [exact Hag'|]. rewrite Hse. exact He. }
  destruct Hpre as (w' & Hrun & ag' & Hag' & Hse).
  unfold bind at 1. rewrite Hrun. unfold bind, agent_send.
  rewrite Hag', Hse. reflexivity.
Qed.

(** C9 on the code. Of the four frames the transport sends, a throw of
    [send] is swallowed for CANCEL ([onAbort] never throws) and for
    RESUME_REQUEST ([reconnectToStream] returns its call whatever the
    connection does), and it reaches the caller for SEND_REQUEST. For
    RESUME_ACK it reaches the caller of [handleStreamResuming] as well:
    the resolver has marked the identifier active by then, and it neither
    creates the stream nor resolves the call, which stays pending. *)
Theorem send_failure_handling :
  (forall sid w, exists w', onAbort sid w = (Normal tt, w'))
  /\ (forall w, fst (reconnectToStream w) = Normal (length (calls w)))
  /\ (forall w rid options ag e,
        agents w !! agent w = Some ag -> send_error ag = Some e ->
        fst (sendMessages rid options w) = Throw e)
  /\ (forall w rid cid ag e,
        _resumeResolver w = Some cid ->
        agents w !! agent w = Some ag -> send_error ag = Some e ->
        handleStreamResuming rid w
        = (Throw e, set_activeRequestIds (fun ids => {[rid]} ∪ ids) w)).
Proof.
  split; [|split; [|split]].
  - intros sid w. eexists. apply total_unit, onAbort_total.
  - intros w. rewrite reconnectToStream_eq. reflexivity.
  - exact sendMessages_send_fails.
  - intros w rid cid ag e Hr Ha He.
    apply (handleStreamResuming_send_fails _ _ _ _ _ Hr Ha He).
Qed.

(** *** Timers *)

Lemma fire_timer_eq k w c :
  calls w !! k = Some c -> fire_timer k w = (Normal tt, fire_world k c w).
Proof.
  intros Hc. unfold fire_timer, bind, update_call, modify.
  set (w1 := set_calls _ w).
  assert (Hc1 : calls w1 !! k = Some (mkCall (resolved c) None (settled c))).
  { unfold w1. wsimpl. rewrite list_lookup_alter_eq, Hc. reflexivity. }
  assert (Hcs : calls w1 = <[k := mkCall (resolved c) None (settled c)]> (calls w)).
  { unfold w1. wsimpl. erewrite alter_insert by exact Hc. reflexivity. }
  unfold fire_world, fired. destruct (resolved c) eqn:Hr.
  - rewrite (done_resolved _ _ _ _ Hc1 eq_refl). unfold w1. wexpand.
    erewrite alter_insert by exact Hc. rewrite Hr. reflexivity.
  - rewrite (done_pending _ _ _ _ Hc1 eq_refl). rewrite Hcs.
    rewrite list_insert_insert_eq. reflexivity.
Qed.

Lemma next_timer_Some target cs : forall i due k,
  next_timer target i cs = Some (due, k) ->
  i <= k /\ due <= target
  /\ exists c, cs !! (k - i) = Some c /\ timeout c = Some due.
Proof.
  induction cs as [|c cs IH]; intros i due k; cbn [next_timer]; [discriminate|].
  assert (Hlater : next_timer target (S i) cs = Some (due, k) ->
            i <= k /\ due <= target
            /\ exists c0, (c :: cs) !! (k - i) = Some c0 /\ timeout c0 = Some due).
  { intros Hl. apply IH in Hl as (Hle & Hd & c0 & Hc0 & Ht).
    split; [lia|]. split; [exact Hd|]. exists c0. split; [|exact Ht].
    replace (k - i) with (S (k - S i)) by lia. exact Hc0. }
  assert (Hhere : forall d, timeout c = Some d -> d <= target ->
            i <= i /\ d <= target
            /\ exists c0, (c :: cs) !! (i - i) = Some c0 /\ timeout c0 = Some d).
  { intros d Ht Hd. split; [lia|]. split; [exact Hd|]. exists c.
    rewrite Nat.sub_diag. auto. }
  destruct (timeout c) as [d|] eqn:Ht; [|exact Hlater].
  destruct (Nat.leb_spec d target) as [Hd|Hd]; [|exact Hlater].
  destruct (next_timer target (S i) cs) as [[d' j]|] eqn:Hn.
  - destruct (Nat.leb d d').
    + intros [= <- <-]. apply Hhere; auto.
    + exact Hlater.
  - intros [= <- <-]. apply Hhere; auto.
Qed.

Lemma next_timer_None target cs : forall i,
  next_timer target i cs = None ->
  forall j c due, cs !! j = Some c -> timeout c = Some due -> target < due.
Proof.
  induction cs as [|c cs IH]; intros i Hn j c0 due Hj Ht; [discriminate|].
  cbn [next_timer] in Hn.
  assert (Hlater : next_timer target (S i) cs = None).
  { destruct (timeout c) as [d|]; [|exact Hn].
    destruct (Nat.leb d target); [|exact Hn].
    destruct (next_timer target (S i) cs) as [[d' j']|]; [|discriminate].
    destruct (Nat.leb d d'); discriminate. }
  destruct j as [|j].
  - cbn in Hj. injection Hj as ->. rewrite Ht in Hn.
    destruct (Nat.leb_spec due target) as [Hd|Hd]; [|exact Hd].
    destruct (next_timer target (S i) cs) as [[d' j']|]; [|discriminate].
    destruct (Nat.leb due d'); discriminate.
  - exact (IH _ Hlater j c0 due Hj Ht).
Qed.

Lemma next_timer_idle target cs :
  (forall j c due, cs !! j = Some c -> timeout c = Some due -> target < due) ->
  forall i, next_timer target i cs = None.
Proof.
  induction cs as [|c cs IH]; intros Hall i; [reflexivity|].
  cbn [next_timer].
  rewrite IH by (intros j c0 due Hj; apply (Hall (S j) c0 due Hj)).
  destruct (timeout c) as [d|] eqn:Ht; [|reflexivity].
  specialize (Hall 0 c d eq_refl Ht).
  destruct (Nat.leb_spec d target); [lia | reflexivity].
Qed.

Lemma pending_timers_fired cs : forall k c due,
  cs !! k = Some c -> timeout c = Some due ->
  S (pending_timers (<[k := fired c]> cs)) = pending_timers cs.
Proof.
  unfold pending_timers.
  induction cs as [|c0 cs IH]; intros [|k] c due Hk Ht; try discriminate.
  - cbn in Hk. injection Hk as ->. cbn. rewrite Ht. reflexivity.
  - cbn in Hk. cbn. destruct (timeout c0); cbn; erewrite <- IH by eauto;
      reflexivity.
Qed.

Lemma pending_timers_le cs : pending_timers cs <= length cs.
Proof. unfold pending_timers. apply List.filter_length_le. Qed.

(** One round of [run_timers]. *)
Lemma run_timers_S n target w :
  run_timers (S n) target w
  = match next_timer target 0 (calls w) with
    | None => (Normal tt, w)
    | Some (due, k) =>
        match calls w !! k with
        | Some c =>
            run_timers n target
              (fire_world k c (set_now (Nat.max (now w) due) w))
        | None => (Normal tt, w)
        end
    end.
Proof.
  cbn [run_timers]. unfold bind at 1, gets.
  destruct (next_timer target 0 (calls w)) as [[due k]|] eqn:Hn; [|reflexivity].
  apply next_timer_Some in Hn as (_ & _ & c & Hc & _).
  rewrite Nat.sub_0_r in Hc. rewrite Hc.
  unfold bind at 1, modify. unfold bind at 1.
  rewrite (fire_timer_eq k _ c) by (wsimpl; exact Hc). reflexivity.
Qed.

Lemma timer_op_run_timers n target : forall w,
  timer_op target w (exec (run_timers n target) w).
Proof.
  induction n as [|n IH]; intros w; [split; auto; cbn; lia|].
  unfold exec. rewrite run_timers_S.
  destruct (next_timer target 0 (calls w)) as [[due k]|] eqn:Hn;
    [|split; auto; cbn; lia].
  destruct (calls w !! k) as [c|] eqn:Hc; [|split; auto; cbn; lia].
  apply next_timer_Some in Hn as (_ & Hd & _).
  destruct (IH (fire_world k c (set_now (Nat.max (now w) due) w)))
    as [H1 H2 H3 H4 H5 H6 H7].
  unfold exec in *. cbn [fire_world set_now agents agent activeRequestIds
    streams calls _resumeResolver now] in *.
  split; auto.
  - rewrite H5. apply length_insert.
  - destruct H6 as [H6|H6]; [|auto]. rewrite H6.
    destruct (resolved c); auto.
  - intros Hnow. lia.
Qed.

(** A call whose timer is not pending, or is due only later, is left as
    it is. *)
Lemma run_timers_keeps n target j c : forall w,
  calls w !! j = Some c ->
  (forall due, timeout c = Some due -> target < due) ->
  calls (exec (run_timers n target) w) !! j = Some c.
Proof.
  induction n as [|n IH]; intros w Hj Hc; [exact Hj|].
  unfold exec. rewrite run_timers_S.
  destruct (next_timer target 0 (calls w)) as [[due k]|] eqn:Hn; [|exact Hj].
  destruct (calls w !! k) as [ck|] eqn:Hk; [|exact Hj].
  apply next_timer_Some in Hn as (_ & Hd & c' & Hc' & Ht).
  rewrite Nat.sub_0_r, Hk in Hc'. injection Hc' as <-.
  apply IH; [|exact Hc]. cbn [fire_world calls].
  rewrite list_lookup_insert_ne; [exact Hj|].
  intros ->. rewrite Hk in Hj. injection Hj as ->.
  specialize (Hc _ Ht). lia.
Qed.

(** With one round for every pending timer, no timer that is due is left,
    and a call whose timer was due has been fired; if it was not resolved
    before, the resolver slot is empty afterwards. *)
Lemma run_timers_fires n target j c due : forall w,
  pending_timers (calls w) <= n ->
  calls w !! j = Some c -> timeout c = Some due -> due <= target ->
  let w' := exec (run_timers n target) w in
  calls w' !! j = Some (fired c)
  /\ (resolved c = false -> _resumeResolver w' = None).
Proof.
  induction n as [|n IH]; intros w Hn Hj Ht Hd; cbn zeta.
  - exfalso. pose proof (pending_timers_fired _ _ _ _ Hj Ht). lia.
  - unfold exec. rewrite run_timers_S.
    destruct (next_timer target 0 (calls w)) as [[due' k]|] eqn:Hnext.
    + destruct (calls w !! k) as [ck|] eqn:Hk.
      * apply next_timer_Some in Hnext as (_ & Hd' & c' & Hc' & Ht').
        rewrite Nat.sub_0_r, Hk in Hc'. injection Hc' as <-.
        set (w1 := fire_world k ck (set_now (Nat.max (now w) due') w)).
        assert (Hn1 : pending_timers (calls w1) <= n).
        { unfold w1. cbn [fire_world calls set_now].
          pose proof (pending_timers_fired _ _ _ _ Hk Ht'). lia. }
        destruct (Nat.eq_dec k j) as [->|Hne].
        -- rewrite Hk in Hj. injection Hj as ->.
           assert (Hj1 : calls w1 !! j = Some (fired c)).
           { unfold w1. cbn [fire_world calls set_now].
             apply list_lookup_insert_eq. apply lookup_lt_Some in Hk.
             exact Hk. }
           split.
           ++ apply run_timers_keeps; [exact Hj1 | discriminate].
           ++ intros Hr.
              destruct (timer_op_run_timers n target w1) as [_ _ _ _ _ [Hs|Hs] _];
                [|exact Hs].
              unfold exec in Hs. rewrite Hs. unfold w1.
              cbn [fire_world _resumeResolver]. rewrite Hr. reflexivity.
        -- apply (IH w1 Hn1); [|exact Ht | exact Hd].
           unfold w1. cbn [fire_world calls set_now].
           rewrite list_lookup_insert_ne by exact Hne. exact Hj.
      * exfalso. apply next_timer_Some in Hnext as (_ & _ & c' & Hc' & _).
        rewrite Nat.sub_0_r, Hk in Hc'. discriminate.
    + exfalso. pose proof (next_timer_None _ _ _ Hnext j c due Hj Ht). lia.
Qed.

Lemma run_timers_total n target : total (run_timers n target).
Proof.
  induction n as [|n IH]; [apply total_ret|]. cbn [run_timers].
  apply total_bind; [intros w; eexists; reflexivity|].
  intros [[due k]|]; [|apply total_ret].
  apply total_bind; [intros w; eexists; reflexivity|]. intros _.
  apply total_bind; [|intros _; exact IH].
  unfold fire_timer. apply total_bind; [intros w; eexists; reflexivity|].
  intros _. apply done_total.
Qed.

Lemma advance_eq dt w :
  advance dt w
  = (Normal tt,
     set_now (now w + dt)
       (exec (run_timers (length (calls w)) (now w + dt)) w)).
Proof.
  unfold advance, bind at 1 2, gets. unfold bind, exec.
  rewrite (total_unit _ w (run_timers_total _ _)). reflexivity.
Qed.

Lemma advance_now dt w : now (exec (advance dt) w) = now w + dt.
Proof. unfold exec. rewrite advance_eq. reflexivity. Qed.

Lemma advance_keeps dt w j c :
  calls w !! j = Some c ->
  (forall due, timeout c = Some due -> now w + dt < due) ->
  calls (exec (advance dt) w) !! j = Some c.
Proof.
  intros Hj Hc. unfold exec. rewrite advance_eq. wsimpl.
  apply run_timers_keeps; assumption.
Qed.

Lemma advance_fires dt w j c due :
  calls w !! j = Some c -> timeout c = Some due -> due <= now w + dt ->
  calls (exec (advance dt) w) !! j = Some (fired c)
  /\ (resolved c = false -> _resumeResolver (exec (advance dt) w) = None).
Proof.
  intros Hj Ht Hd. unfold exec. rewrite advance_eq. wsimpl.
  apply (run_timers_fires _ _ _ _ due); auto using pending_timers_le.
Qed.

Lemma advance_frame dt w :
  let w' := exec (advance dt) w in
  agents w' = agents w /\ agent w' = agent w
  /\ activeRequestIds w' = activeRequestIds w /\ streams w' = streams w
  /\ length (calls w') = length (calls w)
  /\ (_resumeResolver w' = _resumeResolver w \/ _resumeResolver w' = None).
Proof.
  cbn zeta. unfold exec. rewrite advance_eq. wsimpl.
  destruct (timer_op_run_timers (length (calls w)) (now w + dt) w) as [].
  auto 10.
Qed.

(** *** Events that do not concern the resume calls *)

Lemma valid_listeners_spec w :
  valid_listeners w = true
  <-> forall a ag sid, agents w !! a = Some ag -> sid ∈ listeners ag ->
        sid < length (streams w).
Proof.
  unfold valid_listeners. rewrite forallb_forall. split.
  - intros Hv a ag sid Ha Hs.
    apply list_elem_of_lookup_2, list_elem_of_In in Ha. specialize (Hv _ Ha).
    rewrite forallb_forall in Hv. apply list_elem_of_In in Hs.
    apply Nat.ltb_lt. exact (Hv _ Hs).
  - intros Hv ag Ha. apply list_elem_of_In, list_elem_of_lookup_1 in Ha.
    destruct Ha as [a Ha]. rewrite forallb_forall. intros sid Hs.
    apply Nat.ltb_lt. apply (Hv a ag sid Ha). apply list_elem_of_In. exact Hs.
Qed.

Lemma control_op_refl w : control_op w w.
Proof. split; auto. Qed.

Lemma control_op_trans w1 w2 w3 :
  control_op w1 w2 -> control_op w2 w3 -> control_op w1 w3.
Proof. intros [] []. split; try congruence. auto. Qed.

Lemma stream_op_control_op sid w w' : stream_op sid w w' -> control_op w w'.
Proof.
  intros []. split; auto. rewrite !valid_listeners_spec.
  intros Hv a ag' x Ha' Hx. rewrite so_streams_length0.
  destruct (agents w !! a) as [ag|] eqn:Ha.
  - destruct (so_agents0 a ag Ha) as (ag'' & Ha'' & Hl & _).
    rewrite Ha' in Ha''. injection Ha'' as <-. rewrite Hl in Hx.
    exact (Hv a ag x Ha Hx).
  - apply lookup_ge_None in Ha. apply lookup_lt_Some in Ha'. lia.
Qed.

Lemma control_op_of_stream_op {A : Type} sid (m : M A) :
  preserves (stream_op sid) m -> preserves control_op m.
Proof. intros Hm w. eapply stream_op_control_op, Hm. Qed.

Lemma control_op_activeIds_add rid : preserves control_op (activeIds_add rid).
Proof. intros w. split; auto. Qed.

Lemma control_op_new_stream s : preserves control_op (new_stream s).
Proof.
  intros w. split; auto. cbn [new_stream snd]. rewrite !valid_listeners_spec.
  intros Hv a ag x Ha Hx. wsimpl. rewrite length_app.
  specialize (Hv a ag x Ha Hx). lia.
Qed.

Lemma control_op_addEventListener a sid :
  preserves control_op (addEventListener a sid).
Proof.
  intros w. unfold addEventListener.
  destruct (streams w !! sid) as [s|] eqn:Hs; [|apply control_op_refl].
  destruct (signal_aborted s); [apply control_op_refl|].
  split; auto; wsimpl; [apply length_alter|].
  rewrite !valid_listeners_spec. intros Hv a' ag' x Ha' Hx. wsimpl.
  wsimpl in Ha'. destruct (Nat.eq_dec a a') as [<-|Hne].
  - rewrite list_lookup_alter_eq in Ha'.
    destruct (agents w !! a) as [ag|] eqn:Ha; [|discriminate].
    injection Ha' as <-. cbn [add_listener listeners] in Hx.
    apply elem_of_app in Hx as [Hx|Hx]; [exact (Hv a ag x Ha Hx)|].
    apply list_elem_of_singleton in Hx as ->.
    apply lookup_lt_Some in Hs. exact Hs.
  - rewrite list_lookup_alter_ne in Ha' by exact Hne.
    exact (Hv a' ag' x Ha' Hx).
Qed.

Lemma control_op_sendMessages rid options :
  preserves control_op (sendMessages rid options).
Proof.
  unfold sendMessages.
  repeat first
    [ apply (preserves_ret _ control_op_refl)
    | apply (preserves_gets _ control_op_refl)
    | apply control_op_activeIds_add
    | apply control_op_new_stream
    | apply control_op_addEventListener
    | apply (control_op_of_stream_op 0), stream_op_agent_send
    | match goal with
      | |- preserves _ (onAbort ?sid) =>
          apply (control_op_of_stream_op sid), stream_op_onAbort
      | |- preserves _ (match ?x with _ => _ end) => destruct x
      end
    | apply (preserves_bind _ control_op_trans); [|intros ?] ].
Qed.

Lemma control_op_dispatch a text : preserves control_op (dispatch a text).
Proof.
  intros w. destruct (inbound_op_dispatch a text w) as [].
  split; try congruence. rewrite !valid_listeners_spec.
  rewrite io_agents0, io_streams_length0. auto.
Qed.

Lemma step_sending_side w ev :
  sending_side ev = true ->
  calls (step w ev) = calls w
  /\ _resumeResolver (step w ev) = _resumeResolver w
  /\ now (step w ev) = now w.
Proof.
  intros Hev.
  assert (Hco : forall w', control_op w w' ->
            calls w' = calls w /\ _resumeResolver w' = _resumeResolver w
            /\ now w' = now w) by (intros w' []; auto).
  destruct ev as [rid o| |rid|a text|sid|sid|sid|dt|a|e|a e]; try discriminate;
    cbn [step].
  - apply Hco, control_op_sendMessages.
  - apply Hco, control_op_dispatch.
  - apply Hco. eapply stream_op_control_op, stream_op_abort_signal.
  - apply Hco. eapply stream_op_control_op, stream_op_stream_cancel.
  - apply Hco. eapply stream_op_control_op, stream_op_stream_read.
  - destruct (bool_decide _); auto.
  - auto.
  - auto.
Qed.

(** *** The timeout of a resume call *)

Lemma step_awaiting cid due w ev :
  no_resume_event ev = true ->
  awaiting cid due w \/ timed_out cid due w ->
  (awaiting cid due (step w ev) \/ timed_out cid due (step w ev))
  /\ now (step w ev) = now w + elapsed [ev].
Proof.
  intros Hev Hst.
  destruct (sending_side ev) eqn:Hside.
  - destruct (step_sending_side w ev Hside) as (Hc & Hr & Hn).
    split.
    + unfold awaiting, timed_out in *. rewrite Hc, Hr, Hn. exact Hst.
    + rewrite Hn. destruct ev; try discriminate; cbn; lia.
  - destruct ev as [| | | | | | |dt| | |]; try discriminate. cbn [step].
    pose proof (advance_now dt w) as Hnow.
    split; [|cbn; lia].
    destruct Hst as [[Hc Hlt]|(Hc & Hr & Hle)].
    + destruct (Nat.lt_ge_cases (now w + dt) due) as [Hd|Hd].
      * left. split; [|lia].
        apply advance_keeps; [exact Hc|]. intros d [= <-]. exact Hd.
      * right. destruct (advance_fires dt w cid _ due Hc eq_refl Hd) as [Hf Hs].
        split; [exact Hf|]. split; [apply Hs; reflexivity | lia].
    + right. split; [|split; [|lia]].
      * apply advance_keeps; [exact Hc | discriminate].
      * destruct (advance_frame dt w) as (_ & _ & _ & _ & _ & [Hs|Hs]);
          congruence.
Qed.

Lemma elapsed_cons ev evs : elapsed (ev :: evs) = elapsed [ev] + elapsed evs.
Proof. unfold elapsed. destruct ev; cbn [fold_right]; lia. Qed.

Lemma run_awaiting cid due evs : forall w,
  forallb no_resume_event evs = true ->
  awaiting cid due w \/ timed_out cid due w ->
  (awaiting cid due (run w evs) \/ timed_out cid due (run w evs))
  /\ now (run w evs) = now w + elapsed evs.
Proof.
  induction evs as [|ev evs IH]; intros w Hq Hst; [cbn; split; [auto|lia]|].
  cbn [forallb] in Hq. apply andb_prop in Hq as [Hev Hq].
  destruct (step_awaiting cid due w ev Hev Hst) as [Hst1 Hn1].
  destruct (IH (step w ev) Hq Hst1) as [Hst2 Hn2].
  cbn [run fold_left]. split; [exact Hst2|].
  unfold run in Hn2. rewrite Hn2, Hn1, (elapsed_cons ev evs). lia.
Qed.

(** The same without the resolver slot, which later resume calls take
    over. *)
Lemma step_awaiting_call cid due w ev :
  no_handoff ev = true ->
  awaiting cid due w \/ resolved_null cid due w ->
  (awaiting cid due (step w ev) \/ resolved_null cid due (step w ev))
  /\ now (step w ev) = now w + elapsed [ev].
Proof.
  intros Hev Hst.
  destruct (sending_side ev) eqn:Hside.
  - destruct (step_sending_side w ev Hside) as (Hc & Hr & Hn).
    split.
    + unfold awaiting, resolved_null in *. rewrite Hc, Hn. exact Hst.
    + rewrite Hn. destruct ev; try discriminate; cbn; lia.
  - destruct ev as [| | | | | | |dt| | |]; try discriminate; cbn [step].
    + unfold exec. rewrite reconnectToStream_eq. cbn [snd].
      split; [|cbn; lia].
      unfold awaiting, resolved_null in *.
      cbn [reconnecting_world calls now].
      destruct Hst as [[Hc Hlt]|[Hc Hle]]; [left|right];
        (split; [apply lookup_app_l_Some; exact Hc | assumption]).
    + pose proof (advance_now dt w) as Hnow.
      split; [|cbn; lia].
      destruct Hst as [[Hc Hlt]|[Hc Hle]].
      * destruct (Nat.lt_ge_cases (now w + dt) due) as [Hd|Hd].
        -- left. split; [|lia].
           apply advance_keeps; [exact Hc|]. intros d [= <-]. exact Hd.
        -- right.
           destruct (advance_fires dt w cid _ due Hc eq_refl Hd) as [Hf _].
           split; [exact Hf | lia].
      * right. split; [|lia].
        apply advance_keeps; [exact Hc | discriminate].
Qed.

Lemma run_awaiting_call cid due evs : forall w,
  forallb no_handoff evs = true ->
  awaiting cid due w \/ resolved_null cid due w ->
  (awaiting cid due (run w evs) \/ resolved_null cid due (run w evs))
  /\ now (run w evs) = now w + elapsed evs.
Proof.
  induction evs as [|ev evs IH]; intros w Hq Hst; [cbn; split; [auto|lia]|].
  cbn [forallb] in Hq. apply andb_prop in Hq as [Hev Hq].
  destruct (step_awaiting_call cid due w ev Hev Hst) as [Hst1 Hn1].
  destruct (IH (step w ev) Hq Hst1) as [Hst2 Hn2].
  cbn [run fold_left]. split; [exact Hst2|].
  unfold run in Hn2. rewrite Hn2, Hn1, (elapsed_cons ev evs). lia.
Qed.

(** C5. After [reconnectToStream] has sent its RESUME_REQUEST, let any
    events happen except a hand-off. While less than 5000 milliseconds
    have passed the call is pending; once 5000 milliseconds have passed
    its promise is resolved with [null], and nothing was thrown. The
    timeout empties the resolver slot: unless another resume call has been
    made since the request, the slot is empty then, and a hand-off that
    comes returns [false] and changes nothing. *)
Theorem resume_times_out_with_null (w : World) (evs : list Event) :
  forallb no_handoff evs = true ->
  let cid := length (calls w) in
  let w1 := exec reconnectToStream w in
  let w2 := run w1 evs in
  reconnectToStream w = (Normal cid, w1)
  /\ RESUME_TIMEOUT = 5000
  /\ _resumeResolver w1 = Some cid
  /\ (elapsed evs < RESUME_TIMEOUT ->
      calls w2 !! cid
      = Some (mkCall false (Some (now w + RESUME_TIMEOUT)) None))
  /\ (RESUME_TIMEOUT <= elapsed evs ->
      calls w2 !! cid = Some (mkCall true None (Some None))
      /\ (forallb no_reconnect evs = true ->
          _resumeResolver w2 = None
          /\ forall rid, handleStreamResuming rid w2 = (Normal false, w2))).
Proof.
  intros Hq cid w1 w2.
  assert (Hw1 : w1 = reconnecting_world w).
  { unfold w1, exec. rewrite reconnectToStream_eq. reflexivity. }
  assert (Hst : awaiting cid (now w + RESUME_TIMEOUT) w1).
  { rewrite Hw1. split; [apply lookup_snoc|]. cbn. unfold RESUME_TIMEOUT. lia. }
  destruct (run_awaiting_call cid _ evs w1 Hq (or_introl Hst)) as [Hend Hnow].
  fold w2 in Hend, Hnow.
  assert (Hn1 : now w1 = now w) by (rewrite Hw1; reflexivity).
  split; [rewrite reconnectToStream_eq, Hw1; reflexivity|].
  split; [reflexivity|]. split; [rewrite Hw1; reflexivity|]. split.
  - intros Hlt. destruct Hend as [[Hc _]|[_ Hle]]; [exact Hc | lia].
  - intros Hge. destruct Hend as [[_ Hlt]|[Hc _]]; [lia|].
    split; [exact Hc|]. intros Hnr.
    assert (Hq' : forallb no_resume_event evs = true).
    { rewrite forallb_forall in Hq, Hnr |- *. intros ev Hev.
      unfold no_resume_event. rewrite (Hq ev Hev : negb _ = true).
      exact (Hnr ev Hev). }
    destruct (run_awaiting cid _ evs w1 Hq' (or_introl Hst)) as [Hend' _].
    fold w2 in Hend'.
    destruct Hend' as [[_ Hlt]|(_ & Hr & _)]; [lia|].
    split; [exact Hr|]. intros rid. apply handleStreamResuming_idle. exact Hr.
Qed.

(** *** Two resume calls *)

Lemma run_timers_idle n target w :
  next_timer target 0 (calls w) = None ->
  run_timers n target w = (Normal tt, w).
Proof.
  intros Hn. destruct n as [|n]; [reflexivity|].
  rewrite run_timers_S, Hn. reflexivity.
Qed.

(** Time passes and no timer is due. *)
Lemma advance_idle dt w :
  (forall j c due, calls w !! j = Some c -> timeout c = Some due ->
     now w + dt < due) ->
  advance dt w = (Normal tt, set_now (now w + dt) w).
Proof.
  intros Hall. rewrite advance_eq. unfold exec.
  rewrite run_timers_idle by (apply next_timer_idle; exact Hall).
  reflexivity.
Qed.

Lemma pending_timers_none cs j c due :
  pending_timers cs = 0 -> cs !! j = Some c -> timeout c = Some due -> False.
Proof.
  intros H0 Hj Ht. pose proof (pending_timers_fired _ _ _ _ Hj Ht). lia.
Qed.

(** Two resume calls and a notification that comes before the timeout of
    the first. On a transport with no other resume call pending, a call of
    [reconnectToStream] is followed, while it still awaits its
    notification, by a second one, which overwrites the slot. The
    notification resolves the second call with a stream and empties the
    slot; the first call stays pending, and when its own 5000 milliseconds
    have passed it is resolved with [null], which leaves the second call's
    stream in place. No step throws. *)
Theorem latest_resume_call_wins
    (w : World) (ag : Agent) (rid : string) (d1 d2 d3 : nat) :
  pending_timers (calls w) = 0 ->
  agents w !! agent w = Some ag -> send_error ag = None ->
  d1 + d2 < RESUME_TIMEOUT -> RESUME_TIMEOUT <= d1 + d2 + d3 ->
  let first := length (calls w) in
  let second := S (length (calls w)) in
  let sid := length (streams w) in
  let wa := run w [EvReconnectToStream; EvAdvance d1] in
  let wb := run wa [EvReconnectToStream; EvAdvance d2] in
  exists wc,
    _resumeResolver wa = Some first
    /\ _resumeResolver wb = Some second
    /\ calls wb !! first
       = Some (mkCall false (Some (now w + RESUME_TIMEOUT)) None)
    /\ handleStreamResuming rid wb = (Normal true, wc)
    /\ _resumeResolver wc = None
    /\ calls wc !! second = Some (mkCall true None (Some (Some sid)))
    /\ calls wc !! first
       = Some (mkCall false (Some (now w + RESUME_TIMEOUT)) None)
    /\ streams wc !! sid = Some (resumed_stream rid (agent w))
    /\ (exists ag', agents wc !! agent w = Some ag'
                    /\ sent ag' = sent ag ++ [resume_request_frame;
                                              resume_request_frame;
                                              resume_ack_frame rid])
    /\ (let wd := run wc [EvAdvance d3] in
        advance d3 wc = (Normal tt, wd)
        /\ calls wd !! first = Some (mkCall true None (Some None))
        /\ calls wd !! second = Some (mkCall true None (Some (Some sid)))
        /\ streams wd !! sid = Some (resumed_stream rid (agent w))).
Proof.
  intros Hidle Ha He H12 H123 first second sid wa wb.
  set (A0 := mkCall false (Some (now w + RESUME_TIMEOUT)) None).
  set (ag1 := add_sent resume_request_frame ag).
  (* the first call, and the time until the second *)
  assert (Hwa : wa = set_now (now w + d1) (reconnecting_world w)).
  { unfold wa. cbn [run fold_left step]. unfold exec at 2.
    rewrite reconnectToStream_eq. cbn [snd]. unfold exec.
    rewrite advance_idle; [reflexivity|].
    intros j c due Hj Ht. cbn [reconnecting_world calls now] in *.
    apply lookup_app_Some in Hj as [Hj|[_ Hj]].
    - exfalso. exact (pending_timers_none _ _ _ _ Hidle Hj Ht).
    - destruct (j - length (calls w)) as [|n]; [|discriminate].
      injection Hj as <-. injection Ht as <-. lia. }
  assert (Hca : calls wa = calls w ++ [A0]) by (rewrite Hwa; reflexivity).
  assert (Haa : agents wa = <[agent w := ag1]> (agents w)).
  { rewrite Hwa. cbn [set_now reconnecting_world agents].
    unfold try_send. rewrite Ha, He. reflexivity. }
  assert (Hlt : agent w < length (agents w))
    by (apply lookup_lt_Some in Ha; exact Ha).
  (* the second call, and the time until the notification *)
  set (B0 := mkCall false (Some (now w + d1 + RESUME_TIMEOUT)) None).
  set (ag2 := add_sent resume_request_frame ag1).
  assert (Hwb : wb = set_now (now w + d1 + d2) (reconnecting_world wa)).
  { unfold wb. cbn [run fold_left step]. unfold exec at 2.
    rewrite reconnectToStream_eq. cbn [snd]. unfold exec.
    rewrite advance_idle.
    - cbn [snd reconnecting_world now]. rewrite Hwa. reflexivity.
    - intros j c due Hj Ht. cbn [reconnecting_world calls now] in *.
      rewrite Hca in Hj. rewrite Hwa in *. cbn [set_now now] in *.
      apply lookup_app_Some in Hj as [Hj|[Hge Hj]].
      + apply lookup_app_Some in Hj as [Hj|[_ Hj]].
        * exfalso. exact (pending_timers_none _ _ _ _ Hidle Hj Ht).
        * destruct (j - length (calls w)) as [|n]; [|discriminate].
          injection Hj as <-. injection Ht as <-. lia.
      + destruct (j - _) as [|n]; [|discriminate].
        injection Hj as <-. injection Ht as <-. lia. }
  assert (Hcb : calls wb = (calls w ++ [A0]) ++ [B0]).
  { rewrite Hwb. cbn [set_now reconnecting_world calls]. rewrite Hca.
    rewrite Hwa. reflexivity. }
  assert (Hab : agents wb = <[agent w := ag2]> (agents w)).
  { rewrite Hwb. cbn [set_now reconnecting_world agents]. rewrite Haa.
    replace (agent wa) with (agent w) by (rewrite Hwa; reflexivity).
    unfold try_send. rewrite list_lookup_insert_eq by exact Hlt.
    cbn [ag1 add_sent send_error]. rewrite He.
    rewrite list_insert_insert_eq. reflexivity. }
  assert (Hrb : _resumeResolver wb = Some second).
  { rewrite Hwb. cbn [set_now reconnecting_world _resumeResolver].
    rewrite Hca, length_app. cbn. f_equal. unfold second. lia. }
  assert (Hgb : agent wb = agent w) by (rewrite Hwb, Hwa; reflexivity).
  assert (Hsb : streams wb = streams w) by (rewrite Hwb, Hwa; reflexivity).
  assert (Hnb : now wb = now w + d1 + d2) by (rewrite Hwb; reflexivity).
  assert (HA : calls wb !! first = Some A0).
  { rewrite Hcb. apply lookup_app_l_Some, lookup_snoc. }
  assert (HB : calls wb !! second = Some B0).
  { rewrite Hcb. unfold second.
    replace (S (length (calls w))) with (length (calls w ++ [A0]))
      by (rewrite length_app; cbn; lia).
    apply lookup_snoc. }
  assert (Hb2 : agents wb !! agent wb = Some ag2).
  { rewrite Hab, Hgb. apply list_lookup_insert_eq. exact Hlt. }
  exists (resumed_world wb second rid ag2).
  split; [rewrite Hwa; reflexivity|]. split; [exact Hrb|].
  split; [exact HA|]. split.
  { apply (handleStreamResuming_ok _ _ _ _ B0 Hrb Hb2); auto. }
  assert (Hne : first <> second) by (unfold first, second; lia).
  unfold resumed_world. wsimpl. rewrite Hsb, Hgb, Hab.
  split; [reflexivity|]. split.
  { apply list_lookup_insert_eq. apply lookup_lt_Some in HB. exact HB. }
  split.
  { rewrite list_lookup_insert_ne by congruence. exact HA. }
  split; [apply lookup_snoc|]. split.
  { eexists. split.
    - rewrite list_insert_insert_eq. apply list_lookup_insert_eq. exact Hlt.
    - cbn [sent ag2 ag1 add_sent]. rewrite <- !app_assoc. reflexivity. }
  cbn zeta. cbn [run fold_left step].
  set (wc := mkWorld _ _ _ _ _ _ _).
  split; [unfold exec; rewrite advance_eq; reflexivity|].
  assert (HAc : calls wc !! first = Some A0).
  { unfold wc. wsimpl. rewrite list_lookup_insert_ne by congruence. exact HA. }
  assert (HBc : calls wc !! second = Some (mkCall true None (Some (Some sid)))).
  { unfold wc. wsimpl. apply list_lookup_insert_eq.
    apply lookup_lt_Some in HB. exact HB. }
  split.
  { apply (advance_fires d3 wc first A0 (now w + RESUME_TIMEOUT) HAc eq_refl).
    unfold wc. wsimpl. rewrite Hnb. lia. }
  split.
  { apply advance_keeps; [exact HBc | discriminate]. }
  destruct (advance_frame d3 wc) as (_ & _ & _ & Hst & _).
  rewrite Hst. unfold wc. wsimpl. apply lookup_snoc.
Qed.

(** C6 on the code. The transport has one resolver slot, and a second
    call of [reconnectToStream] that starts while the first still awaits
    its notification overwrites it. What one notification then does
    depends on when it comes. Before the timeout of the first call, the
    second call is resolved with a stream and the first with [null] at
    its own timeout. But the timeout of the first call empties the slot,
    whichever resolver the slot holds: a notification that comes after
    it, while the second call is still within its own 5000 milliseconds,
    finds no resolver. The hand-off returns [false], nothing is sent, no
    stream is created, and the second call, the most recent one, is
    resolved with [null] at its timeout. *)
Theorem one_notification_after_two_resume_calls
    (w : World) (ag : Agent) (rid : string) (d1 d2 : nat) :
  pending_timers (calls w) = 0 ->
  agents w !! agent w = Some ag -> send_error ag = None ->
  d1 < RESUME_TIMEOUT -> d2 < RESUME_TIMEOUT ->
  let first := length (calls w) in
  let second := S (length (calls w)) in
  let sid := length (streams w) in
  let wa := run w [EvReconnectToStream; EvAdvance d1] in
  let wb := run wa [EvReconnectToStream; EvAdvance d2] in
  _resumeResolver wa = Some first
  /\ _resumeResolver (step wa EvReconnectToStream) = Some second
  /\ (d1 + d2 < RESUME_TIMEOUT ->
      exists wc,
        handleStreamResuming rid wb = (Normal true, wc)
        /\ calls wc !! second = Some (mkCall true None (Some (Some sid)))
        /\ calls wc !! first
           = Some (mkCall false (Some (now w + RESUME_TIMEOUT)) None)
        /\ forall d3,
             RESUME_TIMEOUT <= d1 + d2 + d3 ->
             calls (run wc [EvAdvance d3]) !! first
             = Some (mkCall true None (Some None))
             /\ calls (run wc [EvAdvance d3]) !! second
                = Some (mkCall true None (Some (Some sid))))
  /\ (RESUME_TIMEOUT <= d1 + d2 ->
      calls wb !! first = Some (mkCall true None (Some None))
      /\ calls wb !! second
         = Some (mkCall false (Some (now w + d1 + RESUME_TIMEOUT)) None)
      /\ _resumeResolver wb = None
      /\ handleStreamResuming rid wb = (Normal false, wb)
      /\ forall d3,
           RESUME_TIMEOUT <= d2 + d3 ->
           calls (run wb [EvAdvance d3]) !! second
           = Some (mkCall true None (Some None))
           /\ streams (run wb [EvAdvance d3]) = streams w).
Proof.
  intros Hidle Ha He H1 H2 first second sid wa wb.
  set (A0 := mkCall false (Some (now w + RESUME_TIMEOUT)) None).
  set (B0 := mkCall false (Some (now w + d1 + RESUME_TIMEOUT)) None).
  assert (Hwa : wa = set_now (now w + d1) (reconnecting_world w)).
  { unfold wa. cbn [run fold_left step]. unfold exec at 2.
    rewrite reconnectToStream_eq. cbn [snd]. unfold exec.
    rewrite advance_idle; [reflexivity|].
    intros j c due Hj Ht. cbn [reconnecting_world calls now] in *.
    apply lookup_app_Some in Hj as [Hj|[_ Hj]].
    - exfalso. exact (pending_timers_none _ _ _ _ Hidle Hj Ht).
    - destruct (j - length (calls w)) as [|n]; [|discriminate].
      injection Hj as <-. injection Ht as <-. lia. }
  assert (Hca : calls wa = calls w ++ [A0]) by (rewrite Hwa; reflexivity).
  set (wr := step wa EvReconnectToStream).
  assert (Hwr : wr = reconnecting_world wa).
  { unfold wr. cbn [step]. unfold exec. rewrite reconnectToStream_eq.
    reflexivity. }
  split; [rewrite Hwa; reflexivity|]. split.
  { fold wr. rewrite Hwr. cbn [reconnecting_world _resumeResolver].
    rewrite Hca, length_app. cbn. f_equal. unfold second. lia. }
  split.
  - (* the notification comes before the first timeout *)
    intros H12.
    destruct (latest_resume_call_wins w ag rid d1 d2 RESUME_TIMEOUT
                Hidle Ha He H12 ltac:(lia))
      as (wc & _ & _ & _ & Hrun & _ & Hsecond & Hfirst & _).
    exists wc. split; [exact Hrun|]. split; [exact Hsecond|].
    split; [exact Hfirst|]. intros d3 H123.
    destruct (latest_resume_call_wins w ag rid d1 d2 d3
                Hidle Ha He H12 H123)
      as (wc' & _ & _ & _ & Hrun' & _ & _ & _ & _ & _ & Hlate).
    assert (Heq : wc' = wc) by congruence. subst wc'.
    destruct Hlate as (_ & Hf & Hs & _). split; [exact Hf | exact Hs].
  - (* the notification comes after it *)
    intros H12.
    assert (Hcr : calls wr = (calls w ++ [A0]) ++ [B0]).
    { rewrite Hwr. cbn [reconnecting_world calls]. rewrite Hca, Hwa.
      reflexivity. }
    assert (Hnr : now wr = now w + d1) by (rewrite Hwr, Hwa; reflexivity).
    assert (Hsr : streams wr = streams w) by (rewrite Hwr, Hwa; reflexivity).
    assert (HA : calls wr !! first = Some A0).
    { rewrite Hcr. apply lookup_app_l_Some, lookup_snoc. }
    assert (HB : calls wr !! second = Some B0).
    { rewrite Hcr. unfold second.
      replace (S (length (calls w))) with (length (calls w ++ [A0]))
        by (rewrite length_app; cbn; lia).
      apply lookup_snoc. }
    assert (Hwb : wb = exec (advance d2) wr) by reflexivity.
    destruct (advance_fires d2 wr first A0 (now w + RESUME_TIMEOUT) HA eq_refl
                ltac:(rewrite Hnr; lia)) as [HAb Hslot].
    assert (HBb : calls wb !! second = Some B0).
    { rewrite Hwb. apply advance_keeps; [exact HB|].
      intros due [= <-]. rewrite Hnr. lia. }
    assert (Hsb : _resumeResolver wb = None)
      by (rewrite Hwb; apply Hslot; reflexivity).
    assert (Hstb : streams wb = streams w).
    { rewrite Hwb. destruct (advance_frame d2 wr) as (_ & _ & _ & Hst & _).
      rewrite Hst. exact Hsr. }
    split; [rewrite Hwb; exact HAb|]. split; [exact HBb|].
    split; [exact Hsb|]. split; [apply handleStreamResuming_idle, Hsb|].
    intros d3 H23. cbn [run fold_left step].
    assert (Hnb : now wb = now w + d1 + d2).
    { rewrite Hwb, advance_now, Hnr. reflexivity. }
    destruct (advance_fires d3 wb second B0 (now w + d1 + RESUME_TIMEOUT) HBb
                eq_refl ltac:(rewrite Hnb; lia)) as [HBc _].
    split; [exact HBc|].
    destruct (advance_frame d3 wb) as (_ & _ & _ & Hst & _).
    rewrite Hst. exact Hstb.
Qed.

(** *** Cancelling *)

Lemma onAbort_active sid w s ag :
  streams w !! sid = Some s -> completed s = false ->
  agents w !! bound_agent s = Some ag -> send_error ag = None ->
  onAbort sid w
  = (Normal tt,
     mkWorld (<[bound_agent s := add_sent (cancel_frame (requestId s)) ag]>
                (agents w))
             (agent w)
             ((fun ids => ids ∖ {[requestId s]}) <$> activeRequestIds w)
             (_resumeResolver w)
             (<[sid := finished s (ctl_error abortError)]> (streams w))
             (calls w) (now w)).
Proof.
  intros Hs Hc Ha He. unfold onAbort, bind at 1, gets. rewrite Hs, Hc.
  unfold bind. rewrite try_send_eq.
  erewrite finish_active; [|wsimpl; exact Hs | exact Hc].
  unfold try_send. rewrite Ha, He. reflexivity.
Qed.

(** Once a stream has finished and its controller is no longer readable,
    cancelling it again does nothing to the connections or to what the
    consumer sees. *)
Lemma cancel_trigger_finished sid ev w s :
  cancel_trigger sid ev = true ->
  streams w !! sid = Some s -> completed s = true ->
  ctl_state (controller s) <> Readable ->
  agents (step w ev) = agents w
  /\ exists s', streams (step w ev) !! sid = Some s'
                /\ completed s' = true /\ controller s' = controller s.
Proof.
  intros Hev Hs Hc Hst.
  destruct ev as [| | | |sid'|sid'| | | | |]; try discriminate;
    cbn [cancel_trigger] in Hev; apply Nat.eqb_eq in Hev as ->; cbn [step].
  - assert (Heq : exec (abort_signal sid) w
                  = match abortSignal s with
                    | Some false =>
                        set_streams (alter (set_abortSignal (Some true)) sid) w
                    | _ => w
                    end).
    { unfold exec, abort_signal, bind at 1, gets. rewrite Hs.
      destruct (abortSignal s) as [[]|]; try reflexivity.
      unfold bind, update_stream, modify.
      erewrite onAbort_completed;
        [reflexivity
        |wsimpl; rewrite list_lookup_alter_eq, Hs; reflexivity | exact Hc]. }
    rewrite Heq. destruct (abortSignal s) as [[]|];
      try (split; [reflexivity | solve [eauto]]).
    wsimpl. split; [reflexivity|].
    rewrite list_lookup_alter_eq, Hs. eexists. split; [reflexivity|]. auto.
  - assert (Heq : exec (stream_cancel sid) w = w).
    { unfold exec, stream_cancel, bind at 1, gets. rewrite Hs.
      destruct (ctl_state (controller s)); try congruence; reflexivity. }
    rewrite Heq. eauto.
Qed.

Lemma run_cancel_triggers_finished sid more : forall w s,
  forallb (cancel_trigger sid) more = true ->
  streams w !! sid = Some s -> completed s = true ->
  ctl_state (controller s) <> Readable ->
  agents (run w more) = agents w
  /\ exists s', streams (run w more) !! sid = Some s'
                /\ completed s' = true /\ controller s' = controller s.
Proof.
  induction more as [|ev more IH]; intros w s Hall Hs Hc Hst; [cbn; eauto|].
  cbn [forallb] in Hall. apply andb_prop in Hall as [Hev Hall].
  destruct (cancel_trigger_finished sid ev w s Hev Hs Hc Hst)
    as (Ha & s1 & Hs1 & Hc1 & Hk1).
  destruct (IH (step w ev) s1 Hall Hs1 Hc1 ltac:(rewrite Hk1; exact Hst))
    as (Ha' & s' & Hs' & Hc' & Hk').
  cbn [run fold_left]. unfold run in Ha', Hs'. split; [congruence|].
  exists s'. split; [exact Hs'|]. split; [exact Hc' | congruence].
Qed.

(** C8 as the code has it. A stream that [sendMessages] has returned is
    cancelled before any chunk has come, and then cancelled again any
    number of times, by the caller's [abortSignal] or by [stream.cancel()].
    Exactly one CANCEL frame is sent, right after the request, and the
    controller is called exactly once, with the error named AbortError and
    not a stream error. If the first trigger is the [abortSignal], the
    consumer's read is rejected with that error. If the first trigger is
    [stream.cancel()], the stream has been closed before [onAbort] runs,
    the call with the error has no effect, and the consumer sees the
    stream closed. *)
Theorem cancel_before_first_chunk
    (w w1 : World) (rid : string) (options : SendOptions) (sid : nat)
    (ag : Agent) (more : list Event) :
  opt_abortSignal options <> Some true ->
  sendMessages rid options w = (Normal sid, w1) ->
  agents w !! agent w = Some ag ->
  forallb (cancel_trigger sid) more = true ->
  (err_name abortError = "AbortError"
   /\ forall fr, err_name (stream_error_of fr) = "Error")
  /\ (opt_abortSignal options = Some false ->
      let w2 := run w1 (EvAbortSignal sid :: more) in
      exists s ag2,
        streams w2 !! sid = Some s
        /\ consumer_view (controller s) = [Rejected abortError]
        /\ ctl_calls (controller s) = [CallError abortError]
        /\ agents w2 !! agent w = Some ag2
        /\ sent ag2 = sent ag ++ [request_frame rid options; cancel_frame rid])
  /\ (let w2 := run w1 (EvStreamCancel sid :: more) in
      exists s ag2,
        streams w2 !! sid = Some s
        /\ consumer_view (controller s) = [Done]
        /\ ctl_state (controller s) = Closed
        /\ ctl_calls (controller s) = [CallError abortError]
        /\ agents w2 !! agent w = Some ag2
        /\ sent ag2 = sent ag ++ [request_frame rid options; cancel_frame rid]).
Proof.
  intros Hsig Hsend Ha Hmore.
  destruct (sendMessages_returned _ _ _ _ _ Hsig Hsend)
    as (ag0 & Ha0 & He & -> & ->).
  rewrite Ha in Ha0. injection Ha0 as <-.
  set (sid := length (streams w)) in *.
  set (s0 := mkStream SendStream rid false fresh_controller false (agent w)
                      (opt_abortSignal options)).
  set (ag1 := mkAgent (sent ag ++ [request_frame rid options]) (send_error ag)
                      (listeners ag ++ [sid])).
  assert (Hlt : agent w < length (agents w))
    by (apply lookup_lt_Some in Ha; exact Ha).
  assert (Hs0 : streams (sent_world w rid options ag) !! sid = Some s0)
    by apply lookup_snoc.
  assert (Ha1 : agents (sent_world w rid options ag) !! agent w = Some ag1)
    by (apply list_lookup_insert_eq; exact Hlt).
  assert (Hsl : sid < length (streams (sent_world w rid options ag)))
    by (apply lookup_lt_Some in Hs0; exact Hs0).
  assert (Hlt' : agent w < length (agents (sent_world w rid options ag)))
    by (apply lookup_lt_Some in Ha1; exact Ha1).
  split; [split; reflexivity|]. split.
  - intros Hfalse. cbn zeta. cbn [run fold_left step].
    set (w2 := exec (abort_signal sid) (sent_world w rid options ag)).
    assert (Hw2 : exists w', w2 = w'
                  /\ agents w' !! agent w
                     = Some (add_sent (cancel_frame rid) ag1)
                  /\ streams w' !! sid
                     = Some (finished (set_abortSignal (Some true) s0)
                                      (ctl_error abortError))).
    { unfold w2, exec, abort_signal, bind at 1, gets. rewrite Hs0.
      cbn [abortSignal s0]. rewrite Hfalse. unfold bind, update_stream, modify.
      erewrite (onAbort_active _ _ (set_abortSignal (Some true) s0) ag1);
        [|wsimpl; rewrite list_lookup_alter_eq, Hs0; reflexivity
         |reflexivity | exact Ha1 | exact He].
      eexists. split; [reflexivity|].
      wsimpl. cbn [bound_agent set_abortSignal s0 requestId].
      split; [apply list_lookup_insert_eq; exact Hlt'|].
      apply list_lookup_insert_eq. rewrite length_alter. exact Hsl. }
    destruct Hw2 as (w' & Hw2 & Hag2 & Hst2). rewrite <- Hw2 in Hag2, Hst2.
    destruct (run_cancel_triggers_finished sid more w2 _ Hmore Hst2 eq_refl
                ltac:(discriminate)) as (Hagm & s' & Hs' & _ & Hk').
    exists s', (add_sent (cancel_frame rid) ag1).
    split; [exact Hs'|]. rewrite Hk'.
    split; [reflexivity|]. split; [reflexivity|].
    split; [unfold run in Hagm; rewrite Hagm; exact Hag2|].
    cbn [add_sent sent ag1]. rewrite <- app_assoc. reflexivity.
  - cbn zeta. cbn [run fold_left step].
    set (w2 := exec (stream_cancel sid) (sent_world w rid options ag)).
    set (s1 := set_controller (mkController Closed [] false []) s0).
    assert (Hw2 : exists w', w2 = w'
                  /\ agents w' !! agent w
                     = Some (add_sent (cancel_frame rid) ag1)
                  /\ streams w' !! sid
                     = Some (finished s1 (ctl_error abortError))).
    { unfold w2, exec, stream_cancel, bind at 1, gets. rewrite Hs0.
      cbn [controller s0 ctl_state fresh_controller kind source_cancel].
      unfold bind, update_stream, modify.
      erewrite (onAbort_active _ _ s1 ag1);
        [|wsimpl; rewrite list_lookup_alter_eq, Hs0; reflexivity
         |reflexivity | exact Ha1 | exact He].
      eexists. split; [reflexivity|].
      wsimpl. cbn [bound_agent s1 set_controller s0 requestId].
      split; [apply list_lookup_insert_eq; exact Hlt'|].
      apply list_lookup_insert_eq. rewrite length_alter. exact Hsl. }
    destruct Hw2 as (w' & Hw2 & Hag2 & Hst2). rewrite <- Hw2 in Hag2, Hst2.
    destruct (run_cancel_triggers_finished sid more w2 _ Hmore Hst2 eq_refl
                ltac:(discriminate)) as (Hagm & s' & Hs' & _ & Hk').
    exists s', (add_sent (cancel_frame rid) ag1).
    split; [exact Hs'|]. rewrite Hk'.
    split; [reflexivity|]. split; [reflexivity|]. split; [reflexivity|].
    split; [unfold run in Hagm; rewrite Hagm; exact Hag2|].
    cbn [add_sent sent ag1]. rewrite <- app_assoc. reflexivity.
Qed.

(** *** Every world the transport reaches is well formed *)

Lemma valid_resolver_spec w :
  valid_resolver w = true
  <-> forall cid, _resumeResolver w = Some cid ->
        exists c, calls w !! cid = Some c /\ resolved c = false.
Proof.
  unfold valid_resolver. split.
  - intros Hv cid Hr. rewrite Hr in Hv.
    destruct (calls w !! cid) as [c|]; [|discriminate].
    exists c. split; [reflexivity|]. apply negb_true_iff. exact Hv.
  - intros Hv. destruct (_resumeResolver w) as [cid|]; [|reflexivity].
    destruct (Hv cid eq_refl) as (c & -> & Hr). rewrite Hr. reflexivity.
Qed.

Lemma well_formed_spec w :
  well_formed w = true
  <-> agent w < length (agents w)
      /\ valid_resolver w = true /\ valid_listeners w = true.
Proof.
  unfold well_formed. rewrite !andb_true_iff, Nat.ltb_lt. tauto.
Qed.

Lemma control_op_well_formed w w' :
  control_op w w' -> well_formed w = true -> well_formed w' = true.
Proof.
  intros [] Hw. apply well_formed_spec in Hw as (Ha & Hr & Hl).
  apply well_formed_spec. split; [congruence|]. split; [|auto].
  unfold valid_resolver in *. rewrite co_resolver0, co_calls0. exact Hr.
Qed.

Lemma valid_resolver_run_timers n target : forall w,
  valid_resolver w = true ->
  valid_resolver (exec (run_timers n target) w) = true.
Proof.
  induction n as [|n IH]; intros w Hv; [exact Hv|].
  unfold exec. rewrite run_timers_S.
  destruct (next_timer target 0 (calls w)) as [[due k]|]; [|exact Hv].
  destruct (calls w !! k) as [c|] eqn:Hk; [|exact Hv].
  apply IH. apply valid_resolver_spec. rewrite valid_resolver_spec in Hv.
  cbn [fire_world set_now _resumeResolver calls].
  destruct (resolved c) eqn:Hr; [|discriminate].
  intros cid Hs. destruct (Hv cid Hs) as (c' & Hc' & Hr').
  exists c'. split; [|exact Hr'].
  rewrite list_lookup_insert_ne; [exact Hc'|]. intros ->. congruence.
Qed.

Lemma init_well_formed e ids : well_formed (init e ids) = true.
Proof. reflexivity. Qed.

Lemma step_well_formed w ev :
  well_formed w = true -> well_formed (step w ev) = true.
Proof.
  intros Hw.
  destruct ev as [rid o| |rid|a text|sid|sid|sid|dt|a|e|a e]; cbn [step].
  - apply (control_op_well_formed w); [apply control_op_sendMessages | exact Hw].
  - unfold exec. rewrite reconnectToStream_eq. cbn [snd].
    apply well_formed_spec in Hw as (Ha & Hr & Hl). apply well_formed_spec.
    cbn [reconnecting_world agent agents]. rewrite try_send_length.
    split; [exact Ha|]. split.
    + unfold valid_resolver. cbn [reconnecting_world _resumeResolver calls].
      rewrite lookup_snoc. reflexivity.
    + rewrite valid_listeners_spec in Hl |- *.
      cbn [reconnecting_world agents streams]. intros a ag' x Ha' Hx.
      apply try_send_listeners in Ha' as (ag & Hag & Hls & _).
      rewrite Hls in Hx. exact (Hl a ag x Hag Hx).
  - pose proof Hw as Hw0.
    apply well_formed_spec in Hw as (Ha & Hr & Hl).
    destruct (_resumeResolver w) as [cid|] eqn:Hs.
    + destruct (lookup_lt_is_Some_2 _ _ Ha) as [ag Hag].
      destruct (well_formed_resolver _ _ Hw0 Hs) as (c & Hc & Hres).
      destruct (send_error ag) as [e|] eqn:He.
      * unfold exec.
        rewrite (handleStreamResuming_send_fails _ _ _ _ _ Hs Hag He).
        exact Hw0.
      * unfold exec.
        rewrite (handleStreamResuming_ok _ _ _ _ _ Hs Hag He Hc Hres).
        cbn [snd]. apply well_formed_spec. unfold resumed_world. wsimpl.
        rewrite length_insert. split; [exact Ha|]. split; [reflexivity|].
        rewrite valid_listeners_spec in Hl |- *. wsimpl.
        intros a ag' x Ha' Hx. rewrite length_app. cbn [length].
        destruct (Nat.eq_dec (agent w) a) as [<-|Hne].
        -- rewrite list_lookup_insert_eq in Ha' by exact Ha.
           injection Ha' as <-. cbn [listeners] in Hx.
           apply elem_of_app in Hx as [Hx|Hx].
           ++ specialize (Hl _ _ _ Hag Hx). lia.
           ++ apply list_elem_of_singleton in Hx as ->. lia.
        -- rewrite list_lookup_insert_ne in Ha' by exact Hne.
           specialize (Hl _ _ _ Ha' Hx). lia.
    + unfold exec. rewrite (handleStreamResuming_idle _ _ Hs). exact Hw0.
  - apply (control_op_well_formed w); [apply control_op_dispatch | exact Hw].
  - apply (control_op_well_formed w); [|exact Hw].
    eapply stream_op_control_op, stream_op_abort_signal.
  - apply (control_op_well_formed w); [|exact Hw].
    eapply stream_op_control_op, stream_op_stream_cancel.
  - apply (control_op_well_formed w); [|exact Hw].
    eapply stream_op_control_op, stream_op_stream_read.
  - apply well_formed_spec in Hw as (Ha & Hr & Hl). apply well_formed_spec.
    unfold exec. rewrite advance_eq. cbn [snd].
    destruct (timer_op_run_timers (length (calls w)) (now w + dt) w)
      as [H1 H2 _ H4 _ _ _].
    unfold valid_listeners, valid_resolver in *. wsimpl.
    rewrite H1, H2, H4. split; [exact Ha|]. split; [|exact Hl].
    apply (valid_resolver_run_timers _ _ w Hr).
  - destruct (bool_decide_reflect (a < length (agents w))) as [Hlt|_];
      [|exact Hw].
    apply well_formed_spec in Hw as (Ha & Hr & Hl). apply well_formed_spec.
    auto.
  - apply well_formed_spec in Hw as (Ha & Hr & Hl). apply well_formed_spec.
    wsimpl. rewrite length_app. split; [lia|]. split; [exact Hr|].
    rewrite valid_listeners_spec in Hl |- *. wsimpl.
    intros a ag x Hag Hx. apply lookup_app_Some in Hag as [Hag|[_ Hag]].
    + exact (Hl _ _ _ Hag Hx).
    + destruct (a - length (agents w)) as [|n]; [|discriminate].
      injection Hag as <-. cbn in Hx. apply elem_of_nil in Hx. contradiction.
  - apply well_formed_spec in Hw as (Ha & Hr & Hl). apply well_formed_spec.
    wsimpl. rewrite length_alter. split; [exact Ha|]. split; [exact Hr|].
    rewrite valid_listeners_spec in Hl |- *. wsimpl.
    intros a' ag' x Hag' Hx. destruct (Nat.eq_dec a a') as [<-|Hne].
    + rewrite list_lookup_alter_eq in Hag'.
      destruct (agents w !! a) as [ag|] eqn:Hag; [|discriminate].
      injection Hag' as <-. exact (Hl _ _ _ Hag Hx).
    + rewrite list_lookup_alter_ne in Hag' by exact Hne.
      exact (Hl _ _ _ Hag' Hx).
Qed.

(** X3. Whatever happens to a transport after its construction, its world
    is well formed: the resolver slot is empty or holds the resolver of a
    call whose promise is still pending, every message listener on every
    connection belongs to a stream the transport has created, and the
    current connection exists. The hypothesis of the theorems above holds
    of every world the transport can be in. *)
Theorem reachable_well_formed e ids evs :
  well_formed (run (init e ids) evs) = true.
Proof.
  unfold run. generalize (init_well_formed e ids).
  generalize (init e ids). induction evs as [|ev evs IH]; intros w Hw;
    [exact Hw|].
  cbn [fold_left]. apply IH, step_well_formed, Hw.
Qed.

End FactsWithExternals.

(** *** The theorems at work on the mock connection *)

Import Fixture.

(** A text of the mock connection is a frame: by evaluation. *)
Ltac mock_frame :=
  eexists; split; [reflexivity|];
  split; [reflexivity|]; split; [reflexivity|]; split; [reflexivity|];
  split; eexists; split; reflexivity.

Lemma sendMessages_stream_delivers_in_order_witness :
  exists s,
    streams
      (run (exec (sendMessages "req-done" submit) fresh)
           (inbound 0 ([frame (stringify text_start) false;
                        frame (stringify text_delta) false]
                       ++ [frame "" true])
            ++ map (fun at_ => EvMessage (fst at_) (snd at_))
                   [(0, fst (frame (stringify text_start) false))]))
      !! 0 = Some s
    /\ completed s = true
    /\ consumer_view (controller s) = [Value text_start; Value text_delta; Done]
    /\ ctl_calls (controller s)
       = [CallEnqueue text_start; CallEnqueue text_delta; CallClose].
Proof.
  refine (_ (sendMessages_stream_delivers_in_order
               fresh (exec (sendMessages "req-done" submit) fresh)
               "req-done" submit 0
               [frame (stringify text_start) false;
                frame (stringify text_delta) false]
               (frame "" true)
               [(0, fst (frame (stringify text_start) false))]
               _ _ _ _ _ _)).
  - intros Hw. exact Hw.
  - reflexivity.
  - discriminate.
  - reflexivity.
  - repeat (constructor;
            [split; [split; [mock_frame | split; reflexivity] | reflexivity]|]).
    constructor.
  - split; [mock_frame | split; reflexivity].
  - reflexivity.
Defined.

Lemma blank_chunk_is_skipped_witness :
  carried (snd (frame "   " false)) = None
  /\ (rc_done (snd (frame "   " false)) = false ->
      forall w,
        (forall sid,
           onMessage sid (fst (frame "   " false)) w = (Normal tt, w))
        /\ (forall a, dispatch a (fst (frame "   " false)) w = (Normal tt, w))
        /\ (forall a evs,
              run w (EvMessage a (fst (frame "   " false)) :: evs) = run w evs)).
Proof.
  refine (let H := blank_chunk_is_skipped (fst (frame "   " false))
                     (snd (frame "   " false)) _ _ _ in
          conj (proj1 H) (proj1 (proj2 H))).
  - mock_frame.
  - reflexivity.
  - left. cbn.
    apply (ws_app [" "%char]); [reflexivity|].
    apply (ws_app [" "%char]); [reflexivity|].
    apply (ws_app [" "%char]); [reflexivity|].
    apply ws_nil.
Defined.

Lemma handleStreamResuming_hands_off_once_witness :
  let w := run fresh [EvReconnectToStream] in
  exists w',
    handleStreamResuming "req-1" w = (Normal true, w')
    /\ _resumeResolver w' = None
    /\ (exists ag',
          agents w' !! 0 = Some ag'
          /\ sent ag'
             = [resume_request_frame]
               ++ [stringify
                     (JObject
                        [("type", JString "cf_agent_stream_resume_ack");
                         ("id", JString "req-1")])])
    /\ streams w' !! 0
       = Some (mkStream ResumeStream "req-1" false fresh_controller false 0
                        None)
    /\ (forall rid', handleStreamResuming rid' w' = (Normal false, w')).
Proof.
  cbn zeta.
  destruct (proj2 handleStreamResuming_hands_off_once
              (run fresh [EvReconnectToStream]) "req-1" 0
              (mkAgent [resume_request_frame] None [])
              eq_refl eq_refl eq_refl eq_refl)
    as (w' & Hrun & Hslot & _ & _ & Hsent & _ & _ & Hstream & _ & Hlater).
  exists w'. split; [exact Hrun|]. split; [exact Hslot|].
  split; [exact Hsent|]. split; [exact Hstream | exact Hlater].
Defined.

Lemma resume_times_out_with_null_witness :
  let w2 := run (exec reconnectToStream fresh) [EvAdvance 5001] in
  calls w2 !! 0 = Some (mkCall true None (Some None))
  /\ _resumeResolver w2 = None
  /\ forall rid, handleStreamResuming rid w2 = (Normal false, w2).
Proof.
  cbn zeta.
  destruct (proj2 (proj2 (proj2 (proj2
              (resume_times_out_with_null fresh [EvAdvance 5001] eq_refl))))
              ltac:(vm_compute; lia))
    as [Hcall Hslot].
  split; [exact Hcall | exact (Hslot eq_refl)].
Defined.

Lemma latest_resume_call_wins_witness :
  exists wc,
    handleStreamResuming "req-sm"
      (run (run fresh [EvReconnectToStream; EvAdvance 0])
           [EvReconnectToStream; EvAdvance 0])
    = (Normal true, wc)
    /\ calls wc !! 1 = Some (mkCall true None (Some (Some 0)))
    /\ calls (run wc [EvAdvance 5001]) !! 0
       = Some (mkCall true None (Some None))
    /\ calls (run wc [EvAdvance 5001]) !! 1
       = Some (mkCall true None (Some (Some 0))).
Proof.
  destruct (latest_resume_call_wins fresh (mkAgent [] None []) "req-sm"
              0 0 5001 eq_refl eq_refl eq_refl)
    as (wc & _ & _ & _ & Hrun & _ & Hsecond & _ & _ & _ & Hlate).
  - vm_compute. lia.
  - vm_compute. lia.
  - exists wc. split; [exact Hrun|]. split; [exact Hsecond|].
    destruct Hlate as (_ & Hfirst & Hsecond' & _).
    split; [exact Hfirst | exact Hsecond'].
Defined.

Lemma one_notification_after_two_resume_calls_witness :
  let wa := run fresh [EvReconnectToStream; EvAdvance 1000] in
  let wb := run wa [EvReconnectToStream; EvAdvance 4000] in
  _resumeResolver (step wa EvReconnectToStream) = Some 1
  /\ calls wb !! 0 = Some (mkCall true None (Some None))
  /\ calls wb !! 1 = Some (mkCall false (Some (0 + 1000 + RESUME_TIMEOUT)) None)
  /\ _resumeResolver wb = None
  /\ handleStreamResuming "req-sm" wb = (Normal false, wb)
  /\ calls (run wb [EvAdvance 1000]) !! 1
     = Some (mkCall true None (Some None))
  /\ streams (run wb [EvAdvance 1000]) = [].
Proof.
  cbn zeta.
  destruct (one_notification_after_two_resume_calls fresh (mkAgent [] None [])
              "req-sm" 1000 4000 eq_refl eq_refl eq_refl)
    as (_ & Hover & _ & Hlate); try (vm_compute; lia).
  destruct Hlate as (Hfirst & Hsecond & Hslot & Hoff & Hend);
    [vm_compute; lia|].
  destruct (Hend 1000 ltac:(vm_compute; lia)) as [Hnull Hnone].
  split; [exact Hover|]. split; [exact Hfirst|]. split; [exact Hsecond|].
  split; [exact Hslot|]. split; [exact Hoff|].
  split; [exact Hnull | exact Hnone].
Defined.

Lemma resume_binds_connection_at_hand_off_witness :
  let w := run fresh [EvNewAgent None] in
  exists w3,
    handleStreamResuming "req-swap"
      (step (exec reconnectToStream w) (EvSetAgent 1))
    = (Normal true, w3)
    /\ agents w3 !! 1
       = Some (mkAgent [resume_ack_frame "req-swap"] None [0])
    /\ streams w3 !! 0 = Some (resumed_stream "req-swap" 1).
Proof.
  cbn zeta.
  destruct (resume_binds_connection_at_hand_off
              (run fresh [EvNewAgent None]) "req-swap" 1 (mkAgent [] None [])
              eq_refl ltac:(discriminate) eq_refl eq_refl)
    as (w3 & Hrun & _ & Hnew & _ & _ & Hstream & _).
  exists w3. split; [exact Hrun|]. split; [exact Hnew | exact Hstream].
Defined.

Lemma cancel_before_first_chunk_witness :
  let w1 := exec (sendMessages "req-1" submit_with_signal) fresh in
  let w2 := run w1 [EvAbortSignal 0; EvStreamCancel 0; EvAbortSignal 0] in
  exists s ag2,
    streams w2 !! 0 = Some s
    /\ consumer_view (controller s) = [Rejected abortError]
    /\ ctl_calls (controller s) = [CallError abortError]
    /\ agents w2 !! 0 = Some ag2
    /\ sent ag2 = [request_frame "req-1" submit_with_signal;
                   cancel_frame "req-1"].
Proof.
  cbn zeta.
  apply (proj1 (proj2
           (cancel_before_first_chunk
              fresh (exec (sendMessages "req-1" submit_with_signal) fresh)
              "req-1" submit_with_signal 0 (mkAgent [] None [])
              [EvStreamCancel 0; EvAbortSignal 0]
              ltac:(discriminate) eq_refl eq_refl eq_refl))).
  reflexivity.
Defined.

(** The claim C8 at [stream.cancel()]: the consumer cancels the stream of
    a request before any chunk has come. One CANCEL frame is sent and the
    controller is handed the abort error once, but the stream is closed by
    then: what the consumer reads is the end of the stream, not a
    rejection with the error named AbortError. *)
Lemma stream_cancel_first_closes_stream :
  let w1 := exec (sendMessages "req-1" submit) fresh in
  let w2 := run w1 [EvStreamCancel 0] in
  result (sendMessages "req-1" submit) fresh = Normal 0
  /\ (sent <$> agents w2 !! 0)
     = Some [request_frame "req-1" submit; cancel_frame "req-1"]
  /\ ((fun s => ctl_calls (controller s)) <$> streams w2 !! 0)
     = Some [CallError abortError]
  /\ ((fun s => ctl_state (controller s)) <$> streams w2 !! 0) = Some Closed
  /\ ((fun s => consumer_view (controller s)) <$> streams w2 !! 0)
     = Some [Done]
  /\ [Done] <> [Rejected abortError].
Proof. vm_compute. repeat split. discriminate. Qed.

(** A resume call that was superseded still empties the resolver slot at
    its own timeout: [done] sets [_resumeResolver] to [null] whichever call
    the slot holds. Here the second call is pending and its resolver is
    gone; the hand-off that comes before the second call's own timeout
    returns [false]. *)
Remark superseded_timeout_empties_slot :
  let w := run fresh [EvReconnectToStream; EvAdvance 1000;
                      EvReconnectToStream; EvAdvance 4000] in
  calls w !! 0 = Some (mkCall true None (Some None))
  /\ calls w !! 1 = Some (mkCall false (Some 6000) None)
  /\ _resumeResolver w = None
  /\ handleStreamResuming "req-late" w = (Normal false, w).
Proof. vm_compute. repeat split. Qed.

(** The failing input of C9: the resume was requested on a connection
    that is closed. The throw of the RESUME_REQUEST is swallowed; at the
    hand-off the throw of the RESUME_ACK reaches the caller, the
    identifier is already marked active, no stream exists, and the call
    stays pending in the resolver slot. *)
Lemma resume_ack_throw_reaches_caller :
  let w := run fresh_closed [EvReconnectToStream] in
  let r := handleStreamResuming "req-1" w in
  result reconnectToStream fresh_closed = Normal 0
  /\ fst r = Throw closed_error
  /\ _resumeResolver (snd r) = Some 0
  /\ streams (snd r) = []
  /\ calls (snd r) !! 0 = Some (mkCall false (Some 5000) None)
  /\ activeRequestIds (snd r) = Some {["req-1"]}.
Proof. vm_compute. repeat split. Qed.

End TransportFacts.

(** ** The life of a stream and of a resume call: theorems *)

Module LifecycleFacts.
Import JS Transport Lifecycle TransportFacts.
Local Open Scope js_scope.

Section FactsWithExternals.
Context `{Externals}.

(** *** Messages that no listener acts on *)

Lemma run_listeners_ignored ls text :
  (forall sid w, onMessage sid text w = (Normal tt, w)) ->
  forall w, run_listeners ls text w = (Normal tt, w).
Proof.
  intros Hign w. induction ls as [|x rest IH]; [reflexivity|].
  cbn [run_listeners]. unfold bind at 1.
  assert (Hx : listener_run x text w = (Normal tt, w)).
  { unfold listener_run, bind, gets.
    destruct (streams w !! x) as [s|]; [|reflexivity].
    destruct (signal_aborted s); [reflexivity | apply Hign]. }
  rewrite Hx. exact IH.
Qed.

Lemma dispatch_ignored a text :
  (forall sid w, onMessage sid text w = (Normal tt, w)) ->
  forall w, dispatch a text w = (Normal tt, w).
Proof.
  intros Hign w. unfold dispatch, bind, gets.
  destruct (agents w !! a) as [ag|]; [|reflexivity].
  apply run_listeners_ignored, Hign.
Qed.

Lemma onMessage_not_response sid text w :
  is_response text = false -> onMessage sid text w = (Normal tt, w).
Proof.
  unfold is_response, onMessage, bind, gets, try_catch, lift, throw, ret.
  intros Hr. destruct (streams w !! sid) as [s|]; [|reflexivity].
  destruct (JSON_parse text) as [data|]; [|reflexivity].
  destruct (get_prop data "type") as [ty|e]; [|reflexivity].
  rewrite Hr. reflexivity.
Qed.

(** X5. A message that is not a RESPONSE_CHUNK frame (its text is not
    JSON, or parses to [null], or to a value whose [type] is not that of a
    response) is ignored by every listener of every stream: the message
    event leaves the transport, its streams and its connections exactly as
    they were, and what follows runs as if the message had not come. *)
Theorem messages_of_other_types_are_ignored (text : string) :
  is_response text = false ->
  forall w,
    (forall sid, onMessage sid text w = (Normal tt, w))
    /\ (forall a, dispatch a text w = (Normal tt, w))
    /\ (forall a evs, run w (EvMessage a text :: evs) = run w evs).
Proof.
  intros Hr w.
  assert (Hign : forall sid w', onMessage sid text w' = (Normal tt, w'))
    by (intros sid w'; apply onMessage_not_response, Hr).
  split; [intros sid; apply Hign|]. split.
  - intros a. apply dispatch_ignored, Hign.
  - intros a evs. cbn [run fold_left step]. unfold exec.
    rewrite (dispatch_ignored a text Hign). reflexivity.
Qed.

(** *** A body that is not a string *)

Lemma onMessage_malformed_body sid text l err body w :
  JSON_parse text = Some (JObject l) ->
  assoc "error" l = err -> truthy_prop err = false ->
  assoc "body" l = Some body -> textual body = false ->
  onMessage sid text w = (Normal tt, w).
Proof.
  intros Hp He Hte Hb Ht.
  unfold onMessage, bind at 1, gets.
  destruct (streams w !! sid) as [s|]; [|reflexivity].
  rewrite Hp. unfold try_catch, bind, lift, ret. cbn [get_prop].
  destruct (negb (is_string (assoc "type" l) _)); [reflexivity|].
  destruct (negb (is_string (assoc "id" l) _)); [reflexivity|].
  rewrite He, Hte, Hb.
  destruct body; try discriminate; reflexivity.
Qed.

(** X15. A RESPONSE_CHUNK frame not marked as an error whose [body] is
    neither a string nor [null] (a number, a boolean, an array, an object)
    is dropped as a whole: [trim] cannot be called on such a body, the
    throw is caught by the listener, and the [done] flag of the frame is
    never looked at. Whatever its [id] and its [done], the message event
    changes nothing. *)
Theorem frame_with_malformed_body_is_dropped
    (text : string) (l : list (string * JSON)) (body : JSON) :
  JSON_parse text = Some (JObject l) ->
  truthy_prop (assoc "error" l) = false ->
  assoc "body" l = Some body -> textual body = false ->
  forall w,
    (forall sid, onMessage sid text w = (Normal tt, w))
    /\ (forall a, dispatch a text w = (Normal tt, w))
    /\ (forall a evs, run w (EvMessage a text :: evs) = run w evs).
Proof.
  intros Hp He Hb Ht w.
  assert (Hign : forall sid w', onMessage sid text w' = (Normal tt, w'))
    by (intros sid w'; eapply onMessage_malformed_body; eauto).
  split; [intros sid; apply Hign|]. split.
  - intros a. apply dispatch_ignored, Hign.
  - intros a evs. cbn [run fold_left step]. unfold exec.
    rewrite (dispatch_ignored a text Hign). reflexivity.
Qed.

(** *** Frames of other requests *)

Lemma receive_other fr s :
  rc_id fr <> requestId s -> receive fr s = s.
Proof.
  intros Hne. unfold receive.
  destruct (String.eqb_spec (rc_id fr) (requestId s)); [congruence|reflexivity].
Qed.

Lemma receive_all_other ls sid fr s :
  rc_id fr <> requestId s -> receive_all ls sid fr s = s.
Proof.
  intros Hne. induction ls as [|x rest IH]; [reflexivity|].
  cbn [receive_all]. rewrite receive_other by exact Hne.
  destruct (Nat.eqb x sid); [destruct (signal_aborted s)|]; exact IH.
Qed.

Lemma dispatch_other_request a text fr w sid s :
  frame_text text fr -> rc_id fr <> requestId s ->
  streams w !! sid = Some s ->
  streams (exec (dispatch a text) w) !! sid = Some s.
Proof.
  intros Hp Hne Hs. unfold exec, dispatch, bind, gets.
  destruct (agents w !! a) as [ag|]; [|exact Hs].
  change (snd ?x) with (exec (run_listeners (listeners ag) text) w).
  rewrite (run_listeners_frame_at _ sid _ _ Hp _ _ Hs).
  rewrite receive_all_other by exact Hne. reflexivity.
Qed.

(** X6. A stream reacts only to frames that carry its own request
    identifier: frames addressed to other requests, whatever they hold
    (chunks, [done], [error]) and on whatever connection they come, leave
    the stream, its queue and its controller as they were. Streams of
    several requests can share one connection. *)
Theorem frames_of_other_requests_leave_stream
    (a : nat) (sid : nat) (s : Stream) (frames : list (string * ResponseChunk)) :
  Forall (fun tf => frame_text (fst tf) (snd tf)
                    /\ rc_id (snd tf) <> requestId s) frames ->
  forall w,
    streams w !! sid = Some s ->
    streams (run w (inbound a frames)) !! sid = Some s.
Proof.
  intros Hfs. induction Hfs as [|tf frames [Hp Hne] _ IH]; intros w Hs;
    [exact Hs|].
  cbn [inbound map run fold_left step]. apply IH.
  apply (dispatch_other_request _ _ _ _ _ _ Hp Hne Hs).
Qed.

(** *** What a listener can do to its stream *)

(** Whatever the text of a message, [onMessage] does one of three things:
    nothing, [finish] with an error, or the delivery of a chunk and a
    [done] flag. *)
Lemma onMessage_cases sid text w :
  onMessage sid text w = (Normal tt, w)
  \/ (exists e, onMessage sid text w = finish sid (ctl_error e) w)
  \/ (exists fr, onMessage sid text w = deliver sid fr w).
Proof.
  set (r := onMessage sid text w).
  assert (Hr : r = onMessage sid text w) by reflexivity. clearbody r.
  unfold onMessage, bind at 1, gets in Hr.
  destruct (streams w !! sid) as [s|] eqn:Hs; [|left; exact Hr].
  assert (Hcatch : forall m r : M unit, total r -> m w = r w ->
            try_catch m (ret tt) w = r w).
  { intros m r' Hr' Hm. unfold try_catch. rewrite Hm.
    destruct (Hr' w) as [[] Ha]. destruct (r' w) as [[[]|e] w']; simpl in Ha;
      [reflexivity | discriminate]. }
  destruct (JSON_parse text) as [data|]; [|left; exact Hr].
  destruct data as [|b|z|str|arr|l];
    try (left; rewrite Hr; unfold try_catch, bind, lift;
         cbn [get_prop is_string negb]; reflexivity).
  destruct (is_string (assoc "type" l) (wire CF_AGENT_USE_CHAT_RESPONSE))
    eqn:Hty;
    [|left; rewrite Hr; unfold try_catch, bind, lift; cbn [get_prop];
      rewrite Hty; reflexivity].
  destruct (is_string (assoc "id" l) (requestId s)) eqn:Hid;
    [|left; rewrite Hr; unfold try_catch, bind, lift; cbn [get_prop];
      rewrite Hty, Hid; reflexivity].
  destruct (truthy_prop (assoc "error" l)) eqn:Herr.
  { right. left. eexists. rewrite Hr. apply Hcatch; [apply finish_total|].
    unfold bind, lift. cbn [get_prop]. rewrite Hty, Hid, Herr. reflexivity. }
  assert (Hempty : r = deliver sid
            (mkChunk (requestId s) "" (truthy_prop (assoc "done" l)) None None) w
            -> r = (Normal tt, w)
               \/ (exists e, r = finish sid (ctl_error e) w)
               \/ (exists fr, r = deliver sid fr w)) by eauto.
  destruct (assoc "body" l) as [body|] eqn:Hbody.
  - destruct (textual body) eqn:Ht.
    + destruct body as [| | |b| |]; try discriminate.
      * apply Hempty. rewrite Hr.
        apply Hcatch; [apply deliver_total|].
        unfold bind, lift. cbn [get_prop]. rewrite Hty, Hid, Herr, Hbody.
        reflexivity.
      * right. right.
        exists (mkChunk (requestId s) b (truthy_prop (assoc "done" l)) None None).
        rewrite Hr. apply Hcatch; [apply deliver_total|].
        unfold bind at 1 2 3 4, lift. cbn [get_prop].
        rewrite Hty, Hid, Herr. cbn [negb].
        unfold bind at 1. rewrite Hbody. unfold bind at 1. cbn [body_trim].
        unfold deliver, carried, bind at 1 3. cbn [rc_body rc_done].
        destruct (String.eqb (trim b) "") eqn:Et; cbn [negb].
        -- reflexivity.
        -- unfold parse_and_enqueue.
           destruct (JSON_parse b) as [chunk|]; unfold try_catch.
           ++ destruct (on_controller sid (ctl_enqueue chunk) w) as [[[]|e] w'];
                reflexivity.
           ++ reflexivity.
    + left. rewrite Hr. unfold try_catch, bind, lift. cbn [get_prop].
      rewrite Hty, Hid, Herr, Hbody. cbn [negb].
      destruct body; try discriminate; reflexivity.
  - apply Hempty. rewrite Hr.
    apply Hcatch; [apply deliver_total|].
    unfold bind, lift. cbn [get_prop]. rewrite Hty, Hid, Herr, Hbody.
    reflexivity.
Qed.

(** *** Streams stay consistent *)

Lemma stream_consistent_spec s :
  stream_consistent s = true
  <-> signal_aborted s = completed s
      /\ canCloseOrEnqueue (controller s) = negb (completed s)
      /\ calls_in_order (completed s) (ctl_calls (controller s)) = true.
Proof.
  unfold stream_consistent. rewrite !andb_true_iff, !Bool.eqb_true_iff. tauto.
Qed.

Lemma streams_consistent_spec w :
  streams_consistent w = true
  <-> forall sid s, streams w !! sid = Some s -> stream_consistent s = true.
Proof.
  unfold streams_consistent. rewrite forallb_forall. split.
  - intros Hall sid s Hs. apply Hall.
    apply list_elem_of_In, (list_elem_of_lookup_2 _ sid). exact Hs.
  - intros Hall s Hin. apply list_elem_of_In, list_elem_of_lookup_1 in Hin.
    destruct Hin as [sid Hs]. exact (Hall sid s Hs).
Qed.

Lemma calls_in_order_enqueue l chunk :
  calls_in_order false l = true ->
  calls_in_order false (l ++ [CallEnqueue chunk]) = true.
Proof.
  induction l as [|[c| |e] l IH]; cbn; intros Hl; try discriminate; auto.
Qed.

Lemma calls_in_order_terminal l c :
  calls_in_order false l = true ->
  calls_in_order true (l ++ [c]) = true.
Proof.
  intros Hl. induction l as [|[x| |e] l IH]; cbn in *; try discriminate;
    auto.
  destruct c; reflexivity.
Qed.

Lemma calls_in_order_finished l :
  calls_in_order false l = true -> calls_in_order true l = true.
Proof.
  induction l as [|[x| |e] l IH]; cbn; intros Hl; try discriminate; auto.
Qed.

(** An unfinished consistent stream has a readable controller on which no
    close was requested, and only [enqueue] has been called on it. *)
Lemma consistent_unfinished s :
  stream_consistent s = true -> completed s = false ->
  signal_aborted s = false
  /\ ctl_state (controller s) = Readable
  /\ ctl_closeRequested (controller s) = false
  /\ calls_in_order false (ctl_calls (controller s)) = true.
Proof.
  intros Hs Hc. apply stream_consistent_spec in Hs as (Hsig & Hcan & Hord).
  rewrite Hc in *. split; [exact Hsig|].
  unfold canCloseOrEnqueue in Hcan. cbn [negb] in Hcan.
  apply andb_true_iff in Hcan as [Hcr Hst].
  split; [destruct (ctl_state (controller s)); try discriminate; reflexivity|].
  split; [destruct (ctl_closeRequested (controller s)); try discriminate;
          reflexivity | exact Hord].
Qed.

Lemma consistent_finish_stream action s :
  action = ctl_close \/ (exists e, action = ctl_error e) ->
  stream_consistent s = true ->
  stream_consistent (finish_stream action s) = true.
Proof.
  intros Ha Hs. unfold finish_stream.
  destruct (completed s) eqn:Hc; [exact Hs|].
  destruct (consistent_unfinished s Hs Hc) as (_ & Hst & Hcr & Hord).
  apply stream_consistent_spec. unfold finished.
  cbn [signal_aborted completed controller]. split; [reflexivity|].
  destruct (controller s) as [st q cr log]. cbn in Hst, Hcr, Hord. subst st cr.
  destruct Ha as [->|[e ->]].
  - unfold ctl_close, canCloseOrEnqueue. cbn.
    split; [destruct q; reflexivity|].
    apply calls_in_order_terminal. exact Hord.
  - cbn. split; [reflexivity|].
    apply calls_in_order_terminal. exact Hord.
Qed.

Lemma consistent_deliver_stream fr s :
  stream_consistent s = true -> completed s = false ->
  stream_consistent (deliver_stream fr s) = true.
Proof.
  intros Hs Hc. unfold deliver_stream.
  assert (H1 : stream_consistent
                 match carried fr with
                 | Some chunk =>
                     set_controller (snd (ctl_enqueue chunk (controller s))) s
                 | None => s
                 end = true).
  { destruct (carried fr) as [chunk|]; [|exact Hs].
    destruct (consistent_unfinished s Hs Hc) as (Hsig & Hst & Hcr & Hord).
    apply stream_consistent_spec.
    cbn [set_controller signal_aborted completed controller].
    rewrite Hsig, Hc. split; [reflexivity|].
    destruct (controller s) as [st q cr log]. cbn in Hst, Hcr, Hord.
    subst st cr. cbn. split; [reflexivity|].
    apply calls_in_order_enqueue. exact Hord. }
  destruct (rc_done fr); [|exact H1].
  apply consistent_finish_stream; [left; reflexivity | exact H1].
Qed.

Lemma consistent_cancelled s :
  stream_consistent s = true -> stream_consistent (cancelled s) = true.
Proof.
  intros Hs. unfold cancelled.
  destruct (ctl_state (controller s)) eqn:Hst; try exact Hs.
  unfold finish_stream. cbn [set_controller completed].
  destruct (completed s) eqn:Hc.
  - apply stream_consistent_spec in Hs as (Hsig & Hcan & Hord).
    apply stream_consistent_spec.
    cbn [set_controller signal_aborted completed controller ctl_calls].
    rewrite Hc in *. split; [exact Hsig|]. split; [|exact Hord].
    unfold canCloseOrEnqueue. cbn. apply andb_false_r.
  - destruct (consistent_unfinished s Hs Hc) as (_ & _ & Hcr & Hord).
    apply stream_consistent_spec. unfold finished.
    cbn [set_controller signal_aborted completed controller kind].
    split; [reflexivity|]. rewrite Hcr.
    destruct (kind s); cbn.
    + split; [reflexivity|].
      apply calls_in_order_terminal. exact Hord.
    + split; [reflexivity|]. apply calls_in_order_finished. exact Hord.
Qed.

Lemma consistent_read s :
  stream_consistent s = true ->
  stream_consistent (set_controller (snd (ctl_read (controller s))) s) = true.
Proof.
  intros Hs. apply stream_consistent_spec in Hs as (Hsig & Hcan & Hord).
  apply stream_consistent_spec.
  cbn [set_controller signal_aborted completed controller].
  split; [exact Hsig|].
  destruct (controller s) as [st q cr log]. unfold ctl_read, canCloseOrEnqueue in *.
  cbn in *. destruct st; cbn; try (split; assumption).
  destruct q as [|c q]; cbn; [split; assumption|].
  split; [|exact Hord]. rewrite <- Hcan.
  destruct cr; [reflexivity|]. destruct q; reflexivity.
Qed.

Lemma consistent_set_abortSignal o s :
  stream_consistent s = true ->
  stream_consistent (set_abortSignal o s) = true.
Proof. intros Hs. exact Hs. Qed.

Lemma keeps_consistent_refl w : keeps_consistent w w.
Proof. intros Hw. exact Hw. Qed.

Lemma keeps_consistent_trans w1 w2 w3 :
  keeps_consistent w1 w2 -> keeps_consistent w2 w3 -> keeps_consistent w1 w3.
Proof. unfold keeps_consistent. auto. Qed.

Lemma same_streams_refl w : same_streams w w.
Proof. reflexivity. Qed.

Lemma same_streams_trans w1 w2 w3 :
  same_streams w1 w2 -> same_streams w2 w3 -> same_streams w1 w3.
Proof. unfold same_streams. congruence. Qed.

Lemma same_streams_keeps w w' : same_streams w w' -> keeps_consistent w w'.
Proof. unfold same_streams, keeps_consistent, streams_consistent. intros ->. auto. Qed.

Lemma same_streams_modify f :
  (forall w, streams (f w) = streams w) -> preserves same_streams (modify f).
Proof. intros Hf w. apply Hf. Qed.

Lemma same_streams_agent_send a data : preserves same_streams (agent_send a data).
Proof.
  intros w. unfold agent_send, same_streams.
  destruct (agents w !! a) as [ag|]; [|reflexivity].
  destruct (send_error ag); reflexivity.
Qed.

Lemma same_streams_addEventListener a sid :
  preserves same_streams (addEventListener a sid).
Proof.
  intros w. unfold addEventListener, same_streams.
  destruct (streams w !! sid) as [s|]; [|reflexivity].
  destruct (signal_aborted s); reflexivity.
Qed.

Lemma same_streams_new_call c : preserves same_streams (new_call c).
Proof. intros w. reflexivity. Qed.

(** The steps of a computation that leaves the streams alone. *)
Ltac same_streams_steps :=
  repeat first
    [ apply (preserves_ret _ same_streams_refl)
    | apply (preserves_throw _ same_streams_refl)
    | apply (preserves_gets _ same_streams_refl)
    | apply (preserves_lift _ same_streams_refl)
    | apply same_streams_agent_send
    | apply same_streams_addEventListener
    | apply same_streams_new_call
    | apply same_streams_modify; intros ?; reflexivity
    | apply (preserves_bind _ same_streams_trans); [|intros ?]
    | apply (preserves_try_catch _ same_streams_trans)
    | match goal with
      | |- preserves _ (match ?x with _ => _ end) => destruct x
      | |- preserves _ (if ?x then _ else _) => destruct x
      end ].

Lemma same_streams_done cid value : preserves same_streams (done cid value).
Proof. unfold done, update_call. same_streams_steps. Qed.

Lemma same_streams_reconnectToStream : preserves same_streams reconnectToStream.
Proof. unfold reconnectToStream, update_call. same_streams_steps. Qed.

Lemma same_streams_advance dt : preserves same_streams (advance dt).
Proof.
  intros w. destruct (advance_frame dt w) as (_ & _ & _ & Hs & _). exact Hs.
Qed.

Lemma keeps_of_same {A : Type} (m : M A) :
  preserves same_streams m -> preserves keeps_consistent m.
Proof. intros Hm w. apply same_streams_keeps, Hm. Qed.

(** A closure of stream [sid] keeps the streams consistent if it keeps
    stream [sid] so. *)
Lemma keeps_consistent_at sid w w' :
  stream_op sid w w' ->
  (forall s s', streams w !! sid = Some s -> streams w' !! sid = Some s' ->
     stream_consistent s = true -> stream_consistent s' = true) ->
  keeps_consistent w w'.
Proof.
  intros Hop Hat Hw. rewrite streams_consistent_spec in Hw |- *.
  intros sid' s' Hs'. destruct (Nat.eq_dec sid' sid) as [->|Hne].
  - destruct (streams w !! sid) as [s|] eqn:Hs.
    + exact (Hat s s' eq_refl Hs' (Hw _ _ Hs)).
    + exfalso. apply lookup_ge_None in Hs. apply lookup_lt_Some in Hs'.
      rewrite (so_streams_length _ _ _ Hop) in Hs'. lia.
  - rewrite (so_others _ _ _ Hop) in Hs' by exact Hne. exact (Hw _ _ Hs').
Qed.

Lemma keeps_consistent_finish sid action :
  action = ctl_close \/ (exists e, action = ctl_error e) ->
  preserves keeps_consistent (finish sid action).
Proof.
  intros Ha w. destruct (msg_op_finish sid action w) as [Hop _].
  apply (keeps_consistent_at sid); [exact Hop|].
  intros s s' Hs Hs' Hc.
  change (snd (finish sid action w)) with (exec (finish sid action) w) in Hs'.
  rewrite (finish_stream_at _ _ _ _ Hs) in Hs'. injection Hs' as <-.
  apply consistent_finish_stream; assumption.
Qed.

Lemma keeps_consistent_listener_run x text :
  preserves keeps_consistent (listener_run x text).
Proof.
  intros w. destruct (msg_op_listener_run x text w) as [Hop _].
  apply (keeps_consistent_at x); [exact Hop|].
  intros s s' Hs Hs' Hc. revert Hs'.
  unfold listener_run, bind, gets. rewrite Hs.
  destruct (signal_aborted s) eqn:Hsig; [cbn; congruence|].
  assert (Hcomp : completed s = false).
  { apply stream_consistent_spec in Hc as (Hc & _). congruence. }
  destruct (onMessage_cases x text w) as [Hm|[[e Hm]|[fr Hm]]]; rewrite Hm.
  - cbn. congruence.
  - change (snd (finish x (ctl_error e) w))
      with (exec (finish x (ctl_error e)) w).
    rewrite (finish_stream_at _ _ _ _ Hs). intros [= <-].
    apply consistent_finish_stream; eauto.
  - change (snd (deliver x fr w)) with (exec (deliver x fr) w).
    rewrite (deliver_stream_at _ _ _ _ Hs). intros [= <-].
    apply consistent_deliver_stream; assumption.
Qed.

Lemma keeps_consistent_dispatch a text :
  preserves keeps_consistent (dispatch a text).
Proof.
  unfold dispatch.
  apply (preserves_bind _ keeps_consistent_trans);
    [apply (preserves_gets _ keeps_consistent_refl)|].
  intros [ag|]; [|apply (preserves_ret _ keeps_consistent_refl)].
  induction (listeners ag) as [|x rest IH];
    [apply (preserves_ret _ keeps_consistent_refl)|].
  cbn [run_listeners].
  apply (preserves_bind _ keeps_consistent_trans);
    [apply keeps_consistent_listener_run | intros _; exact IH].
Qed.

Lemma keeps_consistent_onAbort sid : preserves keeps_consistent (onAbort sid).
Proof.
  unfold onAbort.
  apply (preserves_bind _ keeps_consistent_trans);
    [apply (preserves_gets _ keeps_consistent_refl)|].
  intros [s|]; [|apply (preserves_ret _ keeps_consistent_refl)].
  destruct (completed s); [apply (preserves_ret _ keeps_consistent_refl)|].
  apply (preserves_bind _ keeps_consistent_trans).
  - apply keeps_of_same. same_streams_steps.
  - intros _. apply keeps_consistent_finish. eauto.
Qed.

(** *** The closures of the sending side, seen from their stream *)

Lemma onAbort_stream_at sid w s :
  streams w !! sid = Some s ->
  streams (exec (onAbort sid) w) !! sid
  = Some (finish_stream (ctl_error abortError) s).
Proof.
  intros Hs. unfold exec, onAbort, bind at 1, gets. rewrite Hs.
  unfold finish_stream. destruct (completed s) eqn:Hc; [exact Hs|].
  unfold bind. rewrite try_send_eq.
  set (w1 := set_agents _ w).
  change (snd (finish sid (ctl_error abortError) w1))
    with (exec (finish sid (ctl_error abortError)) w1).
  rewrite (finish_stream_at _ _ w1 s) by exact Hs.
  unfold finish_stream. rewrite Hc. reflexivity.
Qed.

Lemma stream_cancel_at sid w s :
  streams w !! sid = Some s ->
  streams (exec (stream_cancel sid) w) !! sid = Some (cancelled s).
Proof.
  intros Hs. unfold exec, stream_cancel, bind at 1, gets. rewrite Hs.
  unfold cancelled.
  destruct (ctl_state (controller s)) eqn:Hst; try exact Hs.
  unfold bind, update_stream, modify.
  set (s1 := set_controller _ s). set (w1 := set_streams _ w).
  assert (Hs1 : streams w1 !! sid = Some s1).
  { unfold w1. wsimpl. rewrite list_lookup_alter_eq, Hs. reflexivity. }
  destruct (kind s) eqn:Hk; cbn [source_cancel cancel_action].
  - apply (onAbort_stream_at _ _ _ Hs1).
  - apply (finish_stream_at _ _ _ _ Hs1).
Qed.

Lemma abort_signal_at sid w s :
  streams w !! sid = Some s ->
  streams (exec (abort_signal sid) w) !! sid = Some (signalled s).
Proof.
  intros Hs. unfold exec, abort_signal, bind at 1, gets. rewrite Hs.
  unfold signalled. destruct (abortSignal s) as [[]|]; try exact Hs.
  unfold bind, update_stream, modify.
  apply onAbort_stream_at. wsimpl. rewrite list_lookup_alter_eq, Hs.
  reflexivity.
Qed.

Lemma stream_read_at sid w s :
  streams w !! sid = Some s ->
  streams (exec (stream_read sid) w) !! sid
  = Some (set_controller (snd (ctl_read (controller s))) s).
Proof.
  intros Hs. unfold exec, stream_read. rewrite Hs. wsimpl.
  rewrite list_lookup_alter_eq, Hs. reflexivity.
Qed.

Lemma consistent_signalled s :
  stream_consistent s = true -> stream_consistent (signalled s) = true.
Proof.
  intros Hs. unfold signalled. destruct (abortSignal s) as [[]|]; try exact Hs.
  apply consistent_finish_stream; [eauto|]. apply consistent_set_abortSignal, Hs.
Qed.

Lemma keeps_consistent_stream_cancel sid :
  preserves keeps_consistent (stream_cancel sid).
Proof.
  intros w. apply (keeps_consistent_at sid); [apply stream_op_stream_cancel|].
  intros s s' Hs Hs' Hc.
  change (snd (stream_cancel sid w)) with (exec (stream_cancel sid) w) in Hs'.
  rewrite (stream_cancel_at _ _ _ Hs) in Hs'. injection Hs' as <-.
  apply consistent_cancelled, Hc.
Qed.

Lemma keeps_consistent_abort_signal sid :
  preserves keeps_consistent (abort_signal sid).
Proof.
  intros w. apply (keeps_consistent_at sid); [apply stream_op_abort_signal|].
  intros s s' Hs Hs' Hc.
  change (snd (abort_signal sid w)) with (exec (abort_signal sid) w) in Hs'.
  rewrite (abort_signal_at _ _ _ Hs) in Hs'. injection Hs' as <-.
  apply consistent_signalled, Hc.
Qed.

Lemma keeps_consistent_stream_read sid :
  preserves keeps_consistent (stream_read sid).
Proof.
  intros w. apply (keeps_consistent_at sid); [apply stream_op_stream_read|].
  intros s s' Hs Hs' Hc.
  change (snd (stream_read sid w)) with (exec (stream_read sid) w) in Hs'.
  rewrite (stream_read_at _ _ _ Hs) in Hs'. injection Hs' as <-.
  apply consistent_read, Hc.
Qed.

Lemma keeps_consistent_new_stream s :
  stream_consistent s = true -> preserves keeps_consistent (new_stream s).
Proof.
  intros Hs w Hw. cbn [new_stream snd]. unfold streams_consistent in *.
  wsimpl. rewrite forallb_app, Hw. cbn. rewrite Hs. reflexivity.
Qed.

(** The steps of a method that creates streams and calls their closures. *)
Ltac keeps_consistent_steps :=
  repeat first
    [ apply (preserves_ret _ keeps_consistent_refl)
    | apply (preserves_gets _ keeps_consistent_refl)
    | apply keeps_consistent_new_stream; reflexivity
    | apply keeps_consistent_onAbort
    | apply keeps_of_same, same_streams_agent_send
    | apply keeps_of_same, same_streams_addEventListener
    | apply keeps_of_same, same_streams_done
    | apply keeps_of_same, same_streams_modify; intros ?; reflexivity
    | apply (preserves_bind _ keeps_consistent_trans); [|intros ?]
    | match goal with
      | |- preserves _ (match ?x with _ => _ end) => destruct x
      end ].

Lemma keeps_consistent_sendMessages rid options :
  preserves keeps_consistent (sendMessages rid options).
Proof. unfold sendMessages, activeIds_add. keeps_consistent_steps. Qed.

Lemma keeps_consistent_handleStreamResuming rid :
  preserves keeps_consistent (handleStreamResuming rid).
Proof.
  unfold handleStreamResuming, resumeResolver, _createResumeStream,
    activeIds_add.
  keeps_consistent_steps.
Qed.

Lemma step_keeps_consistent w ev : keeps_consistent w (step w ev).
Proof.
  destruct ev as [rid o| |rid|a text|sid|sid|sid|dt|a|e|a e]; cbn [step].
  - apply keeps_consistent_sendMessages.
  - apply same_streams_keeps, same_streams_reconnectToStream.
  - apply keeps_consistent_handleStreamResuming.
  - apply keeps_consistent_dispatch.
  - apply keeps_consistent_abort_signal.
  - apply keeps_consistent_stream_cancel.
  - apply keeps_consistent_stream_read.
  - apply same_streams_keeps, same_streams_advance.
  - destruct (bool_decide _); apply same_streams_keeps; reflexivity.
  - apply same_streams_keeps. reflexivity.
  - apply same_streams_keeps. reflexivity.
Qed.

Lemma run_keeps_consistent evs : forall w, keeps_consistent w (run w evs).
Proof.
  induction evs as [|ev evs IH]; intros w; [apply keeps_consistent_refl|].
  cbn [run fold_left].
  eapply keeps_consistent_trans; [apply step_keeps_consistent | apply IH].
Qed.

(** X1. Whatever happens to a transport after its construction, every
    stream it has created is consistent. The message listener of a stream
    has been removed exactly when the stream is [completed]; its
    controller accepts chunks exactly when it is not; and the calls made
    on the controller are in order: any number of [enqueue], then at most
    one [close] or [error], made by the [finish] that completed the
    stream. No chunk is enqueued after the stream has ended, and no stream
    is ended twice. *)
Theorem streams_stay_consistent
    (e : option JsError) (ids : option (gset string)) (evs : list Event) :
  Forall (fun s =>
            signal_aborted s = completed s
            /\ canCloseOrEnqueue (controller s) = negb (completed s)
            /\ calls_in_order (completed s) (ctl_calls (controller s)) = true)
         (streams (run (init e ids) evs)).
Proof.
  assert (Hc : streams_consistent (run (init e ids) evs) = true)
    by (apply run_keeps_consistent; reflexivity).
  unfold streams_consistent in Hc. rewrite forallb_forall in Hc.
  apply List.Forall_forall. intros s Hin.
  apply stream_consistent_spec, Hc, Hin.
Qed.

(** *** A promise is resolved once *)

Lemma calls_consistent_spec w :
  calls_consistent w = true
  <-> forall cid c, calls w !! cid = Some c -> call_consistent c = true.
Proof.
  unfold calls_consistent. rewrite forallb_forall. split.
  - intros Hall cid c Hc. apply Hall.
    apply list_elem_of_In, (list_elem_of_lookup_2 _ cid). exact Hc.
  - intros Hall c Hin. apply list_elem_of_In, list_elem_of_lookup_1 in Hin.
    destruct Hin as [cid Hc]. exact (Hall cid c Hc).
Qed.

Lemma call_consistent_resolved c :
  call_consistent c = true -> resolved c = true ->
  timeout c = None /\ exists v, settled c = Some v.
Proof.
  unfold call_consistent. intros Hc Hr. rewrite Hr in Hc.
  destruct (timeout c); [discriminate|]. destruct (settled c) as [v|];
    [eauto | discriminate].
Qed.

Lemma call_consistent_pending c :
  call_consistent c = true -> resolved c = false -> settled c = None.
Proof.
  unfold call_consistent. intros Hc Hr. rewrite Hr in Hc.
  destruct (settled c); [discriminate | reflexivity].
Qed.

Lemma settles_once_refl w : settles_once w w.
Proof. intros Hw. auto. Qed.

Lemma settles_once_trans w1 w2 w3 :
  settles_once w1 w2 -> settles_once w2 w3 -> settles_once w1 w3.
Proof.
  intros H12 H23 H1. destruct (H12 H1) as [H2 K12].
  destruct (H23 H2) as [H3 K23]. split; [exact H3|].
  intros cid c Hc Hr. apply K23; [apply K12; assumption | exact Hr].
Qed.

Lemma settles_once_same w w' : calls w' = calls w -> settles_once w w'.
Proof.
  intros Heq Hw. unfold calls_consistent in *. rewrite Heq. auto.
Qed.

(** One call changes, from a pending one to a consistent one. *)
Lemma settles_once_insert w w' k c c' :
  calls w !! k = Some c ->
  (resolved c = true -> c' = c) -> call_consistent c' = true ->
  calls w' = <[k := c']> (calls w) ->
  settles_once w w'.
Proof.
  intros Hk Hres Hc' Heq Hw. rewrite calls_consistent_spec in Hw |- *.
  rewrite Heq. split.
  - intros cid c0 H0. destruct (Nat.eq_dec k cid) as [<-|Hne].
    + rewrite list_lookup_insert_eq in H0
        by (apply lookup_lt_Some in Hk; exact Hk).
      injection H0 as <-. exact Hc'.
    + rewrite list_lookup_insert_ne in H0 by exact Hne. exact (Hw _ _ H0).
  - intros cid c0 H0 Hr. destruct (Nat.eq_dec k cid) as [<-|Hne].
    + rewrite Hk in H0. injection H0 as <-. rewrite (Hres Hr).
      apply list_lookup_insert_eq. apply lookup_lt_Some in Hk. exact Hk.
    + rewrite list_lookup_insert_ne by exact Hne. exact H0.
Qed.

Lemma settles_once_done cid value w : settles_once w (exec (done cid value) w).
Proof.
  unfold exec. destruct (calls w !! cid) as [c|] eqn:Hc.
  - destruct (resolved c) eqn:Hr.
    + rewrite (done_resolved _ _ _ _ Hc Hr). apply settles_once_refl.
    + rewrite (done_pending _ _ _ _ Hc Hr). cbn [snd].
      apply (settles_once_insert _ _ cid c (mkCall true None (Some value)));
        [exact Hc | congruence | reflexivity | reflexivity].
  - unfold done, bind, gets. rewrite Hc. apply settles_once_refl.
Qed.

Lemma settles_once_reconnectToStream w :
  settles_once w (exec reconnectToStream w).
Proof.
  unfold exec. rewrite reconnectToStream_eq. cbn [snd]. intros Hw.
  unfold calls_consistent in *. cbn [reconnecting_world calls].
  rewrite forallb_app, Hw. split; [reflexivity|].
  intros cid c Hc _. apply lookup_app_l_Some. exact Hc.
Qed.

Lemma settles_once_fire k c w :
  calls w !! k = Some c -> settles_once w (fire_world k c w).
Proof.
  intros Hk Hw.
  assert (Hc : call_consistent c = true)
    by (rewrite calls_consistent_spec in Hw; exact (Hw _ _ Hk)).
  revert Hw. eapply (settles_once_insert _ _ k c (fired c));
    [exact Hk | | | reflexivity].
  - intros Hr. destruct (call_consistent_resolved c Hc Hr) as [Ht _].
    unfold fired. rewrite Hr. destruct c as [r t v]. cbn in *. subst.
    reflexivity.
  - unfold fired, call_consistent. cbn.
    destruct (resolved c) eqn:Hr; [|reflexivity].
    destruct (call_consistent_resolved c Hc Hr) as [_ [v ->]]. reflexivity.
Qed.

Lemma settles_once_run_timers n target : forall w,
  settles_once w (exec (run_timers n target) w).
Proof.
  induction n as [|n IH]; intros w; [apply settles_once_refl|].
  unfold exec. rewrite run_timers_S.
  destruct (next_timer target 0 (calls w)) as [[due k]|];
    [|apply settles_once_refl].
  destruct (calls w !! k) as [c|] eqn:Hk; [|apply settles_once_refl].
  eapply settles_once_trans; [|apply IH].
  eapply settles_once_trans;
    [apply (settles_once_same w (set_now (Nat.max (now w) due) w)); reflexivity|].
  apply settles_once_fire. exact Hk.
Qed.

Lemma settles_once_advance dt w : settles_once w (exec (advance dt) w).
Proof.
  unfold exec. rewrite advance_eq. cbn [snd].
  eapply settles_once_trans; [apply settles_once_run_timers|].
  apply settles_once_same. reflexivity.
Qed.

(** The resolver up to its call of [done]: the identifier is marked, the
    acknowledgement sent and the stream created. *)
Lemma resumeResolver_split cid rid w :
  resumeResolver cid rid w
  = bind (activeIds_add rid ;;
          let* a := gets agent in
          agent_send a (resume_ack_frame rid) ;;
          _createResumeStream rid)
         (fun sid => done cid (Some sid)) w.
Proof.
  unfold resumeResolver, bind, activeIds_add, modify, gets.
  destruct (agent_send _ _ _) as [[[]|e] w1]; [|reflexivity].
  destruct (_createResumeStream rid w1) as [[sid|e] w2]; reflexivity.
Qed.

Lemma control_op_resume_prefix rid :
  preserves control_op
    (activeIds_add rid ;;
     let* a := gets agent in
     agent_send a (resume_ack_frame rid) ;;
     _createResumeStream rid).
Proof.
  unfold _createResumeStream.
  repeat first
    [ apply (preserves_ret _ control_op_refl)
    | apply (preserves_gets _ control_op_refl)
    | apply control_op_activeIds_add
    | apply control_op_new_stream
    | apply control_op_addEventListener
    | apply (control_op_of_stream_op 0), stream_op_agent_send
    | apply (preserves_bind _ control_op_trans); [|intros ?] ].
Qed.

Lemma settles_once_handleStreamResuming rid w :
  settles_once w (exec (handleStreamResuming rid) w).
Proof.
  unfold exec, handleStreamResuming, bind at 1, gets.
  destruct (_resumeResolver w) as [cid|]; [|apply settles_once_refl].
  unfold bind at 1. rewrite resumeResolver_split.
  pose proof (control_op_resume_prefix rid w) as Hpre.
  unfold bind at 1.
  destruct ((activeIds_add rid ;;
             let* a := gets agent in
             agent_send a (resume_ack_frame rid) ;;
             _createResumeStream rid) w) as [[sid|e] w1]; cbn [snd] in Hpre.
  - eapply settles_once_trans;
      [apply settles_once_same, (co_calls _ _ Hpre)|].
    pose proof (settles_once_done cid (Some sid) w1) as Hd. unfold exec in Hd.
    destruct (done cid (Some sid) w1) as [[[]|e] w2]; exact Hd.
  - apply settles_once_same, (co_calls _ _ Hpre).
Qed.

Lemma step_settles_once w ev : settles_once w (step w ev).
Proof.
  destruct (sending_side ev) eqn:Hside.
  - apply settles_once_same. apply (step_sending_side w ev Hside).
  - destruct ev as [| |rid| | | | |dt| | |]; try discriminate; cbn [step].
    + apply settles_once_reconnectToStream.
    + apply settles_once_handleStreamResuming.
    + apply settles_once_advance.
Qed.

Lemma run_settles_once evs : forall w, settles_once w (run w evs).
Proof.
  induction evs as [|ev evs IH]; intros w; [apply settles_once_refl|].
  cbn [run fold_left].
  eapply settles_once_trans; [apply step_settles_once | apply IH].
Qed.

(** X2. The promise of a call of [reconnectToStream] is resolved at most
    once. In every state the transport can reach, a call that is not
    [resolved] has no value yet; a call that is [resolved] has its value
    (a stream or [null]) and no pending timer, and nothing that happens
    afterwards changes it: a timer that fires after the hand-off, a
    hand-off that comes after the timeout, or another resume call. *)
Theorem promise_is_resolved_once
    (e : option JsError) (ids : option (gset string)) (evs : list Event)
    (cid : nat) (c : ResumeCall) :
  calls (run (init e ids) evs) !! cid = Some c ->
  (resolved c = false -> settled c = None)
  /\ (resolved c = true ->
      timeout c = None
      /\ (exists v, settled c = Some v)
      /\ forall more,
           calls (run (run (init e ids) evs) more) !! cid = Some c).
Proof.
  intros Hc.
  destruct (run_settles_once evs (init e ids) eq_refl) as [Hw _].
  assert (Hcc : call_consistent c = true)
    by (rewrite calls_consistent_spec in Hw; exact (Hw _ _ Hc)).
  split; [apply call_consistent_pending, Hcc|].
  intros Hr. destruct (call_consistent_resolved c Hcc Hr) as [Ht Hv].
  split; [exact Ht|]. split; [exact Hv|].
  intros more. destruct (run_settles_once more _ Hw) as [_ Hkeep].
  exact (Hkeep cid c Hc Hr).
Qed.

(** *** Streams of either kind as frames arrive *)

Lemma receive_receiving k rid a sig chunks fr :
  rc_id fr = rid -> marked_error fr = false -> rc_done fr = false ->
  receive fr (receiving k rid a sig chunks)
  = receiving k rid a sig (chunks ++ match carried fr with
                                     | Some chunk => [chunk]
                                     | None => []
                                     end).
Proof.
  intros Hid He Hd. unfold receive, deliver_stream.
  cbn [requestId receiving]. rewrite Hid, String.eqb_refl, He, Hd.
  destruct (carried fr) as [chunk|]; [|rewrite app_nil_r; reflexivity].
  unfold receiving, set_controller, ctl_enqueue. cbn. rewrite map_app.
  reflexivity.
Qed.

Lemma receive_receiving_done k rid a sig chunks fr :
  rc_id fr = rid -> marked_error fr = false -> rc_done fr = true ->
  receive fr (receiving k rid a sig chunks)
  = closing k rid a sig (chunks ++ match carried fr with
                                   | Some chunk => [chunk]
                                   | None => []
                                   end).
Proof.
  intros Hid He Hd. unfold receive, deliver_stream.
  cbn [requestId receiving]. rewrite Hid, String.eqb_refl, He, Hd.
  destruct (carried fr) as [chunk|]; cbn zeta.
  - unfold finish_stream, finished, receiving, closing, set_controller,
      ctl_enqueue, ctl_close. cbn. rewrite map_app. reflexivity.
  - rewrite app_nil_r. reflexivity.
Qed.

Lemma receive_receiving_error k rid a sig chunks fr :
  rc_id fr = rid -> marked_error fr = true ->
  receive fr (receiving k rid a sig chunks)
  = errored k rid a sig chunks (stream_error_of fr).
Proof.
  intros Hid He. unfold receive. cbn [requestId receiving].
  rewrite Hid, String.eqb_refl, He. reflexivity.
Qed.

(** *** The set of active identifiers *)

Lemma untracks_refl w : untracks w w.
Proof. intros rid Hr. exact Hr. Qed.

Lemma untracks_trans w1 w2 w3 :
  untracks w1 w2 -> untracks w2 w3 -> untracks w1 w3.
Proof. unfold untracks. auto. Qed.

Lemma untracks_same w w' :
  activeRequestIds w' = activeRequestIds w -> untracks w w'.
Proof. intros Heq rid. unfold tracked. rewrite Heq. auto. Qed.

Lemma untracks_delete rid : preserves untracks (activeIds_delete rid).
Proof.
  intros w r. unfold tracked. cbn.
  destruct (activeRequestIds w) as [ids|]; cbn; [|auto].
  rewrite !bool_decide_eq_false. intros Hn Hin. apply Hn.
  apply elem_of_difference in Hin as [Hin _]. exact Hin.
Qed.

Lemma untracks_modify f :
  (forall w, activeRequestIds (f w) = activeRequestIds w) ->
  preserves untracks (modify f).
Proof. intros Hf w. apply untracks_same, Hf. Qed.

Lemma untracks_on_controller sid action :
  preserves untracks (on_controller sid action).
Proof.
  intros w. apply untracks_same. unfold on_controller.
  destruct (streams w !! sid); reflexivity.
Qed.

Ltac untracks_steps :=
  repeat first
    [ apply (preserves_ret _ untracks_refl)
    | apply (preserves_throw _ untracks_refl)
    | apply (preserves_gets _ untracks_refl)
    | apply (preserves_lift _ untracks_refl)
    | apply untracks_delete
    | apply untracks_on_controller
    | apply untracks_modify; intros ?; reflexivity
    | apply (preserves_bind _ untracks_trans); [|intros ?]
    | apply (preserves_try_catch _ untracks_trans)
    | match goal with
      | |- preserves _ (match ?x with _ => _ end) => destruct x
      | |- preserves _ (if ?x then _ else _) => destruct x
      end ].

Lemma untracks_finish sid action : preserves untracks (finish sid action).
Proof. unfold finish, update_stream. untracks_steps. Qed.

Lemma untracks_onMessage sid text : preserves untracks (onMessage sid text).
Proof.
  unfold onMessage, parse_and_enqueue.
  untracks_steps; apply untracks_finish.
Qed.

Lemma untracks_run_listeners ls text :
  preserves untracks (run_listeners ls text).
Proof.
  induction ls as [|x rest IH]; [apply (preserves_ret _ untracks_refl)|].
  cbn [run_listeners].
  apply (preserves_bind _ untracks_trans); [|intros _; exact IH].
  unfold listener_run.
  apply (preserves_bind _ untracks_trans);
    [apply (preserves_gets _ untracks_refl)|].
  intros [s|]; [destruct (signal_aborted s)|];
    first [apply untracks_onMessage | apply (preserves_ret _ untracks_refl)].
Qed.

Lemma untracks_dispatch a text : preserves untracks (dispatch a text).
Proof.
  unfold dispatch.
  apply (preserves_bind _ untracks_trans);
    [apply (preserves_gets _ untracks_refl)|].
  intros [ag|]; [apply untracks_run_listeners
                | apply (preserves_ret _ untracks_refl)].
Qed.

(** [finish] on a stream that has not finished takes its identifier out
    of the set. *)
Lemma finish_untracks sid action w s :
  streams w !! sid = Some s -> completed s = false ->
  tracked (requestId s) (exec (finish sid action) w) = false.
Proof.
  intros Hs Hc. unfold exec. rewrite (finish_active _ _ _ _ Hs Hc).
  unfold tracked. cbn [snd activeRequestIds].
  destruct (activeRequestIds w) as [ids|]; cbn; [|reflexivity].
  apply bool_decide_eq_false. intros Hin.
  apply elem_of_difference in Hin as [_ Hn]. apply Hn.
  apply elem_of_singleton. reflexivity.
Qed.

Lemma deliver_done_untracks sid fr w s :
  rc_done fr = true ->
  streams w !! sid = Some s -> completed s = false ->
  tracked (requestId s) (exec (deliver sid fr) w) = false.
Proof.
  intros Hd Hs Hc. unfold exec, deliver, bind. rewrite Hd.
  destruct (carried fr) as [chunk|].
  - unfold try_catch, on_controller. rewrite Hs.
    set (c' := snd (ctl_enqueue chunk (controller s))).
    set (w1 := set_streams _ w).
    assert (Hs1 : streams w1 !! sid = Some (set_controller c' s)).
    { unfold w1. wsimpl. rewrite list_lookup_alter_eq, Hs. reflexivity. }
    destruct (fst (ctl_enqueue chunk (controller s))) as [[]|e]; cbn [ret];
      apply (finish_untracks sid ctl_close w1 _ Hs1 Hc).
  - cbn [ret]. apply (finish_untracks _ _ _ _ Hs Hc).
Qed.

(** A frame that neither carries an error nor is the last one leaves the
    set as it is. *)
Lemma deliver_ids sid fr w :
  rc_done fr = false ->
  activeRequestIds (exec (deliver sid fr) w) = activeRequestIds w.
Proof.
  intros Hd. unfold exec, deliver, bind. rewrite Hd.
  destruct (carried fr) as [chunk|]; [|reflexivity].
  unfold try_catch, on_controller.
  destruct (streams w !! sid) as [s|]; [|reflexivity].
  destruct (fst (ctl_enqueue chunk (controller s))); reflexivity.
Qed.

Lemma run_listeners_ids ls text fr :
  frame_text text fr -> marked_error fr = false -> rc_done fr = false ->
  forall w,
    activeRequestIds (exec (run_listeners ls text) w) = activeRequestIds w.
Proof.
  intros Hp He Hd. induction ls as [|x rest IH]; intros w; [reflexivity|].
  rewrite run_listeners_cons, IH.
  unfold exec, listener_run, bind, gets.
  destruct (streams w !! x) as [s|] eqn:Hs; [|reflexivity].
  destruct (signal_aborted s); [reflexivity|].
  rewrite (onMessage_frame _ _ _ _ _ Hs Hp), He.
  destruct (String.eqb _ _); [|reflexivity].
  apply (deliver_ids _ _ _ Hd).
Qed.

Lemma dispatch_ids a text fr w :
  frame_text text fr -> marked_error fr = false -> rc_done fr = false ->
  activeRequestIds (exec (dispatch a text) w) = activeRequestIds w.
Proof.
  intros Hp He Hd. unfold exec, dispatch, bind, gets.
  destruct (agents w !! a) as [ag|]; [|reflexivity].
  apply (run_listeners_ids _ _ _ Hp He Hd).
Qed.

Lemma run_listeners_app l1 l2 text w :
  exec (run_listeners (l1 ++ l2) text) w
  = exec (run_listeners l2 text) (exec (run_listeners l1 text) w).
Proof.
  revert w. induction l1 as [|x l1 IH]; intros w; [reflexivity|].
  cbn [app]. rewrite !run_listeners_cons. apply IH.
Qed.

(** The frame that ends a stream takes its identifier out of the set. *)
Lemma dispatch_untracks a text fr w ag l1 l2 sid s :
  agents w !! a = Some ag -> listeners ag = l1 ++ sid :: l2 -> sid ∉ l1 ->
  streams w !! sid = Some s ->
  signal_aborted s = false -> completed s = false ->
  frame_text text fr -> rc_id fr = requestId s ->
  marked_error fr = true \/ rc_done fr = true ->
  tracked (requestId s) (exec (dispatch a text) w) = false.
Proof.
  intros Ha Hl H1 Hs Hab Hc Hp Hid Hend.
  unfold exec, dispatch, bind, gets. rewrite Ha, Hl.
  change (snd ?x) with (exec (run_listeners (l1 ++ sid :: l2) text) w).
  rewrite run_listeners_app, run_listeners_cons.
  set (w1 := exec (run_listeners l1 text) w).
  assert (Hs1 : streams w1 !! sid = Some s).
  { unfold w1. rewrite run_listeners_absent by exact H1. exact Hs. }
  apply (untracks_run_listeners l2 text).
  unfold exec, listener_run, bind, gets. rewrite Hs1, Hab.
  rewrite (onMessage_frame _ _ _ _ _ Hs1 Hp), Hid, String.eqb_refl.
  destruct (marked_error fr) eqn:He.
  - apply (finish_untracks _ _ _ _ Hs1 Hc).
  - destruct Hend as [Hend|Hd]; [discriminate|].
    apply (deliver_done_untracks _ _ _ _ Hd Hs1 Hc).
Qed.

(** Frames that do not end a stream of either kind pile their chunks up
    in order, and change neither the connections nor the set of active
    identifiers. *)
Lemma run_inbound_receiving k rid a sig ag l1 l2 sid
    (frames : list (string * ResponseChunk)) :
  listeners ag = l1 ++ sid :: l2 -> sid ∉ l1 -> sid ∉ l2 ->
  Forall (fun tf => chunk_frame_for rid tf /\ rc_done (snd tf) = false) frames ->
  forall w chunks,
    agents w !! a = Some ag ->
    streams w !! sid = Some (receiving k rid a sig chunks) ->
    let w' := run w (inbound a frames) in
    agents w' = agents w
    /\ activeRequestIds w' = activeRequestIds w
    /\ streams w' !! sid
       = Some (receiving k rid a sig (chunks ++ chunks_of frames)).
Proof.
  intros Hl H1 H2 Hfs. induction Hfs as [|tf frames [(Hp & Hid & He) Hd] _ IH];
    intros w chunks Ha Hs; cbn zeta.
  - cbn. rewrite app_nil_r. auto.
  - cbn [inbound map run fold_left step].
    set (w1 := exec (dispatch a (fst tf)) w).
    assert (Hag : agents w1 = agents w)
      by apply (io_agents _ _ (inbound_op_dispatch a (fst tf) w)).
    assert (Hids : activeRequestIds w1 = activeRequestIds w)
      by apply (dispatch_ids _ _ _ _ Hp He Hd).
    assert (Hs1 : streams w1 !! sid
                  = Some (receive (snd tf) (receiving k rid a sig chunks))).
    { eapply dispatch_frame_at; eauto. }
    rewrite receive_receiving in Hs1 by assumption.
    specialize (IH w1 _ ltac:(rewrite Hag; exact Ha) Hs1). cbn zeta in IH.
    destruct IH as (IHa & IHi & IHs). unfold run, inbound in IHa, IHi, IHs.
    split; [congruence|]. split; [congruence|]. rewrite IHs. f_equal. f_equal.
    rewrite <- app_assoc. f_equal. unfold chunks_of. cbn [omap list_omap].
    destruct (carried (snd tf)); reflexivity.
Qed.

Lemma run_messages_agents l : forall w, agents (run w (messages l)) = agents w.
Proof.
  induction l as [|[a t] l IH]; intros w; [reflexivity|].
  cbn [messages map run fold_left step fst snd].
  unfold messages, run in IH. rewrite IH.
  apply (io_agents _ _ (inbound_op_dispatch a t w)).
Qed.

(** The frames of a request up to the one that ends its stream. *)
Lemma run_inbound_ending k rid a sig ag l sid
    (frames : list (string * ResponseChunk)) (last : string * ResponseChunk) w :
  agents w !! a = Some ag -> listeners ag = l ++ [sid] -> sid ∉ l ->
  streams w !! sid = Some (receiving k rid a sig []) ->
  Forall (fun tf => chunk_frame_for rid tf /\ rc_done (snd tf) = false) frames ->
  frame_text (fst last) (snd last) -> rc_id (snd last) = rid ->
  marked_error (snd last) = true \/ rc_done (snd last) = true ->
  let w2 := run w (inbound a (frames ++ [last])) in
  agents w2 = agents w
  /\ tracked rid w2 = false
  /\ streams w2 !! sid
     = Some (receive (snd last) (receiving k rid a sig (chunks_of frames))).
Proof.
  intros Ha Hl Hfresh Hs Hframes Hp Hid Hend w2.
  destruct (run_inbound_receiving k rid a sig ag l [] sid frames Hl Hfresh
              ltac:(apply not_elem_of_nil) Hframes _ _ Ha Hs)
    as (Hag & _ & Hst).
  cbn [app] in Hst.
  set (wk := run w (inbound a frames)) in *.
  assert (Hw2 : w2 = exec (dispatch a (fst last)) wk).
  { unfold w2, inbound. rewrite map_app, run_app. reflexivity. }
  rewrite Hw2. split; [|split].
  - rewrite <- Hag. apply (io_agents _ _ (inbound_op_dispatch a (fst last) wk)).
  - change rid
      with (requestId (receiving k rid a sig (chunks_of frames))) at 1.
    apply (dispatch_untracks a (fst last) (snd last) wk ag l [] sid
             (receiving k rid a sig (chunks_of frames)));
      try assumption; try reflexivity.
    rewrite Hag. exact Ha.
  - eapply (dispatch_frame_at _ _ _ _ ag l []); eauto.
    + rewrite Hag. exact Ha.
    + apply not_elem_of_nil.
Qed.

(** *** An error frame *)

(** X4. When [sendMessages] has returned a stream and, after any number
    of frames with chunks, a frame marked [error] arrives for its request,
    the stream is ended with an [Error] whose message is the body of the
    frame, or "Stream error" when the body is empty. The chunks that were
    enqueued and not yet read are dropped: what the consumer reads next is
    the rejection. The controller was called once with the error, no
    CANCEL frame is sent, the identifier leaves the set of active
    requests, and whatever arrives later changes nothing. *)
Theorem error_frame_rejects_the_consumer
    (w w1 : World) (rid : string) (options : SendOptions) (sid : nat)
    (frames : list (string * ResponseChunk)) (last : string * ResponseChunk)
    (extra : list (nat * string)) :
  well_formed w = true ->
  opt_abortSignal options <> Some true ->
  sendMessages rid options w = (Normal sid, w1) ->
  Forall (fun tf => chunk_frame_for rid tf /\ rc_done (snd tf) = false) frames ->
  frame_text (fst last) (snd last) -> rc_id (snd last) = rid ->
  marked_error (snd last) = true ->
  let err := Error (if String.eqb (rc_body (snd last)) ""
                    then "Stream error" else rc_body (snd last)) in
  let w2 := run w1 (inbound (agent w) (frames ++ [last])) in
  let w3 := run w2 (messages extra) in
  agents w2 = agents w1
  /\ tracked rid w2 = false
  /\ exists s,
       streams w3 !! sid = Some s
       /\ completed s = true
       /\ consumer_view (controller s) = [Rejected err]
       /\ ctl_calls (controller s)
          = map CallEnqueue (chunks_of frames) ++ [CallError err].
Proof.
  intros Hwf Hsig Hsend Hframes Hp Hid He err w2 w3.
  destruct (sendMessages_returned _ _ _ _ _ Hsig Hsend)
    as (ag & Ha & Hse & -> & ->).
  set (sid := length (streams w)) in *.
  set (ag1 := mkAgent (sent ag ++ [request_frame rid options]) (send_error ag)
                      (listeners ag ++ [sid])).
  assert (Hfresh : sid ∉ listeners ag).
  { intros Hin. apply (well_formed_listeners _ _ _ _ Hwf Ha) in Hin.
    unfold sid in Hin. lia. }
  assert (Ha1 : agents (sent_world w rid options ag) !! agent w = Some ag1).
  { cbn [sent_world agents]. apply list_lookup_insert_eq.
    apply lookup_lt_Some in Ha. exact Ha. }
  assert (Hs1 : streams (sent_world w rid options ag) !! sid
                = Some (receiving SendStream rid (agent w)
                          (opt_abortSignal options) [])).
  { cbn [sent_world streams]. apply lookup_snoc. }
  destruct (run_inbound_ending SendStream rid (agent w) (opt_abortSignal options)
              ag1 (listeners ag) sid frames last _ Ha1 eq_refl Hfresh Hs1
              Hframes Hp Hid (or_introl He)) as (Hag & Htr & Hst).
  fold w2 in Hag, Htr, Hst.
  rewrite (receive_receiving_error _ _ _ _ _ _ Hid He) in Hst.
  split; [exact Hag|]. split; [exact Htr|].
  eexists. split; [|split; [|split]].
  - unfold w3. apply run_messages_aborted; [exact Hst | reflexivity].
  - reflexivity.
  - reflexivity.
  - reflexivity.
Qed.

(** *** A resumed stream *)

Lemma resumed_world_listening w cid rid ag :
  well_formed w = true -> agents w !! agent w = Some ag ->
  let sid := length (streams w) in
  let w1 := resumed_world w cid rid ag in
  agents w1 !! agent w
  = Some (mkAgent (sent ag ++ [resume_ack_frame rid]) (send_error ag)
                  (listeners ag ++ [sid]))
  /\ (sid ∉ listeners ag)
  /\ streams w1 !! sid = Some (receiving ResumeStream rid (agent w) None []).
Proof.
  intros Hwf Ha sid w1. split; [|split].
  - cbn [w1 resumed_world agents]. apply list_lookup_insert_eq.
    apply lookup_lt_Some in Ha. exact Ha.
  - intros Hin. apply (well_formed_listeners _ _ _ _ Hwf Ha) in Hin.
    unfold sid in Hin. lia.
  - cbn [w1 resumed_world streams]. apply lookup_snoc.
Qed.

(** X10. The stream that a hand-off creates delivers like the stream of
    [sendMessages]. When [handleStreamResuming] has resolved a pending
    resume call on a connection that can send, and the frames of the
    resumed request arrive on that connection (replayed or live, the
    [replay] flag is not looked at), none marked as an error and only the
    last with [done] set, the consumer of the resumed stream reads exactly
    the chunks these frames carry, in order, and then the end of the
    stream. The controller is closed by one call, nothing is sent after
    the acknowledgement, the identifier leaves the set of active requests,
    and later messages change nothing. *)
Theorem resumed_stream_delivers_in_order
    (w : World) (rid : string) (cid : nat) (ag : Agent)
    (frames : list (string * ResponseChunk)) (last : string * ResponseChunk)
    (extra : list (nat * string)) :
  well_formed w = true ->
  _resumeResolver w = Some cid ->
  agents w !! agent w = Some ag -> send_error ag = None ->
  Forall (fun tf => chunk_frame_for rid tf /\ rc_done (snd tf) = false) frames ->
  chunk_frame_for rid last -> rc_done (snd last) = true ->
  let sid := length (streams w) in
  let w1 := exec (handleStreamResuming rid) w in
  let w2 := run w1 (inbound (agent w) (frames ++ [last])) in
  let w3 := run w2 (messages extra) in
  calls w1 !! cid = Some (mkCall true None (Some (Some sid)))
  /\ tracked rid w1 = match activeRequestIds w with
                      | Some _ => true
                      | None => false
                      end
  /\ agents w2 = agents w1
  /\ tracked rid w2 = false
  /\ exists s,
       streams w3 !! sid = Some s
       /\ kind s = ResumeStream
       /\ completed s = true
       /\ consumer_view (controller s)
          = map Value (chunks_of (frames ++ [last])) ++ [Done]
       /\ ctl_calls (controller s)
          = map CallEnqueue (chunks_of (frames ++ [last])) ++ [CallClose].
Proof.
  intros Hwf Hr Ha Hse Hframes (Hp & Hid & He) Hd sid w1 w2 w3.
  destruct (well_formed_resolver _ _ Hwf Hr) as (c & Hc & Hres).
  assert (Hw1 : w1 = resumed_world w cid rid ag).
  { unfold w1, exec.
    rewrite (handleStreamResuming_ok _ _ _ _ _ Hr Ha Hse Hc Hres).
    reflexivity. }
  destruct (resumed_world_listening w cid rid ag Hwf Ha) as (Ha1 & Hfresh & Hs1).
  rewrite <- Hw1 in Ha1, Hs1.
  destruct (run_inbound_ending ResumeStream rid (agent w) None _
              (listeners ag) sid frames last w1 Ha1 eq_refl Hfresh Hs1
              Hframes Hp Hid (or_intror Hd)) as (Hag & Htr & Hst).
  fold w2 in Hag, Htr, Hst.
  rewrite (receive_receiving_done _ _ _ _ _ _ Hid He Hd) in Hst.
  rewrite <- chunks_of_snoc in Hst.
  split.
  { rewrite Hw1. cbn [resumed_world calls]. apply list_lookup_insert_eq.
    apply lookup_lt_Some in Hc. exact Hc. }
  split.
  { rewrite Hw1. unfold tracked. cbn [resumed_world activeRequestIds].
    destruct (activeRequestIds w) as [ids|]; cbn; [|reflexivity].
    apply bool_decide_eq_true. apply elem_of_union_l, elem_of_singleton.
    reflexivity. }
  split; [exact Hag|]. split; [exact Htr|].
  eexists. split; [|split; [|split; [|split]]].
  - unfold w3. apply run_messages_aborted; [exact Hst | reflexivity].
  - reflexivity.
  - reflexivity.
  - cbn [closing controller]. apply consumer_view_closing.
  - reflexivity.
Qed.

(** *** Cancelling a resumed stream *)

Lemma stream_cancel_resumed sid w s :
  streams w !! sid = Some s -> kind s = ResumeStream ->
  agents (exec (stream_cancel sid) w) = agents w.
Proof.
  intros Hs Hk. unfold exec, stream_cancel, bind at 1, gets. rewrite Hs, Hk.
  destruct (ctl_state (controller s)); try reflexivity.
  unfold bind, update_stream, modify. cbn [source_cancel].
  set (w1 := set_streams _ w).
  destruct (msg_op_finish sid (fun c => (Normal tt, c)) w1) as [_ Hag].
  exact Hag.
Qed.

Lemma stream_cancel_untracks sid w s :
  streams w !! sid = Some s -> kind s = ResumeStream ->
  completed s = false -> ctl_state (controller s) = Readable ->
  tracked (requestId s) (exec (stream_cancel sid) w) = false.
Proof.
  intros Hs Hk Hc Hst. unfold exec, stream_cancel, bind at 1, gets.
  rewrite Hs, Hk. destruct (ctl_state (controller s)); try discriminate.
  unfold bind, update_stream, modify. cbn [source_cancel].
  set (w1 := set_streams _ w).
  assert (Hs1 : exists s1, streams w1 !! sid = Some s1
                           /\ completed s1 = false
                           /\ requestId s1 = requestId s).
  { eexists. split;
      [unfold w1; wsimpl; rewrite list_lookup_alter_eq, Hs; reflexivity|].
    split; [exact Hc | reflexivity]. }
  destruct Hs1 as (s1 & Hs1 & Hc1 & <-).
  apply (finish_untracks sid _ w1 s1 Hs1 Hc1).
Qed.

(** X9. Cancelling a resumed stream is silent. When the consumer calls
    [cancel()] on the stream of a hand-off, after any number of frames
    with chunks, nothing is sent to the server (no CANCEL frame, unlike
    the stream of [sendMessages]) and the controller is not called: the
    stream is closed, the chunks not yet read are dropped, the identifier
    leaves the set of active requests, the listener is removed, and the
    frames of the request that keep arriving are ignored. *)
Theorem cancelling_a_resumed_stream_is_silent
    (w : World) (rid : string) (cid : nat) (ag : Agent)
    (frames : list (string * ResponseChunk)) (extra : list (nat * string)) :
  well_formed w = true ->
  _resumeResolver w = Some cid ->
  agents w !! agent w = Some ag -> send_error ag = None ->
  Forall (fun tf => chunk_frame_for rid tf /\ rc_done (snd tf) = false) frames ->
  let sid := length (streams w) in
  let w1 := exec (handleStreamResuming rid) w in
  let w2 := run w1 (inbound (agent w) frames ++ [EvStreamCancel sid]) in
  let w3 := run w2 (messages extra) in
  agents w3 = agents w1
  /\ tracked rid w2 = false
  /\ exists s,
       streams w3 !! sid = Some s
       /\ completed s = true
       /\ signal_aborted s = true
       /\ consumer_view (controller s) = [Done]
       /\ ctl_calls (controller s) = map CallEnqueue (chunks_of frames).
Proof.
  intros Hwf Hr Ha Hse Hframes sid w1 w2 w3.
  destruct (well_formed_resolver _ _ Hwf Hr) as (c & Hc & Hres).
  assert (Hw1 : w1 = resumed_world w cid rid ag).
  { unfold w1, exec.
    rewrite (handleStreamResuming_ok _ _ _ _ _ Hr Ha Hse Hc Hres).
    reflexivity. }
  destruct (resumed_world_listening w cid rid ag Hwf Ha) as (Ha1 & Hfresh & Hs1).
  rewrite <- Hw1 in Ha1, Hs1.
  destruct (run_inbound_receiving ResumeStream rid (agent w) None
              (mkAgent (sent ag ++ [resume_ack_frame rid]) (send_error ag)
                       (listeners ag ++ [sid]))
              (listeners ag) [] sid frames eq_refl Hfresh
              ltac:(apply not_elem_of_nil) Hframes _ _ Ha1 Hs1)
    as (Hag & _ & Hst).
  cbn [app] in Hst.
  set (wk := run w1 (inbound (agent w) frames)) in *.
  set (sk := receiving ResumeStream rid (agent w) None (chunks_of frames)) in *.
  assert (Hw2 : w2 = exec (stream_cancel sid) wk).
  { unfold w2. rewrite run_app. reflexivity. }
  assert (Hs2 : streams w2 !! sid = Some (cancelled sk)).
  { rewrite Hw2. apply stream_cancel_at. exact Hst. }
  assert (Hag2 : agents w2 = agents w1).
  { rewrite Hw2, (stream_cancel_resumed _ _ _ Hst eq_refl). exact Hag. }
  split; [unfold w3; rewrite run_messages_agents; exact Hag2|].
  split.
  { rewrite Hw2.
    apply (stream_cancel_untracks sid wk sk Hst); reflexivity. }
  exists (cancelled sk). split; [|split; [|split; [|split]]].
  - unfold w3. apply run_messages_aborted; [exact Hs2 | reflexivity].
  - reflexivity.
  - reflexivity.
  - reflexivity.
  - reflexivity.
Qed.

(** *** Cancelling a stream that has finished *)

Lemma cancel_trigger_completed sid ev w s :
  cancel_trigger sid ev = true ->
  streams w !! sid = Some s -> completed s = true ->
  agents (step w ev) = agents w
  /\ activeRequestIds (step w ev) = activeRequestIds w
  /\ exists s', streams (step w ev) !! sid = Some s'
                /\ completed s' = true
                /\ ctl_calls (controller s') = ctl_calls (controller s)
                /\ (is_abort ev = true -> controller s' = controller s).
Proof.
  intros Hev Hs Hc.
  destruct ev as [| | | |sid'|sid'| | | | |]; try discriminate;
    cbn [cancel_trigger] in Hev; apply Nat.eqb_eq in Hev as ->; cbn [step].
  - assert (Heq : exec (abort_signal sid) w
                  = match abortSignal s with
                    | Some false =>
                        set_streams (alter (set_abortSignal (Some true)) sid) w
                    | _ => w
                    end).
    { unfold exec, abort_signal, bind at 1, gets. rewrite Hs.
      destruct (abortSignal s) as [[]|]; try reflexivity.
      unfold bind, update_stream, modify.
      erewrite onAbort_completed;
        [reflexivity
        |wsimpl; rewrite list_lookup_alter_eq, Hs; reflexivity | exact Hc]. }
    rewrite Heq. destruct (abortSignal s) as [[]|];
      try solve [split; [reflexivity|]; split; [reflexivity|]; exists s; auto].
    wsimpl. split; [reflexivity|]. split; [reflexivity|].
    rewrite list_lookup_alter_eq, Hs. eexists. split; [reflexivity|]. auto.
  - assert (Heq : exec (stream_cancel sid) w
                  = match ctl_state (controller s) with
                    | Readable =>
                        set_streams
                          (alter (set_controller
                                    (mkController Closed []
                                       (ctl_closeRequested (controller s))
                                       (ctl_calls (controller s)))) sid) w
                    | _ => w
                    end).
    { unfold exec, stream_cancel, bind at 1, gets. rewrite Hs.
      destruct (ctl_state (controller s)); try reflexivity.
      unfold bind, update_stream, modify.
      set (w1 := set_streams _ w).
      assert (Hs1 : exists s1, streams w1 !! sid = Some s1
                               /\ completed s1 = true).
      { eexists. split;
          [unfold w1; wsimpl; rewrite list_lookup_alter_eq, Hs; reflexivity|].
        exact Hc. }
      destruct Hs1 as (s1 & Hs1 & Hc1).
      destruct (kind s); cbn [source_cancel].
      - rewrite (onAbort_completed _ _ _ Hs1 Hc1). reflexivity.
      - rewrite (finish_completed _ _ _ _ Hs1 Hc1). reflexivity. }
    rewrite Heq. destruct (ctl_state (controller s));
      try solve [split; [reflexivity|]; split; [reflexivity|]; exists s;
                 split; [exact Hs|]; split; [exact Hc|]; split; [reflexivity|];
                 discriminate].
    wsimpl. split; [reflexivity|]. split; [reflexivity|].
    rewrite list_lookup_alter_eq, Hs. eexists. split; [reflexivity|].
    split; [exact Hc|]. split; [reflexivity | discriminate].
Qed.

(** X8. Once a stream of either kind has finished (its last frame or an
    error frame has come, or it has been aborted or cancelled), aborting
    or cancelling it again, any number of times, sends nothing: no CANCEL
    frame goes out, the set of active identifiers is as it was, and the
    controller is not called again. If the triggers are all the caller's
    [abortSignal], the controller is untouched and the consumer can still
    read the chunks that were enqueued before the end. *)
Theorem cancelling_a_finished_stream_sends_nothing
    (sid : nat) (more : list Event) (w : World) (s : Stream) :
  forallb (cancel_trigger sid) more = true ->
  streams w !! sid = Some s -> completed s = true ->
  agents (run w more) = agents w
  /\ activeRequestIds (run w more) = activeRequestIds w
  /\ exists s', streams (run w more) !! sid = Some s'
                /\ completed s' = true
                /\ ctl_calls (controller s') = ctl_calls (controller s)
                /\ (forallb is_abort more = true ->
                    consumer_view (controller s')
                    = consumer_view (controller s)).
Proof.
  revert w s. induction more as [|ev more IH]; intros w s Hall Hs Hc.
  { cbn. split; [reflexivity|]. split; [reflexivity|]. exists s. auto. }
  cbn [forallb] in Hall. apply andb_prop in Hall as [Hev Hall].
  destruct (cancel_trigger_completed sid ev w s Hev Hs Hc)
    as (Ha & Hi & s1 & Hs1 & Hc1 & Hk1 & Hab1).
  destruct (IH (step w ev) s1 Hall Hs1 Hc1)
    as (Ha' & Hi' & s' & Hs' & Hc' & Hk' & Hab').
  cbn [run fold_left]. unfold run in Ha', Hi', Hs'.
  split; [congruence|]. split; [congruence|].
  exists s'. split; [exact Hs'|]. split; [exact Hc'|].
  split; [congruence|].
  cbn [forallb]. intros Hb. apply andb_prop in Hb as [Hb1 Hb2].
  rewrite (Hab' Hb2), (Hab1 Hb1). reflexivity.
Qed.

(** *** A signal that is aborted before the request is sent *)

Lemma sendMessages_aborted w rid options ag :
  agents w !! agent w = Some ag -> send_error ag = None ->
  opt_abortSignal options = Some true ->
  sendMessages rid options w
  = (Normal (length (streams w)),
     mkWorld
       (<[agent w := mkAgent (sent ag ++ [cancel_frame rid;
                                          request_frame rid options])
                             (send_error ag)
                             (listeners ag ++ [length (streams w)])]>
          (agents w))
       (agent w)
       ((fun ids => ({[rid]} ∪ ids) ∖ {[rid]}) <$> activeRequestIds w)
       (_resumeResolver w)
       (streams w ++ [errored SendStream rid (agent w) (Some true) []
                              abortError])
       (calls w) (now w)).
Proof.
  intros Ha He Hsig.
  set (sid := length (streams w)).
  set (s0 := mkStream SendStream rid false fresh_controller false (agent w)
                      (Some true)).
  set (w0 := mkWorld (<[agent w := add_listener sid ag]> (agents w)) (agent w)
                     ((fun ids => {[rid]} ∪ ids) <$> activeRequestIds w)
                     (_resumeResolver w) (streams w ++ [s0]) (calls w) (now w)).
  assert (Hlt : agent w < length (agents w))
    by (apply lookup_lt_Some in Ha; exact Ha).
  assert (Hpre : sendMessages rid options w
                 = (onAbort sid ;;
                    agent_send (agent w) (request_frame rid options) ;;
                    ret sid) w0).
  { unfold sendMessages, bind at 1 2 3 4, activeIds_add, modify, gets,
      new_stream, addEventListener.
    wsimpl. rewrite lookup_snoc, Hsig. cbn [signal_aborted].
    unfold w0, s0, sid. wexpand. erewrite alter_insert by exact Ha.
    reflexivity. }
  rewrite Hpre. unfold bind at 1.
  rewrite (onAbort_active sid w0 s0 (add_listener sid ag));
    [|apply lookup_snoc | reflexivity
     |apply list_lookup_insert_eq; exact Hlt | exact He].
  unfold bind, agent_send. unfold w0. wsimpl. cbn [bound_agent requestId s0].
  rewrite list_insert_insert_eq, list_lookup_insert_eq by exact Hlt.
  cbn [add_sent add_listener send_error]. rewrite He.
  unfold ret. wexpand. f_equal. f_equal.
  - erewrite alter_insert
      by (apply list_lookup_insert_eq; exact Hlt).
    rewrite list_insert_insert_eq.
    unfold add_sent, add_listener. cbn [sent send_error listeners].
    rewrite <- app_assoc, He. reflexivity.
  - rewrite <- option_fmap_compose. reflexivity.
  - unfold sid. rewrite insert_snoc. reflexivity.
Qed.

(** X7. When the caller's [abortSignal] is already aborted at the call of
    [sendMessages], the transport runs its abort handler first and then
    still sends the request: the CANCEL frame of the request goes out
    before its REQUEST frame. The call returns a stream that is ended
    already; the consumer's first read is rejected with the error named
    AbortError. The identifier is not left in the set of active requests,
    and the frames that the server may send for the request are ignored. *)
Theorem sendMessages_with_aborted_signal
    (w : World) (rid : string) (options : SendOptions) (ag : Agent) :
  agents w !! agent w = Some ag -> send_error ag = None ->
  opt_abortSignal options = Some true ->
  let sid := length (streams w) in
  let w1 := exec (sendMessages rid options) w in
  sendMessages rid options w = (Normal sid, w1)
  /\ (exists ag1,
        agents w1 !! agent w = Some ag1
        /\ sent ag1 = sent ag ++ [cancel_frame rid; request_frame rid options])
  /\ tracked rid w1 = false
  /\ forall extra,
       exists s,
         streams (run w1 (messages extra)) !! sid = Some s
         /\ completed s = true
         /\ consumer_view (controller s) = [Rejected abortError]
         /\ ctl_calls (controller s) = [CallError abortError].
Proof.
  intros Ha He Hsig sid w1.
  pose proof (sendMessages_aborted w rid options ag Ha He Hsig) as Heq.
  assert (Hw1 : w1 = snd (sendMessages rid options w)) by reflexivity.
  rewrite Heq in Hw1. cbn [snd] in Hw1.
  split; [rewrite Heq, Hw1; reflexivity|]. rewrite Hw1. split; [|split].
  - eexists. split.
    + cbn [agents]. apply list_lookup_insert_eq.
      apply lookup_lt_Some in Ha. exact Ha.
    + reflexivity.
  - unfold tracked. cbn [activeRequestIds].
    destruct (activeRequestIds w) as [ids|]; cbn; [|reflexivity].
    apply bool_decide_eq_false. intros Hin.
    apply elem_of_difference in Hin as [_ Hn]. apply Hn.
    apply elem_of_singleton. reflexivity.
  - intros extra. eexists. split; [|split; [|split]].
    + apply run_messages_aborted; [apply lookup_snoc | reflexivity].
    + reflexivity.
    + reflexivity.
    + reflexivity.
Qed.

(** *** A request that could not be sent *)

(** X11. When the connection throws at the REQUEST frame, [sendMessages]
    rejects with what [send] threw, and nothing is undone: the identifier
    stays in the set of active requests, and the stream that was created,
    which the caller never receives, stays open with its message listener
    on the connection. Nothing was sent. *)
Theorem failed_send_leaves_request_behind
    (w : World) (rid : string) (options : SendOptions) (ag : Agent)
    (e : JsError) :
  agents w !! agent w = Some ag -> send_error ag = Some e ->
  opt_abortSignal options <> Some true ->
  let sid := length (streams w) in
  sendMessages rid options w
  = (Throw e,
     mkWorld
       (<[agent w := add_listener sid ag]> (agents w))
       (agent w)
       ((fun ids => {[rid]} ∪ ids) <$> activeRequestIds w)
       (_resumeResolver w)
       (streams w ++ [receiving SendStream rid (agent w)
                                (opt_abortSignal options) []])
       (calls w) (now w)).
Proof.
  intros Ha He Hsig sid.
  unfold sendMessages, bind, activeIds_add, modify, gets, new_stream,
    addEventListener, agent_send.
  wsimpl. rewrite lookup_snoc. cbn [signal_aborted].
  assert (Hret : (match opt_abortSignal options with
                  | Some true => onAbort (length (streams w))
                  | _ => ret tt
                  end) = ret tt).
  { destruct (opt_abortSignal options) as [[]|]; congruence. }
  rewrite Hret. wsimpl.
  rewrite list_lookup_alter_eq, Ha.
  cbn [fmap option_fmap option_map add_listener send_error].
  rewrite He. wexpand. erewrite alter_insert by exact Ha. reflexivity.
Qed.

(** *** The connection of a request *)

(** X12. A stream of [sendMessages] stays on the connection its request
    was sent on. When the host replaces [transport.agent] by another
    connection afterwards, the messages of the new connection do not
    reach the stream, the frames that arrive on the old connection still
    do, and cancelling the stream sends its CANCEL frame on the old
    connection, right after the request, and nothing on the new one. *)
Theorem stream_stays_on_its_connection
    (w w1 : World) (rid : string) (options : SendOptions) (sid : nat)
    (ag : Agent) (b : nat) (agb : Agent) :
  well_formed w = true ->
  opt_abortSignal options <> Some true ->
  sendMessages rid options w = (Normal sid, w1) ->
  agents w !! agent w = Some ag ->
  b <> agent w -> agents w !! b = Some agb ->
  let w2 := step w1 (EvSetAgent b) in
  let s0 := receiving SendStream rid (agent w) (opt_abortSignal options) [] in
  agent w2 = b
  /\ streams w2 !! sid = Some s0
  /\ (forall text, streams (step w2 (EvMessage b text)) !! sid = Some s0)
  /\ (forall text fr,
        frame_text text fr ->
        streams (step w2 (EvMessage (agent w) text)) !! sid
        = Some (receive fr s0))
  /\ (let w3 := step w2 (EvStreamCancel sid) in
      agents w3 !! agent w
      = Some (mkAgent (sent ag ++ [request_frame rid options; cancel_frame rid])
                      (send_error ag) (listeners ag ++ [sid]))
      /\ agents w3 !! b = Some agb).
Proof.
  intros Hwf Hsig Hsend Ha Hb Hagb w2 s0.
  destruct (sendMessages_returned _ _ _ _ _ Hsig Hsend)
    as (ag0 & Ha0 & He & -> & ->).
  rewrite Ha in Ha0. injection Ha0 as <-.
  set (sid := length (streams w)) in *.
  set (ag1 := mkAgent (sent ag ++ [request_frame rid options]) (send_error ag)
                      (listeners ag ++ [sid])).
  assert (Hlt : agent w < length (agents w))
    by (apply lookup_lt_Some in Ha; exact Ha).
  assert (Hw2 : w2 = set_agent b (sent_world w rid options ag)).
  { unfold w2. cbn [step]. rewrite bool_decide_eq_true_2; [reflexivity|].
    cbn [sent_world agents]. rewrite length_insert.
    apply lookup_lt_Some in Hagb. exact Hagb. }
  assert (Hs2 : streams w2 !! sid = Some s0)
    by (rewrite Hw2; apply lookup_snoc).
  assert (Ha2 : agents w2 !! agent w = Some ag1).
  { rewrite Hw2. cbn [set_agent sent_world agents].
    apply list_lookup_insert_eq. exact Hlt. }
  assert (Hb2 : agents w2 !! b = Some agb).
  { rewrite Hw2. cbn [set_agent sent_world agents].
    rewrite list_lookup_insert_ne by congruence. exact Hagb. }
  assert (Hfresh : forall a ag', agents w !! a = Some ag' -> sid ∉ listeners ag').
  { intros a ag' Ha' Hin. apply (well_formed_listeners _ _ _ _ Hwf Ha') in Hin.
    unfold sid in Hin. lia. }
  split; [rewrite Hw2; reflexivity|]. split; [exact Hs2|]. split; [|split].
  - intros text. cbn [step].
    rewrite (dispatch_absent b text w2 agb sid Hb2 (Hfresh _ _ Hagb)).
    exact Hs2.
  - intros text fr Hp. cbn [step].
    apply (dispatch_frame_at _ _ _ _ ag1 (listeners ag) []); auto.
    + apply (Hfresh _ _ Ha).
    + apply not_elem_of_nil.
  - cbn zeta. cbn [step].
    assert (Heq : exists w3, exec (stream_cancel sid) w2 = w3
                  /\ agents w3
                     = <[agent w := add_sent (cancel_frame rid) ag1]>
                         (agents w2)).
    { unfold exec, stream_cancel, bind at 1, gets. rewrite Hs2.
      cbn [controller s0 receiving ctl_state kind source_cancel].
      unfold bind, update_stream, modify.
      erewrite (onAbort_active sid _ _ ag1);
        [|wsimpl; rewrite list_lookup_alter_eq, Hs2; reflexivity
         |reflexivity | exact Ha2 | exact He].
      eexists. split; reflexivity. }
    destruct Heq as (w3 & -> & ->).
    assert (Hlt2 : agent w < length (agents w2))
      by (apply lookup_lt_Some in Ha2; exact Ha2).
    split.
    + rewrite list_lookup_insert_eq by exact Hlt2.
      unfold add_sent, ag1. cbn [sent send_error listeners].
      rewrite <- app_assoc. reflexivity.
    + rewrite list_lookup_insert_ne by congruence. exact Hb2.
Qed.

(** *** Aborting in mid-stream *)

Lemma tracked_deleted rid (o : option (gset string)) w :
  activeRequestIds w = (fun ids => ids ∖ {[rid]}) <$> o ->
  tracked rid w = false.
Proof.
  intros Heq. unfold tracked. rewrite Heq.
  destruct o as [ids|]; cbn; [|reflexivity].
  apply bool_decide_eq_false. intros Hin.
  apply elem_of_difference in Hin as [_ Hn]. apply Hn.
  apply elem_of_singleton. reflexivity.
Qed.

(** X16. A stream of [sendMessages] that is aborted or cancelled after
    chunks have arrived loses the chunks its consumer has not read yet.
    After any number of frames with chunks, the first trigger sends one
    CANCEL frame, right after the request, and hands the error named
    AbortError to the controller, once; the identifier leaves the set of
    active requests; further triggers do nothing. If the first trigger is
    the caller's [abortSignal], the next read of the consumer is rejected
    with that error; if it is [stream.cancel()], the stream is closed and
    the consumer reads its end. *)
Theorem abort_in_mid_stream_drops_unread_chunks
    (w w1 : World) (rid : string) (options : SendOptions) (sid : nat)
    (ag : Agent) (frames : list (string * ResponseChunk)) (more : list Event) :
  well_formed w = true ->
  opt_abortSignal options = Some false ->
  sendMessages rid options w = (Normal sid, w1) ->
  agents w !! agent w = Some ag ->
  Forall (fun tf => chunk_frame_for rid tf /\ rc_done (snd tf) = false) frames ->
  forallb (cancel_trigger sid) more = true ->
  let wk := run w1 (inbound (agent w) frames) in
  let log := map CallEnqueue (chunks_of frames) ++ [CallError abortError] in
  let out := sent ag ++ [request_frame rid options; cancel_frame rid] in
  (tracked rid (step wk (EvAbortSignal sid)) = false
   /\ exists s ag2,
        streams (run wk (EvAbortSignal sid :: more)) !! sid = Some s
        /\ consumer_view (controller s) = [Rejected abortError]
        /\ ctl_calls (controller s) = log
        /\ agents (run wk (EvAbortSignal sid :: more)) !! agent w = Some ag2
        /\ sent ag2 = out)
  /\ (tracked rid (step wk (EvStreamCancel sid)) = false
      /\ exists s ag2,
           streams (run wk (EvStreamCancel sid :: more)) !! sid = Some s
           /\ consumer_view (controller s) = [Done]
           /\ ctl_calls (controller s) = log
           /\ agents (run wk (EvStreamCancel sid :: more)) !! agent w = Some ag2
           /\ sent ag2 = out).
Proof.
  intros Hwf Hsig Hsend Ha Hframes Hmore wk log out.
  assert (Hsig' : opt_abortSignal options <> Some true) by congruence.
  destruct (sendMessages_returned _ _ _ _ _ Hsig' Hsend)
    as (ag0 & Ha0 & He & -> & ->).
  rewrite Ha in Ha0. injection Ha0 as <-.
  set (sid := length (streams w)) in *.
  set (ag1 := mkAgent (sent ag ++ [request_frame rid options]) (send_error ag)
                      (listeners ag ++ [sid])).
  assert (Hfresh : sid ∉ listeners ag).
  { intros Hin. apply (well_formed_listeners _ _ _ _ Hwf Ha) in Hin.
    unfold sid in Hin. lia. }
  assert (Hlt : agent w < length (agents w))
    by (apply lookup_lt_Some in Ha; exact Ha).
  assert (Ha1 : agents (sent_world w rid options ag) !! agent w = Some ag1)
    by (apply list_lookup_insert_eq; exact Hlt).
  assert (Hs1 : streams (sent_world w rid options ag) !! sid
                = Some (receiving SendStream rid (agent w)
                          (opt_abortSignal options) []))
    by apply lookup_snoc.
  destruct (run_inbound_receiving SendStream rid (agent w)
              (opt_abortSignal options) ag1 (listeners ag) [] sid frames
              eq_refl Hfresh ltac:(apply not_elem_of_nil) Hframes _ _ Ha1 Hs1)
    as (Hag & _ & Hst).
  cbn [app] in Hst. fold wk in Hag, Hst.
  set (sk := receiving SendStream rid (agent w) (opt_abortSignal options)
                       (chunks_of frames)) in *.
  assert (Hak : agents wk !! agent w = Some ag1) by (rewrite Hag; exact Ha1).
  assert (Hltk : agent w < length (agents wk))
    by (apply lookup_lt_Some in Hak; exact Hak).
  assert (Hslk : sid < length (streams wk))
    by (apply lookup_lt_Some in Hst; exact Hst).
  assert (Hout : sent (add_sent (cancel_frame rid) ag1) = out).
  { unfold out, add_sent, ag1. cbn [sent]. rewrite <- app_assoc. reflexivity. }
  split.
  - cbn [run fold_left step].
    set (w2 := exec (abort_signal sid) wk).
    assert (Hw2 : exists w', w2 = w'
                  /\ agents w' !! agent w
                     = Some (add_sent (cancel_frame rid) ag1)
                  /\ tracked rid w' = false
                  /\ streams w' !! sid
                     = Some (finished (set_abortSignal (Some true) sk)
                                      (ctl_error abortError))).
    { unfold w2, exec, abort_signal, bind at 1, gets. rewrite Hst.
      cbn [abortSignal sk receiving]. rewrite Hsig.
      unfold bind, update_stream, modify.
      erewrite (onAbort_active _ _ (set_abortSignal (Some true) sk) ag1);
        [|wsimpl; rewrite list_lookup_alter_eq, Hst; reflexivity
         |reflexivity | exact Hak | exact He].
      eexists. split; [reflexivity|].
      wsimpl. cbn [bound_agent set_abortSignal sk receiving requestId].
      split; [apply list_lookup_insert_eq; exact Hltk|].
      split; [eapply tracked_deleted; reflexivity|].
      apply list_lookup_insert_eq. rewrite length_alter. exact Hslk. }
    destruct Hw2 as (w' & Hw2 & Hag2 & Htr2 & Hst2).
    rewrite <- Hw2 in Hag2, Htr2, Hst2.
    split; [exact Htr2|].
    destruct (run_cancel_triggers_finished sid more w2 _ Hmore Hst2 eq_refl
                ltac:(discriminate)) as (Hagm & s' & Hs' & _ & Hk').
    exists s', (add_sent (cancel_frame rid) ag1).
    split; [exact Hs'|]. rewrite Hk'.
    split; [reflexivity|]. split; [reflexivity|].
    split; [unfold run in Hagm; rewrite Hagm; exact Hag2 | exact Hout].
  - cbn [run fold_left step].
    set (w2 := exec (stream_cancel sid) wk).
    set (s1 := set_controller
                 (mkController Closed [] false
                               (map CallEnqueue (chunks_of frames))) sk).
    assert (Hw2 : exists w', w2 = w'
                  /\ agents w' !! agent w
                     = Some (add_sent (cancel_frame rid) ag1)
                  /\ tracked rid w' = false
                  /\ streams w' !! sid
                     = Some (finished s1 (ctl_error abortError))).
    { unfold w2, exec, stream_cancel, bind at 1, gets. rewrite Hst.
      cbn [controller sk receiving ctl_state kind source_cancel].
      unfold bind, update_stream, modify.
      erewrite (onAbort_active _ _ s1 ag1);
        [|wsimpl; rewrite list_lookup_alter_eq, Hst; reflexivity
         |reflexivity | exact Hak | exact He].
      eexists. split; [reflexivity|].
      wsimpl. cbn [bound_agent s1 set_controller sk receiving requestId].
      split; [apply list_lookup_insert_eq; exact Hltk|].
      split; [eapply tracked_deleted; reflexivity|].
      apply list_lookup_insert_eq. rewrite length_alter. exact Hslk. }
    destruct Hw2 as (w' & Hw2 & Hag2 & Htr2 & Hst2).
    rewrite <- Hw2 in Hag2, Htr2, Hst2.
    split; [exact Htr2|].
    destruct (run_cancel_triggers_finished sid more w2 _ Hmore Hst2 eq_refl
                ltac:(discriminate)) as (Hagm & s' & Hs' & _ & Hk').
    exists s', (add_sent (cancel_frame rid) ag1).
    split; [exact Hs'|]. rewrite Hk'.
    split; [reflexivity|]. split; [reflexivity|].
    split; [unfold run in Hagm; rewrite Hagm; exact Hag2 | exact Hout].
Qed.

(** *** The body of a request *)

Lemma assoc_app k l1 l2 :
  assoc k (l1 ++ l2)
  = match assoc k l1 with
    | Some v => Some v
    | None => assoc k l2
    end.
Proof.
  induction l1 as [|[k' v'] l1 IH]; cbn; [reflexivity|].
  destruct (String.eqb k k'); [reflexivity | exact IH].
Qed.

Lemma assoc_absent k l : k ∉ keys l -> assoc k l = None.
Proof.
  induction l as [|[k' v'] l IH]; cbn; intros Hn; [reflexivity|].
  apply not_elem_of_cons in Hn as [Hne Hn].
  destruct (String.eqb_spec k k'); [congruence | apply IH, Hn].
Qed.

Lemma assoc_rev k l : NoDup (keys l) -> assoc k (rev l) = assoc k l.
Proof.
  induction l as [|[k' v'] l IH]; cbn; intros Hnd; [reflexivity|].
  apply NoDup_cons in Hnd as [Hk Hnd]. rewrite assoc_app, IH by exact Hnd.
  cbn. destruct (String.eqb_spec k k') as [->|Hne].
  - rewrite assoc_absent by exact Hk. reflexivity.
  - destruct (assoc k l); reflexivity.
Qed.

Lemma assoc_obj_set k o k' v :
  assoc k (obj_set o k' v) = if String.eqb k k' then Some v else assoc k o.
Proof.
  induction o as [|[k0 v0] o IH]; cbn; [destruct (String.eqb k k'); reflexivity|].
  destruct (String.eqb_spec k0 k') as [->|Hne]; cbn.
  - destruct (String.eqb k k'); reflexivity.
  - rewrite IH. destruct (String.eqb_spec k k0) as [->|Hne'].
    + destruct (String.eqb_spec k0 k'); [congruence | reflexivity].
    + reflexivity.
Qed.

Lemma assoc_spread k extra : forall o,
  assoc k (spread o extra)
  = match assoc k (rev extra) with
    | Some v => Some v
    | None => assoc k o
    end.
Proof.
  unfold spread. induction extra as [|[k' v'] extra IH]; intros o; cbn;
    [reflexivity|].
  rewrite IH, assoc_app, assoc_obj_set. cbn.
  destruct (assoc k (rev extra)); [reflexivity|].
  destruct (String.eqb k k'); reflexivity.
Qed.

Lemma keys_obj_set o k v :
  keys (obj_set o k v) = if bool_decide (k ∈ keys o) then keys o
                         else keys o ++ [k].
Proof.
  unfold keys. induction o as [|[k0 v0] o IH]; cbn; [reflexivity|].
  destruct (String.eqb_spec k0 k) as [->|Hne]; cbn.
  - rewrite bool_decide_eq_true_2 by apply list_elem_of_here. reflexivity.
  - rewrite IH.
    destruct (bool_decide_reflect (k ∈ map fst o)) as [Hin|Hn].
    + rewrite bool_decide_eq_true_2 by (apply list_elem_of_further, Hin).
      reflexivity.
    + rewrite bool_decide_eq_false_2; [reflexivity|].
      intros Hin. apply elem_of_cons in Hin as [Heq|Hin]; congruence.
Qed.

Lemma NoDup_obj_set o k v : NoDup (keys o) -> NoDup (keys (obj_set o k v)).
Proof.
  intros Hnd. rewrite keys_obj_set.
  destruct (bool_decide_reflect (k ∈ keys o)) as [Hin|Hn]; [exact Hnd|].
  apply NoDup_app. split; [exact Hnd|]. split.
  - intros x Hx Hx'. apply list_elem_of_singleton in Hx'. congruence.
  - apply NoDup_singleton.
Qed.

Lemma NoDup_spread extra : forall o,
  NoDup (keys o) -> NoDup (keys (spread o extra)).
Proof.
  unfold spread. induction extra as [|[k v] extra IH]; intros o Hnd;
    [exact Hnd|].
  cbn. apply IH, NoDup_obj_set, Hnd.
Qed.

(** X13. The body of a request is the object
    [{ messages, trigger, ...prepared, ...body }]: a property of
    [options.body] is in it with the value [options.body] gives it; a
    property of what [prepareBody] returned is in it unless [options.body]
    has one of the same name; and [messages] and [trigger] are those of
    the call unless one of the two objects has a property of that name,
    which then replaces it. The object has no other property and no
    property twice. *)
Theorem body_payload_precedence (options : SendOptions) :
  NoDup (keys (opt_prepared options)) ->
  NoDup (keys (opt_body options)) ->
  bodyPayload options = JSON_stringify (JObject (payload options))
  /\ NoDup (keys (payload options))
  /\ forall k,
       assoc k (payload options)
       = match assoc k (opt_body options) with
         | Some v => Some v
         | None =>
             match assoc k (opt_prepared options) with
             | Some v => Some v
             | None =>
                 if String.eqb k "messages" then Some (opt_messages options)
                 else if String.eqb k "trigger"
                      then Some (JString (opt_trigger options))
                      else None
             end
         end.
Proof.
  intros Hp Hb. split; [reflexivity|]. split.
  - unfold payload. apply NoDup_spread. cbn.
    apply NoDup_cons. split; [|apply NoDup_singleton].
    intros Hin. apply list_elem_of_singleton in Hin. discriminate.
  - intros k. unfold payload.
    rewrite assoc_spread, assoc_rev by (apply NoDup_spread; exact Hp).
    rewrite assoc_spread, assoc_rev by exact Hb.
    destruct (assoc k (opt_body options)); [reflexivity|].
    destruct (assoc k (opt_prepared options)); reflexivity.
Qed.

(** *** A resume call that was superseded *)

(** X14. The timeout of a resume call empties the resolver slot even when
    the slot holds the resolver of a later call. On a transport with no
    other resume call pending, a second call of [reconnectToStream]
    follows the first within its 5000 milliseconds; when the first call's
    timer fires, the first call is resolved with [null] and the slot is
    emptied, although the second call is still pending. From then on a
    hand-off returns [false], and the second call is resolved with [null]
    when its own 5000 milliseconds have passed. *)
Theorem superseded_timeout_empties_the_slot
    (w : World) (d1 d2 d3 : nat) :
  pending_timers (calls w) = 0 ->
  d1 < RESUME_TIMEOUT -> RESUME_TIMEOUT <= d1 + d2 -> d2 < RESUME_TIMEOUT ->
  RESUME_TIMEOUT <= d2 + d3 ->
  let first := length (calls w) in
  let second := S (length (calls w)) in
  let wa := run w [EvReconnectToStream; EvAdvance d1] in
  let wb := run wa [EvReconnectToStream; EvAdvance d2] in
  _resumeResolver wa = Some first
  /\ _resumeResolver (step wa EvReconnectToStream) = Some second
  /\ calls wb !! first = Some (mkCall true None (Some None))
  /\ calls wb !! second
     = Some (mkCall false (Some (now w + d1 + RESUME_TIMEOUT)) None)
  /\ _resumeResolver wb = None
  /\ (forall rid, handleStreamResuming rid wb = (Normal false, wb))
  /\ calls (run wb [EvAdvance d3]) !! second
     = Some (mkCall true None (Some None)).
Proof.
  intros Hidle H1 H12 H2 H23 first second wa wb.
  set (A0 := mkCall false (Some (now w + RESUME_TIMEOUT)) None).
  set (B0 := mkCall false (Some (now w + d1 + RESUME_TIMEOUT)) None).
  assert (Hwa : wa = set_now (now w + d1) (reconnecting_world w)).
  { unfold wa. cbn [run fold_left step]. unfold exec at 2.
    rewrite reconnectToStream_eq. cbn [snd]. unfold exec.
    rewrite advance_idle; [reflexivity|].
    intros j c due Hj Ht. cbn [reconnecting_world calls now] in *.
    apply lookup_app_Some in Hj as [Hj|[_ Hj]].
    - exfalso. exact (pending_timers_none _ _ _ _ Hidle Hj Ht).
    - destruct (j - length (calls w)) as [|n]; [|discriminate].
      injection Hj as <-. injection Ht as <-. lia. }
  assert (Hca : calls wa = calls w ++ [A0]) by (rewrite Hwa; reflexivity).
  set (wr := step wa EvReconnectToStream).
  assert (Hwr : wr = reconnecting_world wa).
  { unfold wr. cbn [step]. unfold exec. rewrite reconnectToStream_eq.
    reflexivity. }
  assert (Hcr : calls wr = (calls w ++ [A0]) ++ [B0]).
  { rewrite Hwr. cbn [reconnecting_world calls]. rewrite Hca, Hwa.
    reflexivity. }
  assert (Hnr : now wr = now w + d1) by (rewrite Hwr, Hwa; reflexivity).
  assert (HA : calls wr !! first = Some A0).
  { rewrite Hcr. apply lookup_app_l_Some, lookup_snoc. }
  assert (HB : calls wr !! second = Some B0).
  { rewrite Hcr. unfold second.
    replace (S (length (calls w))) with (length (calls w ++ [A0]))
      by (rewrite length_app; cbn; lia).
    apply lookup_snoc. }
  assert (Hwb : wb = exec (advance d2) wr) by reflexivity.
  destruct (advance_fires d2 wr first A0 (now w + RESUME_TIMEOUT) HA eq_refl
              ltac:(rewrite Hnr; lia)) as [HAb Hslot].
  assert (HBb : calls wb !! second = Some B0).
  { rewrite Hwb. apply advance_keeps; [exact HB|].
    intros due [= <-]. rewrite Hnr. lia. }
  assert (Hsb : _resumeResolver wb = None) by (rewrite Hwb; apply Hslot; reflexivity).
  split; [rewrite Hwa; reflexivity|]. split.
  { fold wr. rewrite Hwr. cbn [reconnecting_world _resumeResolver].
    rewrite Hca, length_app. cbn. f_equal. unfold second. lia. }
  split; [rewrite Hwb; exact HAb|]. split; [exact HBb|].
  split; [exact Hsb|]. split.
  { intros rid. apply handleStreamResuming_idle, Hsb. }
  cbn [run fold_left step].
  assert (Hnb : now wb = now w + d1 + d2).
  { rewrite Hwb, advance_now, Hnr. reflexivity. }
  destruct (advance_fires d3 wb second B0 (now w + d1 + RESUME_TIMEOUT) HBb
              eq_refl ltac:(rewrite Hnb; lia)) as [HBc _].
  exact HBc.
Qed.

End FactsWithExternals.

(** *** The theorems at work on the mock connection *)

Import Scenario.
#[local] Existing Instance codec.

Lemma messages_of_other_types_are_ignored_witness :
  let text := Fixture.stringify (resuming "req-resume") in
  let w := exec (sendMessages "req-done" Fixture.submit) Fixture.fresh in
  is_response text = false
  /\ dispatch 0 text w = (Normal tt, w).
Proof.
  cbn zeta. split; [reflexivity|].
  apply (messages_of_other_types_are_ignored (H := codec)
           (Fixture.stringify (resuming "req-resume")) ltac:(reflexivity)).
Defined.

Lemma frame_with_malformed_body_is_dropped_witness :
  let text := Fixture.stringify (numeric_body "req-done") in
  let w := exec (sendMessages "req-done" Fixture.submit) Fixture.fresh in
  dispatch 0 text w = (Normal tt, w).
Proof.
  cbn zeta.
  apply (frame_with_malformed_body_is_dropped (H := codec)
           (Fixture.stringify (numeric_body "req-done"))
           [("type", JString (Fixture.wire_name CF_AGENT_USE_CHAT_RESPONSE));
            ("id", JString "req-done"); ("body", JNumber 0);
            ("done", JBool true)]
           (JNumber 0)
           ltac:(reflexivity) ltac:(reflexivity) ltac:(reflexivity)
           ltac:(reflexivity)).
Defined.

Lemma frames_of_other_requests_leave_stream_witness :
  let w := exec (sendMessages "req-done" Fixture.submit) Fixture.fresh in
  streams
    (run w (inbound 0
              [chunk_frame "req-other" (Fixture.stringify Fixture.text_start)
                           false;
               chunk_frame "req-other" "" true]))
    !! 0
  = Some (receiving SendStream "req-done" 0 None []).
Proof.
  cbn zeta.
  apply (frames_of_other_requests_leave_stream (H := codec) 0 0
           (receiving SendStream "req-done" 0 None [])
           [chunk_frame "req-other" (Fixture.stringify Fixture.text_start)
                        false;
            chunk_frame "req-other" "" true]).
  - repeat (constructor; [split; [mock_frame | discriminate]|]). constructor.
  - reflexivity.
Defined.

Lemma promise_is_resolved_once_witness :
  let w := run Fixture.fresh [EvReconnectToStream; EvAdvance 5000] in
  calls w !! 0 = Some (mkCall true None (Some None))
  /\ calls (run w [EvHandleStreamResuming "req-late"; EvAdvance 9000]) !! 0
     = Some (mkCall true None (Some None)).
Proof.
  cbn zeta.
  assert (Hc : calls (run Fixture.fresh [EvReconnectToStream; EvAdvance 5000])
                 !! 0 = Some (mkCall true None (Some None)))
    by (vm_compute; reflexivity).
  split; [exact Hc|].
  exact (proj2 (proj2 (proj2 (promise_is_resolved_once (H := codec)
                                None (Some ∅)
                                [EvReconnectToStream; EvAdvance 5000] 0
                                (mkCall true None (Some None)) Hc)
                             eq_refl))
           [EvHandleStreamResuming "req-late"; EvAdvance 9000]).
Defined.

Lemma error_frame_rejects_the_consumer_witness :
  let w1 := exec (sendMessages "req-done" Fixture.submit) Fixture.fresh in
  let w2 := run w1 (inbound 0
                      ([chunk_frame "req-done"
                          (Fixture.stringify Fixture.text_start) false]
                       ++ [error_frame "req-done" "boom"])) in
  agents w2 = agents w1
  /\ tracked "req-done" w2 = false
  /\ exists s,
       streams (run w2 (messages [])) !! 0 = Some s
       /\ completed s = true
       /\ consumer_view (controller s) = [Rejected (Error "boom")]
       /\ ctl_calls (controller s)
          = map CallEnqueue [Fixture.text_start] ++ [CallError (Error "boom")].
Proof.
  refine (_ (error_frame_rejects_the_consumer (H := codec)
               Fixture.fresh
               (exec (sendMessages "req-done" Fixture.submit) Fixture.fresh)
               "req-done" Fixture.submit 0
               [chunk_frame "req-done"
                  (Fixture.stringify Fixture.text_start) false]
               (error_frame "req-done" "boom") []
               _ _ _ _ _ _ _)).
  - intros Hw. exact Hw.
  - reflexivity.
  - discriminate.
  - reflexivity.
  - repeat (constructor;
            [split; [split; [mock_frame | split; reflexivity] | reflexivity]|]).
    constructor.
  - mock_frame.
  - reflexivity.
  - reflexivity.
Defined.

Lemma resumed_stream_delivers_in_order_witness :
  let w := run Fixture.fresh [EvReconnectToStream] in
  let w1 := exec (handleStreamResuming "req-resume") w in
  let w2 := run w1 (inbound 0
                      ([replay_frame "req-resume"
                          (Fixture.stringify Fixture.text_start) false]
                       ++ [replay_frame "req-resume"
                             (Fixture.stringify Fixture.text_delta) true])) in
  calls w1 !! 0 = Some (mkCall true None (Some (Some 0)))
  /\ tracked "req-resume" w1 = true
  /\ agents w2 = agents w1
  /\ tracked "req-resume" w2 = false
  /\ exists s,
       streams (run w2 (messages [])) !! 0 = Some s
       /\ kind s = ResumeStream
       /\ completed s = true
       /\ consumer_view (controller s)
          = map Value [Fixture.text_start; Fixture.text_delta] ++ [Done]
       /\ ctl_calls (controller s)
          = map CallEnqueue [Fixture.text_start; Fixture.text_delta]
            ++ [CallClose].
Proof.
  refine (_ (resumed_stream_delivers_in_order (H := codec)
               (run Fixture.fresh [EvReconnectToStream]) "req-resume" 0
               (mkAgent [resume_request_frame] None [])
               [replay_frame "req-resume"
                  (Fixture.stringify Fixture.text_start) false]
               (replay_frame "req-resume"
                  (Fixture.stringify Fixture.text_delta) true) []
               _ _ _ _ _ _ _)).
  - intros Hw. exact Hw.
  - reflexivity.
  - reflexivity.
  - reflexivity.
  - reflexivity.
  - repeat (constructor;
            [split; [split; [mock_frame | split; reflexivity] | reflexivity]|]).
    constructor.
  - split; [mock_frame | split; reflexivity].
  - reflexivity.
Defined.

Lemma cancelling_a_resumed_stream_is_silent_witness :
  let w := run Fixture.fresh [EvReconnectToStream] in
  let w1 := exec (handleStreamResuming "req-resume") w in
  let w2 := run w1 (inbound 0
                      [replay_frame "req-resume"
                         (Fixture.stringify Fixture.text_start) false]
                    ++ [EvStreamCancel 0]) in
  let w3 := run w2 (messages
                      [(0, fst (replay_frame "req-resume"
                                  (Fixture.stringify Fixture.text_delta)
                                  true))]) in
  agents w3 = agents w1
  /\ tracked "req-resume" w2 = false
  /\ exists s,
       streams w3 !! 0 = Some s
       /\ completed s = true
       /\ signal_aborted s = true
       /\ consumer_view (controller s) = [Done]
       /\ ctl_calls (controller s) = map CallEnqueue [Fixture.text_start].
Proof.
  refine (_ (cancelling_a_resumed_stream_is_silent (H := codec)
               (run Fixture.fresh [EvReconnectToStream]) "req-resume" 0
               (mkAgent [resume_request_frame] None [])
               [replay_frame "req-resume"
                  (Fixture.stringify Fixture.text_start) false]
               [(0, fst (replay_frame "req-resume"
                           (Fixture.stringify Fixture.text_delta) true))]
               _ _ _ _ _)).
  - intros Hw. exact Hw.
  - reflexivity.
  - reflexivity.
  - reflexivity.
  - reflexivity.
  - repeat (constructor;
            [split; [split; [mock_frame | split; reflexivity] | reflexivity]|]).
    constructor.
Defined.

Lemma cancelling_a_finished_stream_sends_nothing_witness :
  let w := run (exec (sendMessages "req-done" Fixture.submit_with_signal)
                     Fixture.fresh)
               (inbound 0 [chunk_frame "req-done"
                             (Fixture.stringify Fixture.text_start) false;
                           chunk_frame "req-done" "" true]) in
  let w' := run w [EvAbortSignal 0; EvAbortSignal 0] in
  (sent <$> agents w' !! 0)
  = Some [request_frame "req-done" Fixture.submit_with_signal]
  /\ exists s',
       streams w' !! 0 = Some s'
       /\ consumer_view (controller s') = [Value Fixture.text_start; Done].
Proof.
  cbn zeta.
  set (w := run (exec (sendMessages "req-done" Fixture.submit_with_signal)
                      Fixture.fresh)
                (inbound 0 [chunk_frame "req-done"
                              (Fixture.stringify Fixture.text_start) false;
                            chunk_frame "req-done" "" true])).
  assert (Hs : streams w !! 0
               = Some (closing SendStream "req-done" 0 (Some false)
                               [Fixture.text_start]))
    by (vm_compute; reflexivity).
  destruct (cancelling_a_finished_stream_sends_nothing (H := codec) 0
              [EvAbortSignal 0; EvAbortSignal 0] w _ eq_refl Hs eq_refl)
    as (Hag & _ & s' & Hs' & _ & _ & Hview).
  split.
  - rewrite Hag. vm_compute. reflexivity.
  - exists s'. split; [exact Hs'|]. rewrite (Hview eq_refl). reflexivity.
Defined.

Lemma sendMessages_with_aborted_signal_witness :
  let w1 := exec (sendMessages "req-1" submit_aborted) Fixture.fresh in
  sendMessages "req-1" submit_aborted Fixture.fresh = (Normal 0, w1)
  /\ (exists ag1,
        agents w1 !! 0 = Some ag1
        /\ sent ag1 = [] ++ [cancel_frame "req-1";
                             request_frame "req-1" submit_aborted])
  /\ tracked "req-1" w1 = false.
Proof.
  cbn zeta.
  destruct (sendMessages_with_aborted_signal (H := codec) Fixture.fresh
              "req-1" submit_aborted (mkAgent [] None [])
              eq_refl eq_refl eq_refl) as (Hrun & Hsent & Htr & _).
  split; [exact Hrun|]. split; [exact Hsent | exact Htr].
Defined.

Lemma failed_send_leaves_request_behind_witness :
  let r := sendMessages "req-1" Fixture.submit Fixture.fresh_closed in
  fst r = Throw Fixture.closed_error
  /\ tracked "req-1" (snd r) = true
  /\ streams (snd r) !! 0 = Some (receiving SendStream "req-1" 0 None [])
  /\ (listeners <$> agents (snd r) !! 0) = Some [0].
Proof.
  cbn zeta.
  rewrite (failed_send_leaves_request_behind (H := codec) Fixture.fresh_closed
             "req-1" Fixture.submit
             (mkAgent [] (Some Fixture.closed_error) [])
             Fixture.closed_error eq_refl eq_refl ltac:(discriminate)).
  vm_compute. repeat split.
Defined.

Lemma stream_stays_on_its_connection_witness :
  let w := run Fixture.fresh [EvNewAgent None] in
  let w1 := exec (sendMessages "req-done" Fixture.submit) w in
  let w2 := step w1 (EvSetAgent 1) in
  let w3 := step w2 (EvStreamCancel 0) in
  agent w2 = 1
  /\ agents w3 !! 0
     = Some (mkAgent ([] ++ [request_frame "req-done" Fixture.submit;
                             cancel_frame "req-done"])
                     None ([] ++ [0]))
  /\ agents w3 !! 1 = Some (mkAgent [] None []).
Proof.
  cbn zeta.
  destruct (stream_stays_on_its_connection (H := codec)
              (run Fixture.fresh [EvNewAgent None])
              (exec (sendMessages "req-done" Fixture.submit)
                    (run Fixture.fresh [EvNewAgent None]))
              "req-done" Fixture.submit 0 (mkAgent [] None []) 1
              (mkAgent [] None [])
              eq_refl ltac:(discriminate) eq_refl eq_refl ltac:(discriminate)
              eq_refl)
    as (Hagent & _ & _ & _ & Hold & Hnew).
  split; [exact Hagent|]. split; [exact Hold | exact Hnew].
Defined.

Lemma body_payload_precedence_witness :
  assoc "model" (payload submit_with_body) = Some (JString "other")
  /\ assoc "temperature" (payload submit_with_body) = Some (JNumber 0)
  /\ assoc "trigger" (payload submit_with_body) = Some (JString "custom")
  /\ assoc "messages" (payload submit_with_body) = Some (JArray []).
Proof.
  assert (Hp : NoDup (keys (opt_prepared submit_with_body))).
  { repeat (apply NoDup_cons_2; [vm_compute; intros Hin;
              repeat (apply elem_of_cons in Hin as [Hin|Hin];
                      [discriminate|]);
              apply elem_of_nil in Hin; exact Hin|]).
    apply NoDup_nil_2. }
  assert (Hb : NoDup (keys (opt_body submit_with_body))).
  { repeat (apply NoDup_cons_2; [vm_compute; intros Hin;
              repeat (apply elem_of_cons in Hin as [Hin|Hin];
                      [discriminate|]);
              apply elem_of_nil in Hin; exact Hin|]).
    apply NoDup_nil_2. }
  destruct (body_payload_precedence (H := codec) submit_with_body Hp Hb)
    as (_ & _ & Hk).
  rewrite !Hk. repeat split.
Defined.

Lemma superseded_timeout_empties_the_slot_witness :
  let wa := run Fixture.fresh [EvReconnectToStream; EvAdvance 1000] in
  let wb := run wa [EvReconnectToStream; EvAdvance 4000] in
  calls wb !! 0 = Some (mkCall true None (Some None))
  /\ calls wb !! 1 = Some (mkCall false (Some (0 + 1000 + RESUME_TIMEOUT)) None)
  /\ _resumeResolver wb = None
  /\ handleStreamResuming "req-late" wb = (Normal false, wb).
Proof.
  cbn zeta.
  destruct (superseded_timeout_empties_the_slot (H := codec) Fixture.fresh
              1000 4000 1000 eq_refl)
    as (_ & _ & Hfirst & Hsecond & Hslot & Hoff & _);
    try (vm_compute; lia).
  split; [exact Hfirst|]. split; [exact Hsecond|].
  split; [exact Hslot | apply Hoff].
Defined.

Lemma abort_in_mid_stream_drops_unread_chunks_witness :
  let w1 := exec (sendMessages "req-done" Fixture.submit_with_signal)
                 Fixture.fresh in
  let wk := run w1 (inbound 0 [chunk_frame "req-done"
                                 (Fixture.stringify Fixture.text_start)
                                 false]) in
  let w2 := run wk (EvAbortSignal 0 :: [EvStreamCancel 0]) in
  tracked "req-done" (step wk (EvAbortSignal 0)) = false
  /\ exists s ag2,
       streams w2 !! 0 = Some s
       /\ consumer_view (controller s) = [Rejected abortError]
       /\ ctl_calls (controller s)
          = map CallEnqueue [Fixture.text_start] ++ [CallError abortError]
       /\ agents w2 !! 0 = Some ag2
       /\ sent ag2
          = [] ++ [request_frame "req-done" Fixture.submit_with_signal;
                   cancel_frame "req-done"].
Proof.
  refine (_ (proj1 (abort_in_mid_stream_drops_unread_chunks (H := codec)
               Fixture.fresh
               (exec (sendMessages "req-done" Fixture.submit_with_signal)
                     Fixture.fresh)
               "req-done" Fixture.submit_with_signal 0 (mkAgent [] None [])
               [chunk_frame "req-done"
                  (Fixture.stringify Fixture.text_start) false]
               [EvStreamCancel 0]
               _ _ _ _ _ _))).
  - intros Hw. exact Hw.
  - reflexivity.
  - reflexivity.
  - reflexivity.
  - reflexivity.
  - repeat (constructor;
            [split; [split; [mock_frame | split; reflexivity] | reflexivity]|]).
    constructor.
  - reflexivity.
Defined.

End LifecycleFacts.
